(** * torpy circuit core: a shallow embedding of [torpy/circuit.py]

    The Python module is sequentialised: every method of [TorCircuit] and of
    its [CellHandlerManager] becomes a computation in a state-and-exception
    monad over one record holding the circuit object, its handler registry,
    its waiters, its streams and the traces of what was logged and handed to
    the sender.  Mutations made before an exception is raised persist, as
    they do in Python.  What the receive thread dispatches while a caller is
    blocked in [Waiter.get] is an explicit argument of the blocking
    operations. *)

From Stdlib Require Import ZArith Lia.
From stdpp Require Import base option list gmap strings.

Local Open Scope Z_scope.

(** ** Cells *)

Definition bytes := list Byte.byte.

(** The cell classes imported from [torpy.cells]; the handler registry is
    keyed by them. *)
Inductive CellType :=
| CellRelayTruncated | CellRelayEnd | CellRelayData | CellRelaySendMe
| CellRelayConnected | CellDestroy | CellCreate2 | CellCreated2
| CellRelay | CellRelayExtend2 | CellRelayExtended2 | CellRelayEarly
| CellRelayEstablishRendezvous | CellRelayRendezvousEstablished
| CellRelayIntroduce1 | CellRelayIntroduceAck.

#[global] Instance CellType_eq_dec : EqDecision CellType.
Proof. solve_decision. Defined.

Definition CellType_code (t : CellType) : nat :=
  match t with
  | CellRelayTruncated => 0 | CellRelayEnd => 1 | CellRelayData => 2
  | CellRelaySendMe => 3 | CellRelayConnected => 4 | CellDestroy => 5
  | CellCreate2 => 6 | CellCreated2 => 7 | CellRelay => 8
  | CellRelayExtend2 => 9 | CellRelayExtended2 => 10 | CellRelayEarly => 11
  | CellRelayEstablishRendezvous => 12
  | CellRelayRendezvousEstablished => 13
  | CellRelayIntroduce1 => 14 | CellRelayIntroduceAck => 15
  end%nat.

Definition CellType_of_code (n : nat) : CellType :=
  match n with
  | 0 => CellRelayTruncated | 1 => CellRelayEnd | 2 => CellRelayData
  | 3 => CellRelaySendMe | 4 => CellRelayConnected | 5 => CellDestroy
  | 6 => CellCreate2 | 7 => CellCreated2 | 8 => CellRelay
  | 9 => CellRelayExtend2 | 10 => CellRelayExtended2 | 11 => CellRelayEarly
  | 12 => CellRelayEstablishRendezvous
  | 13 => CellRelayRendezvousEstablished
  | 14 => CellRelayIntroduce1 | _ => CellRelayIntroduceAck
  end%nat.

#[global] Instance CellType_countable : Countable CellType.
Proof.
  refine (inj_countable' CellType_code CellType_of_code _).
  by intros [].
Defined.

(** [cell_types] arguments are either one class or a Python list of
    classes ([isinstance(cell_types, list)]). *)
Inductive CellTypes :=
| One (t : CellType)
| Many (ts : list CellType).

(** [CircuitReason] of [torpy.cells] (tor-spec 5.4). *)
Inductive CircuitReason :=
| NONE | PROTOCOL | INTERNAL | REQUESTED | HIBERNATING | RESOURCELIMIT
| CONNECTFAILED | OR_IDENTITY | OR_CONN_CLOSED | FINISHED | TIMEOUT
| DESTROYED | NOSUCHSERVICE.

(** [TorHandshakeType]. *)
Inductive TorHandshakeType := TAP | FAST | NTOR.

Record Router := {
  nickname : string;
  ip : string;
  tor_port : Z;
  fingerprint : bytes
}.

(** The cells the circuit builds or inspects, with the attributes it reads
    ([handshake_data], [reason], [circuit_id]). *)
Inductive Cell :=
| Create2 (handshake_type : TorHandshakeType) (onion_skin : bytes) (circuit_id : Z)
| Created2 (handshake_data : bytes)
| Destroy (reason : CircuitReason) (circuit_id : Z)
| RelayExtend2 (ip : string) (port : Z) (fingerprint skin : bytes)
| RelayExtended2 (handshake_data : bytes)
| RelayTruncated (reason : CircuitReason)
| RelayEnd (circuit_id : Z)
| RelayData (data : bytes) (circuit_id : Z)
| RelaySendMe (circuit_id : Z)
| RelayConnected
| RelayEstablishRendezvous (rendezvous_cookie : bytes) (circuit_id : Z)
| RelayRendezvousEstablished
| RelayIntroduce1 (introduction_point : Router) (public_key : bytes)
    (introducee : Router) (rendezvous_cookie : bytes) (circuit_id : Z)
| RelayIntroduceAck.

(** [type(cell)]. *)
Definition type_of (c : Cell) : CellType :=
  match c with
  | Create2 _ _ _ => CellCreate2
  | Created2 _ => CellCreated2
  | Destroy _ _ => CellDestroy
  | RelayExtend2 _ _ _ _ => CellRelayExtend2
  | RelayExtended2 _ => CellRelayExtended2
  | RelayTruncated _ => CellRelayTruncated
  | RelayEnd _ => CellRelayEnd
  | RelayData _ _ => CellRelayData
  | RelaySendMe _ => CellRelaySendMe
  | RelayConnected => CellRelayConnected
  | RelayEstablishRendezvous _ _ => CellRelayEstablishRendezvous
  | RelayRendezvousEstablished => CellRelayRendezvousEstablished
  | RelayIntroduce1 _ _ _ _ _ => CellRelayIntroduce1
  | RelayIntroduceAck => CellRelayIntroduceAck
  end.

(** The two [RelayedTorCell] subclasses used as outer cells. *)
Inductive RelayType := OuterRelay | OuterRelayEarly.

(** Modelled from the spec: [RelayedTorCell] (torpy.cells) "carries
    is_encrypted, stream_id, circuit_id, and a mutable payload buffer".  A
    cell built from an inner cell is plain; a cell read from the link is
    encrypted and has no inner cell yet. *)
Record RelayedTorCell := {
  relay_type : RelayType;
  inner_cell : option Cell;
  stream_id : Z;
  rcircuit_id : Z;
  payload : bytes;
  is_encrypted : bool
}.

(** [relay_type(inner_cell, stream_id=stream_id, circuit_id=self.id)]. *)
Definition new_relay (rt : RelayType) (inner : Cell) (sid cid : Z) : RelayedTorCell :=
  {| relay_type := rt; inner_cell := Some inner; stream_id := sid;
     rcircuit_id := cid; payload := []; is_encrypted := false |}.

(** What is handed to [Sender.send]. *)
Inductive WireCell :=
| Plain (c : Cell)
| Relayed (rc : RelayedTorCell).

(** ** Flow-control window *)

(** Modelled from the spec: [TorWindow] (torpy.stream), "counters package
    and deliver; both start at 1000, decrement by 1 per data cell,
    replenished by SENDME in increments of 100"; a SENDME is due when the
    deliver counter "reaches the 900 threshold", and the counter is topped
    up by the increment when it is. *)
Record TorWindow := { deliver : Z; package : Z }.

Definition window_start : Z := 1000.
Definition window_increment : Z := 100.

Definition new_window : TorWindow :=
  {| deliver := window_start; package := window_start |}.

Definition package_inc (w : TorWindow) : TorWindow :=
  {| deliver := deliver w; package := package w + window_increment |}.

Definition deliver_dec (w : TorWindow) : TorWindow :=
  {| deliver := deliver w - 1; package := package w |}.

Definition need_sendme (w : TorWindow) : bool * TorWindow :=
  if Z.ltb (window_start - window_increment) (deliver w) then (false, w)
  else (true, {| deliver := deliver w + window_increment; package := package w |}).

(** ** Exceptions and log records *)

(** The payloads of the bare [Exception]s the module raises. *)
Inductive ExceptionMsg :=
| NotYetConnected (id : Z)      (* '#{:x} circuit is not yet connected' *)
| MoreThanOneHiddenService      (* "It's not possible associate one circuit to more then one hidden service" *)
| CantExtendToHidden            (* "Can't extend to hidden service" *)
| WaiterError (err_msg : string). (* Exception(self._err_msg) *)

Inductive Exn :=
| AssertionError (msg : string)
| GetDecryptedError             (* whatever [get_decrypted] raises *)
| CellTimeoutError (cell_types : CellTypes)
| CircuitExtendError (reason : CircuitReason)
| Exception (msg : ExceptionMsg)
| NotImplementedError (msg : string)
| AttributeError
| TypeError
| ValueError
| DescriptorNotAvailable
| HandshakeError.

Inductive LogLevel := DEBUG | INFO | WARNING | ERROR.

Definition LogRecord : Type := LogLevel * string.

#[global] Instance LogLevel_eq_dec : EqDecision LogLevel.
Proof. solve_decision. Defined.

(** ** Collaborators *)

(** The key agreements ([torpy.keyagreement]), the per-hop cipher state
    ([torpy.crypto_state]) and [RelayedTorCell.get_decrypted]
    ([torpy.cells]) are outside this module; the circuit only calls them.
    [ka_complete_handshake] and [get_decrypted] answer [None] when the
    Python call raises; the two cipher operations return the new cipher
    state and the cell as they mutated it. *)
Class Collaborators := {
  KeyAgreement : Type;
  CryptoState : Type;
  NtorKeyAgreement : Router -> KeyAgreement;
  TapKeyAgreement : Router -> KeyAgreement;
  ka_handshake : KeyAgreement -> bytes;
  ka_complete_handshake : KeyAgreement -> bytes -> option bytes;
  new_crypto_state : bytes -> CryptoState;
  cs_encrypt_forward : CryptoState -> RelayedTorCell -> CryptoState * RelayedTorCell;
  cs_decrypt_backward : CryptoState -> RelayedTorCell -> CryptoState * RelayedTorCell;
  get_decrypted : RelayedTorCell -> option Cell
}.

(** ** The state-and-exception monad *)

Inductive Res (A : Type) :=
| Ret (a : A)
| Raise (e : Exn).
Arguments Ret {A} a.
Arguments Raise {A} e.

Section Monad.
Context {S : Type}.

Definition M (A : Type) : Type := S -> S * Res A.

Definition ret {A} (a : A) : M A := fun s => (s, Ret a).
Definition raise {A} (e : Exn) : M A := fun s => (s, Raise e).
Definition bind {A B} (m : M A) (k : A -> M B) : M B :=
  fun s => match m s with
           | (s', Ret a) => k a s'
           | (s', Raise e) => (s', Raise e)
           end.
Definition gets {A} (f : S -> A) : M A := fun s => (s, Ret (f s)).
Definition modify (f : S -> S) : M unit := fun s => (f s, Ret tt).
Definition lift {A} (r : Res A) : M A := fun s => (s, r).

(** [try: m except BaseException as e: h e]. *)
Definition try_except {A} (m : M A) (h : Exn -> M A) : M A :=
  fun s => match m s with
           | (s', Ret a) => (s', Ret a)
           | (s', Raise e) => h e s'
           end.

(** [assert b, msg]. *)
Definition assert_ (b : bool) (msg : string) : M unit :=
  if b then ret tt else raise (AssertionError msg).
End Monad.
Arguments M : clear implicits.

Notation "'let*' x ':=' m 'in' k" := (bind m (fun x => k))
  (at level 10, x pattern, m at level 100, k at level 200).
Notation "m >> k" := (bind m (fun _ => k))
  (at level 90, right associativity).

(** [for x in l: body x]. *)
Fixpoint for_each {S A} (l : list A) (body : A -> M S unit) : M S unit :=
  match l with
  | [] => ret tt
  | x :: rest => body x >> for_each rest body
  end.

(** [l.remove(x)]: drops the first element equal to [x], [None] (a
    ValueError) when there is none. *)
Fixpoint list_remove {A} `{EqDecision A} (x : A) (l : list A) : option (list A) :=
  match l with
  | [] => None
  | y :: rest => if decide (x = y) then Some rest
                 else cons y <$> list_remove x rest
  end.

(** ** Circuit nodes *)

Section Circuit.
Context `{Collab : Collaborators}.

Record CircuitNode := {
  router : Router;
  handshake_type : TorHandshakeType;
  _key_agreement : option KeyAgreement;
  _crypto_state : option CryptoState;
  window : TorWindow
}.

(** [CircuitNode(router, handshake_type)]. *)
Definition new_node (r : Router) (ht : TorHandshakeType) : CircuitNode :=
  {| router := r; handshake_type := ht; _key_agreement := None;
     _crypto_state := None; window := new_window |}.

Definition set_key_agreement (n : CircuitNode) (ka : option KeyAgreement) : CircuitNode :=
  {| router := router n; handshake_type := handshake_type n; _key_agreement := ka;
     _crypto_state := _crypto_state n; window := window n |}.

Definition set_crypto_state (n : CircuitNode) (cs : option CryptoState) : CircuitNode :=
  {| router := router n; handshake_type := handshake_type n;
     _key_agreement := _key_agreement n; _crypto_state := cs; window := window n |}.

Definition set_window (n : CircuitNode) (w : TorWindow) : CircuitNode :=
  {| router := router n; handshake_type := handshake_type n;
     _key_agreement := _key_agreement n; _crypto_state := _crypto_state n; window := w |}.

Definition _get_key_agreement (r : Router) (ht : TorHandshakeType) : Res KeyAgreement :=
  match ht with
  | NTOR => Ret (NtorKeyAgreement r)
  | TAP => Ret (TapKeyAgreement r)
  | FAST => Raise (NotImplementedError "Unknown key agreement")
  end.

(** The [key_agreement] property: created on first use. *)
Definition key_agreement (n : CircuitNode) : Res (CircuitNode * KeyAgreement) :=
  match _key_agreement n with
  | Some ka => Ret (n, ka)
  | None =>
      match _get_key_agreement (router n) (handshake_type n) with
      | Ret ka => Ret (set_key_agreement n (Some ka), ka)
      | Raise e => Raise e
      end
  end.

Definition create_onion_skin (n : CircuitNode) : Res (CircuitNode * bytes) :=
  match key_agreement n with
  | Ret (n', ka) => Ret (n', ka_handshake ka)
  | Raise e => Raise e
  end.

Definition complete_handshake (n : CircuitNode) (handshake_data : bytes) : Res CircuitNode :=
  match key_agreement n with
  | Ret (n', ka) =>
      match ka_complete_handshake ka handshake_data with
      | Some shared_secret =>
          Ret (set_crypto_state n' (Some (new_crypto_state shared_secret)))
      | None => Raise HandshakeError
      end
  | Raise e => Raise e
  end.

(** [self._crypto_state.encrypt_forward(relay_cell)]; the cell is mutated
    in place, so the new cell is returned next to the new node. *)
Definition encrypt_forward (n : CircuitNode) (rc : RelayedTorCell)
  : Res (CircuitNode * RelayedTorCell) :=
  match _crypto_state n with
  | Some cs => let '(cs', rc') := cs_encrypt_forward cs rc in
               Ret (set_crypto_state n (Some cs'), rc')
  | None => Raise AttributeError
  end.

Definition decrypt_backward (n : CircuitNode) (rc : RelayedTorCell)
  : Res (CircuitNode * RelayedTorCell) :=
  match _crypto_state n with
  | Some cs => let '(cs', rc') := cs_decrypt_backward cs rc in
               Ret (set_crypto_state n (Some cs'), rc')
  | None => Raise AttributeError
  end.

(** ** Waiters, handlers, streams *)

Record Waiter := {
  _cell_types : CellTypes;
  _ev : bool;
  _read_cell : option Cell;
  _err_msg : option string
}.

Definition new_waiter (cell_types : CellTypes) : Waiter :=
  {| _cell_types := cell_types; _ev := false; _read_cell := None; _err_msg := None |}.

(** What the registry of a circuit holds: a [Waiter] object, named by its
    allocation index, or one of the bound methods subscribed by [create]. *)
Inductive Handler :=
| WaiterRef (w : nat)
| OnTruncated
| OnStreamEnd
| OnStream.

#[global] Instance Handler_eq_dec : EqDecision Handler.
Proof. solve_decision. Defined.

(** Modelled from the spec: the streams of [StreamsManager] (torpy.stream),
    "by_id(stream_id)", "close(stream)", "streams() enumerator", and a
    stream's "handle_cell(inner_cell)", which here records the cell. *)
Record TorStream := { received : list Cell }.

Definition stream_handle_cell (s : TorStream) (c : Cell) : TorStream :=
  {| received := received s ++ [c] |}.

Record HiddenService := {
  onion : string;
  hostname : string;
  rendezvous_cookie : bytes
}.

Inductive TorCircuitState := Unknown | Connected | Destroyed.

#[global] Instance TorCircuitState_eq_dec : EqDecision TorCircuitState.
Proof. solve_decision. Defined.

(** ** The circuit object *)

Record TorCircuit := {
  _id : Z;
  _router : Router;
  _sender : list WireCell;                    (* cells handed to the sender, oldest first *)
  _handlers : gmap CellType (list Handler);   (* self._handler_mgr._handlers *)
  waiters : list Waiter;                      (* the Waiter objects created so far *)
  _stream_manager : gmap Z TorStream;
  _circuit_nodes : option (list CircuitNode);
  _state : TorCircuitState;
  _guard : option nat;
  _associated_hs : option HiddenService;
  log : list LogRecord                        (* what was logged, oldest first *)
}.

(** [TorCircuit(id, router, sender, consensus, auth_data)]. *)
Definition new_circuit (id : Z) (r : Router) : TorCircuit :=
  {| _id := id; _router := r; _sender := []; _handlers := ∅; waiters := [];
     _stream_manager := ∅; _circuit_nodes := None; _state := Unknown;
     _guard := None; _associated_hs := None; log := [] |}.

Definition set_sender (v : list WireCell) (c : TorCircuit) : TorCircuit :=
  {| _id := _id c; _router := _router c; _sender := v; _handlers := _handlers c;
     waiters := waiters c; _stream_manager := _stream_manager c;
     _circuit_nodes := _circuit_nodes c; _state := _state c; _guard := _guard c;
     _associated_hs := _associated_hs c; log := log c |}.

Definition set_handlers (v : gmap CellType (list Handler)) (c : TorCircuit) : TorCircuit :=
  {| _id := _id c; _router := _router c; _sender := _sender c; _handlers := v;
     waiters := waiters c; _stream_manager := _stream_manager c;
     _circuit_nodes := _circuit_nodes c; _state := _state c; _guard := _guard c;
     _associated_hs := _associated_hs c; log := log c |}.

Definition set_waiters (v : list Waiter) (c : TorCircuit) : TorCircuit :=
  {| _id := _id c; _router := _router c; _sender := _sender c; _handlers := _handlers c;
     waiters := v; _stream_manager := _stream_manager c;
     _circuit_nodes := _circuit_nodes c; _state := _state c; _guard := _guard c;
     _associated_hs := _associated_hs c; log := log c |}.

Definition set_streams (v : gmap Z TorStream) (c : TorCircuit) : TorCircuit :=
  {| _id := _id c; _router := _router c; _sender := _sender c; _handlers := _handlers c;
     waiters := waiters c; _stream_manager := v;
     _circuit_nodes := _circuit_nodes c; _state := _state c; _guard := _guard c;
     _associated_hs := _associated_hs c; log := log c |}.

Definition set_nodes (v : option (list CircuitNode)) (c : TorCircuit) : TorCircuit :=
  {| _id := _id c; _router := _router c; _sender := _sender c; _handlers := _handlers c;
     waiters := waiters c; _stream_manager := _stream_manager c;
     _circuit_nodes := v; _state := _state c; _guard := _guard c;
     _associated_hs := _associated_hs c; log := log c |}.

Definition set_state (v : TorCircuitState) (c : TorCircuit) : TorCircuit :=
  {| _id := _id c; _router := _router c; _sender := _sender c; _handlers := _handlers c;
     waiters := waiters c; _stream_manager := _stream_manager c;
     _circuit_nodes := _circuit_nodes c; _state := v; _guard := _guard c;
     _associated_hs := _associated_hs c; log := log c |}.

Definition set_guard (v : option nat) (c : TorCircuit) : TorCircuit :=
  {| _id := _id c; _router := _router c; _sender := _sender c; _handlers := _handlers c;
     waiters := waiters c; _stream_manager := _stream_manager c;
     _circuit_nodes := _circuit_nodes c; _state := _state c; _guard := v;
     _associated_hs := _associated_hs c; log := log c |}.

Definition set_associated_hs (v : option HiddenService) (c : TorCircuit) : TorCircuit :=
  {| _id := _id c; _router := _router c; _sender := _sender c; _handlers := _handlers c;
     waiters := waiters c; _stream_manager := _stream_manager c;
     _circuit_nodes := _circuit_nodes c; _state := _state c; _guard := _guard c;
     _associated_hs := v; log := log c |}.

Definition set_log (v : list LogRecord) (c : TorCircuit) : TorCircuit :=
  {| _id := _id c; _router := _router c; _sender := _sender c; _handlers := _handlers c;
     waiters := waiters c; _stream_manager := _stream_manager c;
     _circuit_nodes := _circuit_nodes c; _state := _state c; _guard := _guard c;
     _associated_hs := _associated_hs c; log := v |}.

Local Abbreviation Circ := (M TorCircuit).

Definition logger (lvl : LogLevel) (msg : string) : Circ unit :=
  modify (fun c => set_log (log c ++ [(lvl, msg)]) c).

(** ** CellHandlerManager *)

Definition handlers_of (t : CellType) (c : TorCircuit) : list Handler :=
  default [] (_handlers c !! t).

Definition _subscribe_for_cell (t : CellType) (h : Handler) : Circ unit :=
  modify (fun c => set_handlers (<[t := handlers_of t c ++ [h]]> (_handlers c)) c).

Definition subscribe_for (cell_types : CellTypes) (h : Handler) : Circ unit :=
  match cell_types with
  | Many ts => for_each ts (fun t => _subscribe_for_cell t h)
  | One t => _subscribe_for_cell t h
  end.

(** [if handler in handlers: handlers.remove(handler)], on the list the
    registry holds. *)
Definition _unsubscribe_for_cell (t : CellType) (h : Handler) : Circ unit :=
  modify (fun c =>
    match list_remove h (handlers_of t c) with
    | Some l' => set_handlers (<[t := l']> (_handlers c)) c
    | None => c
    end).

Definition unsubscribe_for (cell_types : CellTypes) (h : Handler) : Circ unit :=
  match cell_types with
  | Many ts => for_each ts (fun t => _unsubscribe_for_cell t h)
  | One t => _unsubscribe_for_cell t h
  end.

(** [Waiter.handler]: store the cell and set the event.  A [WaiterRef]
    always names an allocated waiter; the other branch is unreachable. *)
Definition waiter_handler (w : nat) (cell : Cell) : Circ unit :=
  let* ws := gets waiters in
  match ws !! w with
  | Some wt =>
      modify (set_waiters (<[w := {| _cell_types := _cell_types wt; _ev := true;
                                     _read_cell := Some cell;
                                     _err_msg := _err_msg wt |}]> ws))
  | None => raise AttributeError
  end.

(** [handlers.remove(handler)] inside [handle]: the list is the one stored
    in the registry under [type(cell)]; ValueError when the handler is not
    in it. *)
Definition handlers_remove (t : CellType) (h : Handler) : Circ unit :=
  let* l := gets (handlers_of t) in
  match list_remove h l with
  | Some l' => modify (fun c => set_handlers (<[t := l']> (_handlers c)) c)
  | None => raise ValueError
  end.

(** ** Sending *)

Definition _send (cell : WireCell) : Circ unit :=
  modify (fun c => set_sender (_sender c ++ [cell]) c).

(** One pass of [for circuit_node in ns: op(circuit_node, relay_cell)],
    the nodes and the cell being mutated in place; stops at the first
    exception, keeping what was mutated before it. *)
Fixpoint crypt_loop (op : CircuitNode -> RelayedTorCell -> Res (CircuitNode * RelayedTorCell))
    (ns : list CircuitNode) (rc : RelayedTorCell)
  : list CircuitNode * RelayedTorCell * option Exn :=
  match ns with
  | [] => ([], rc, None)
  | n :: rest =>
      match op n rc with
      | Raise e => (n :: rest, rc, Some e)
      | Ret (n', rc') =>
          let '(rest', rc'', e) := crypt_loop op rest rc' in
          (n' :: rest', rc'', e)
      end
  end.

(** [self._circuit_nodes] where a list is needed: iterating or indexing
    [None] is a TypeError. *)
Definition circuit_nodes : Circ (list CircuitNode) :=
  let* ns := gets _circuit_nodes in
  match ns with
  | Some l => ret l
  | None => raise TypeError
  end.

Definition _encrypt (relay_cell : RelayedTorCell) : Circ RelayedTorCell :=
  assert_ (negb (is_encrypted relay_cell)) "" >>
  let* ns := circuit_nodes in
  let '(ns', rc', e) := crypt_loop encrypt_forward (rev ns) relay_cell in
  modify (set_nodes (Some (rev ns'))) >>
  match e with
  | None => ret rc'
  | Some e => raise e
  end.

Definition _send_relay (inner : Cell) (relay_type : option RelayType) (stream_id : Z)
  : Circ unit :=
  let rt := default OuterRelay relay_type in
  let* id := gets _id in
  let relay_cell := new_relay rt inner stream_id id in
  let* relay_cell := _encrypt relay_cell in
  _send (Relayed relay_cell).

(** ** Streams and teardown *)

(** Modelled from the spec: [StreamsManager.close(stream)], "each close
    emits RELAY_END via the stream's own path", after which the stream is
    no longer registered. *)
Definition close_stream (sid : Z) : Circ unit :=
  let* id := gets _id in
  _send_relay (RelayEnd id) None sid >>
  modify (fun c => set_streams (delete sid (_stream_manager c)) c).

Definition close_all_streams : Circ unit :=
  let* streams := gets (fun c => (map_to_list (_stream_manager c)).*1) in
  for_each streams close_stream.

Definition destroy (send_destroy : bool) : Circ unit :=
  let* st := gets _state in
  match st with
  | Connected =>
      close_all_streams >>
      (if send_destroy
       then let* id := gets _id in _send (Plain (Destroy FINISHED id))
       else ret tt)
  | Destroyed => logger DEBUG "#%x circuit has been destroyed already"
  | Unknown => let* id := gets _id in raise (Exception (NotYetConnected id))
  end >>
  modify (set_state Destroyed).

(** ** Handlers of inner relay cells *)

(** [from_node.window.<op>()]: [from_node] is the node object itself, here
    its position in [_circuit_nodes]. *)
Definition node_window (from_node : nat) : Circ TorWindow :=
  let* ns := circuit_nodes in
  match ns !! from_node with
  | Some n => ret (window n)
  | None => raise AttributeError
  end.

Definition set_node_window (from_node : nat) (w : TorWindow) : Circ unit :=
  let* ns := circuit_nodes in
  match ns !! from_node with
  | Some n => modify (set_nodes (Some (<[from_node := set_window n w]> ns)))
  | None => raise AttributeError
  end.

Definition _sendme_process (cell : Cell) (from_node : nat) (orig_cell : RelayedTorCell)
  : Circ bool :=
  let cell_type := type_of cell in
  if bool_decide (cell_type = CellRelaySendMe) && bool_decide (stream_id orig_cell = 0)
  then
    let* w := node_window from_node in
    set_node_window from_node (package_inc w) >>
    ret true
  else
    match cell with
    | RelayData _ circuit_id =>
        let* w := node_window from_node in
        set_node_window from_node (deliver_dec w) >>
        let* w := node_window from_node in
        let '(need, w') := need_sendme w in
        set_node_window from_node w' >>
        (if need then _send_relay (RelaySendMe circuit_id) None 0 else ret tt)
    | _ => ret tt
    end >>
    ret false.

Definition _on_stream (cell : Cell) (from_node : nat) (orig_cell : RelayedTorCell)
  : Circ unit :=
  let* done := _sendme_process cell from_node orig_cell in
  if done then ret tt
  else
    let* stream := gets (fun c => _stream_manager c !! stream_id orig_cell) in
    match stream with
    | None => logger WARNING "Stream #%i is already closed or was never opened"
    | Some s =>
        modify (fun c => set_streams (<[stream_id orig_cell := stream_handle_cell s cell]>
                                        (_stream_manager c)) c)
    end.

Definition _on_stream_end (cell : Cell) (from_node : nat) (orig_cell : RelayedTorCell)
  : Circ unit :=
  let* stream := gets (fun c => _stream_manager c !! stream_id orig_cell) in
  match stream with
  | Some _ => close_stream (stream_id orig_cell)
  | None => ret tt
  end.

(** Modelled from the spec: [TorGuard.destroy_circuit(circuit)]
    (torpy.guard), "ask the guard to tear down this circuit"; remote
    teardowns "mark the circuit Destroyed and cause the guard to remove
    it".  The guard's own registry is not part of the circuit. *)
Definition guard_destroy_circuit : Circ unit := destroy true.

Definition _on_truncated (cell : Cell) (from_node : nat) (orig_cell : RelayedTorCell)
  : Circ unit :=
  match cell with
  | RelayTruncated _ => logger ERROR "Circuit #%x was truncated by remote (%s)"
  | _ => raise AttributeError
  end >>
  let* g := gets _guard in
  match g with
  | Some _ => guard_destroy_circuit
  | None => raise AttributeError
  end.

(** ** Dispatch *)

(** One turn of the loop of [handle].  The persistent handlers are bound
    methods of three positional arguments, so calling them with fewer is a
    TypeError. *)
Definition call_handler (h : Handler) (cell : Cell) (from_node : option nat)
    (orig_cell : option RelayedTorCell) : Circ unit :=
  match h with
  | WaiterRef w =>
      waiter_handler w cell >>
      handlers_remove (type_of cell) (WaiterRef w)
  | _ =>
      match from_node, orig_cell with
      | Some fn, Some oc =>
          match h with
          | OnTruncated => _on_truncated cell fn oc
          | OnStreamEnd => _on_stream_end cell fn oc
          | _ => _on_stream cell fn oc
          end
      | _, _ => raise TypeError
      end
  end.

Definition handle (cell : Cell) (from_node : option nat) (orig_cell : option RelayedTorCell)
  : Circ unit :=
  let* handlers := gets (handlers_of (type_of cell)) in
  match handlers with
  | [] => logger ERROR "%s was received but no handlers for it"
  | _ => for_each handlers (fun h => call_handler h cell from_node orig_cell)
  end.

(** The loop of [_decrypt] from position [i] on: the nodes and the cell as
    mutated, the last node that decrypted, what was logged. *)
Fixpoint decrypt_loop (i : nat) (ns : list CircuitNode) (rc : RelayedTorCell)
    (from_node : option nat)
  : list CircuitNode * RelayedTorCell * option nat * list LogRecord * option Exn :=
  match ns with
  | [] => ([], rc, from_node, [], None)
  | n :: rest =>
      let dbg := (DEBUG, "Decrypting by [%i] %s...") in
      if negb (is_encrypted rc)
      then (n :: rest, rc, from_node, [dbg; (WARNING, "Decrypted earlier")], None)
      else
        match decrypt_backward n rc with
        | Raise e => (n :: rest, rc, from_node, [dbg], Some e)
        | Ret (n', rc') =>
            let '(rest', rc'', fn, logs, e) := decrypt_loop (S i) rest rc' (Some i) in
            (n' :: rest', rc'', fn, dbg :: logs, e)
        end
  end.

(** Returns [from_node], the inner cell, and the relay cell as the loop
    left it (Python mutates the argument). *)
Definition _decrypt (relay_cell : RelayedTorCell)
  : Circ (option nat * Cell * RelayedTorCell) :=
  assert_ (is_encrypted relay_cell) "" >>
  let* ns := circuit_nodes in
  let '(ns', rc', from_node, logs, e) := decrypt_loop 0 ns relay_cell None in
  modify (fun c => set_log (log c ++ logs) (set_nodes (Some ns') c)) >>
  match e with
  | Some e => raise e
  | None =>
      match get_decrypted rc' with
      | Some inner => ret (from_node, inner, rc')
      | None => raise GetDecryptedError
      end
  end.

Definition handle_cell (cell : Cell) : Circ unit := handle cell None None.

Definition handle_relay (cell : RelayedTorCell) : Circ unit :=
  let* (circuit_node, inner_cell, cell') := _decrypt cell in
  match circuit_node with
  | None => raise AttributeError
  | Some _ => logger DEBUG "Decrypted relay cell received from %s: %r"
  end >>
  handle inner_cell circuit_node (Some cell').

(** ** The receive thread and waiting *)

(** A cell the receive thread hands to this circuit: a plain cell
    ([handle_cell]) or an encrypted relay cell ([handle_relay]). *)
Inductive Inbound :=
| InCell (c : Cell)
| InRelay (rc : RelayedTorCell).

(** One turn of the loop of [TorReceiver._do_recv] for a cell of this
    circuit: whatever the handling raises is caught and logged there.  How
    the guard routes a cell to its circuit (torpy.guard) is not modelled. *)
Definition recv_dispatch (i : Inbound) : Circ unit :=
  logger DEBUG "Cell received: %r" >>
  try_except
    match i with
    | InCell c => handle_cell c
    | InRelay rc => handle_relay rc
    end
    (fun _ => logger ERROR "Some handle errors").

(** [Waiter.get]: [inbound] is what the receive thread dispatches before
    the wait ends; the event not being set by then is the timeout. *)
Definition waiter_get (w : nat) (inbound : list Inbound) : Circ (option Cell) :=
  for_each inbound recv_dispatch >>
  let* ws := gets waiters in
  match ws !! w with
  | None => raise AttributeError
  | Some wt =>
      if negb (_ev wt) then raise (CellTimeoutError (_cell_types wt))
      else
        match _err_msg wt with
        | Some (String a m) => raise (Exception (WaiterError (String a m)))
        | _ => ret (_read_cell wt)
        end
  end.

(** [with self.create_waiter(cell_types) as w: body].  The generator has no
    try/finally around its [yield]: an exception of the body is raised at
    the yield and leaves the generator there. *)
Definition create_waiter {A} (cell_types : CellTypes) (body : nat -> Circ A) : Circ A :=
  logger DEBUG "Create waiter for %r" >>
  let* w := gets (fun c => length (waiters c)) in
  modify (fun c => set_waiters (waiters c ++ [new_waiter cell_types]) c) >>
  subscribe_for cell_types (WaiterRef w) >>
  let* r := body w in
  unsubscribe_for cell_types (WaiterRef w) >>
  ret r.

Definition _send_wait (cell : WireCell) (wait_cell : CellTypes) (inbound : list Inbound)
  : Circ (option Cell) :=
  create_waiter wait_cell (fun w =>
    _send cell >>
    waiter_get w inbound).

Definition _send_relay_wait (inner : Cell) (wait_cells : CellTypes)
    (relay_type : option RelayType) (stream_id : Z) (inbound : list Inbound)
  : Circ (option Cell) :=
  create_waiter wait_cells (fun w =>
    _send_relay inner relay_type stream_id >>
    logger DEBUG "Getting response..." >>
    waiter_get w inbound).

(** ** Building the circuit *)

Definition _initialize (r : Router) (inbound : list Inbound) : Circ (list CircuitNode) :=
  logger INFO "Creating new circuit #%x with %s router..." >>
  let circuit_node := new_node r NTOR in
  let* (circuit_node, onion_skin) := lift (create_onion_skin circuit_node) in
  let* id := gets _id in
  let cell_create := Create2 (handshake_type circuit_node) onion_skin id in
  let* cell_created2 := _send_wait (Plain cell_create) (One CellCreated2) inbound in
  logger DEBUG "Verifying response..." >>
  match cell_created2 with
  | Some (Created2 handshake_data) =>
      let* circuit_node := lift (complete_handshake circuit_node handshake_data) in
      ret [circuit_node]
  | _ => raise AttributeError
  end.

Definition create (guard : nat) (inbound : list Inbound) : Circ unit :=
  let* st := gets _state in
  assert_ (bool_decide (st = Unknown)) "Circuit already connected" >>
  let* r := gets _router in
  let* ns := _initialize r inbound in
  modify (set_nodes (Some ns)) >>
  modify (set_state Connected) >>
  modify (set_guard (Some guard)) >>
  subscribe_for (One CellRelayTruncated) OnTruncated >>
  subscribe_for (One CellRelayEnd) OnStreamEnd >>
  subscribe_for (Many [CellRelayData; CellRelaySendMe; CellRelayConnected]) OnStream >>
  logger DEBUG "Circuit created".

(** The [check_connected] decorator. *)
Definition check_connected {A} (fn : Circ A) : Circ A :=
  let* st := gets _state in
  assert_ (bool_decide (st = Connected)) "Circuit must be connected first" >>
  fn.

Definition extend (next_onion_router : Router) (handshake_type : TorHandshakeType)
    (inbound : list Inbound) : Circ unit :=
  check_connected (
    logger INFO "Extending the circuit #%x with %s..." >>
    logger DEBUG "Sending Extend2..." >>
    let extend_node := new_node next_onion_router handshake_type in
    let* (extend_node, skin) := lift (create_onion_skin extend_node) in
    let inner_cell := RelayExtend2 (ip next_onion_router) (tor_port next_onion_router)
                        (fingerprint next_onion_router) skin in
    let* recv_cell := _send_relay_wait inner_cell
                        (Many [CellRelayExtended2; CellRelayTruncated])
                        (Some OuterRelayEarly) 0 inbound in
    match recv_cell with
    | Some (RelayTruncated reason) => raise (CircuitExtendError reason)
    | Some (RelayExtended2 handshake_data) =>
        logger DEBUG "Verifying response..." >>
        let* extend_node := lift (complete_handshake extend_node handshake_data) in
        let* ns := gets _circuit_nodes in
        match ns with
        | Some l => modify (set_nodes (Some (l ++ [extend_node])))
        | None => raise AttributeError
        end
    | _ => logger DEBUG "Verifying response..." >> raise AttributeError
    end).

(** ** Hidden services *)

Definition _rendezvous_establish (rendezvous_cookie : bytes) (inbound : list Inbound)
  : Circ unit :=
  assert_ (bool_decide (length rendezvous_cookie = 20%nat)) "" >>
  let* id := gets _id in
  let inner_cell := RelayEstablishRendezvous rendezvous_cookie id in
  _send_relay_wait inner_cell (One CellRelayRendezvousEstablished) None 0 inbound >>
  logger INFO "Rendezvous established (%r)".

(** What [HiddenServiceConnector] (torpy.hiddenservice) answers for one
    responsible directory: the outcome of [connect] for each introduction
    that [get_introductions] yields, and the exception that ends the
    enumeration, if one does. *)
Record ResponsibleDir := {
  introductions : list (Res CircuitNode);
  enumeration_error : option Exn
}.

(** The inner [for introduction in ...] loop; [true] when the function
    returned from inside it. *)
Fixpoint try_introductions (hidden_service : HiddenService) (l : list (Res CircuitNode))
  : Circ bool :=
  match l with
  | [] => ret false
  | connect :: rest =>
      let* ok :=
        try_except
          (let* extend_node := lift connect in
           let* ns := gets _circuit_nodes in
           match ns with
           | Some l => modify (set_nodes (Some (l ++ [extend_node])))
           | None => raise AttributeError
           end >>
           modify (set_associated_hs (Some hidden_service)) >>
           ret true)
          (fun _ => logger ERROR "Some errors" >> ret false) in
      if ok then ret true else try_introductions hidden_service rest
  end.

(** The outer loop; [ignore(..., exceptions=(DescriptorNotAvailable,))]
    swallows that exception only. *)
Fixpoint try_responsible_dirs (hidden_service : HiddenService) (dirs : list ResponsibleDir)
  : Circ bool :=
  match dirs with
  | [] => ret false
  | responsible_dir :: rest =>
      logger INFO "Iterate over introduction points of the hidden service" >>
      let* ok := try_introductions hidden_service (introductions responsible_dir) in
      if ok then ret true
      else
        match enumeration_error responsible_dir with
        | None | Some DescriptorNotAvailable => try_responsible_dirs hidden_service rest
        | Some e => raise e
        end
  end.

Definition extend_to_hidden (hidden_service : HiddenService) (inbound : list Inbound)
    (dirs : list ResponsibleDir) : Circ unit :=
  logger INFO "Extending #%x circuit for hidden service %s..." >>
  let* hs := gets _associated_hs in
  match hs with
  | Some associated =>
      if bool_decide (onion associated = onion hidden_service)
      then logger DEBUG "Circuit #%x already associated with %s"
      else raise (Exception MoreThanOneHiddenService)
  | None =>
      _rendezvous_establish (rendezvous_cookie hidden_service) inbound >>
      logger INFO "Iterate over responsible dirs of the hidden service" >>
      let* ok := try_responsible_dirs hidden_service dirs in
      if ok then ret tt else raise (Exception CantExtendToHidden)
  end.

(** ** The operations of a circuit, as one type *)

Inductive Op :=
| OpCreate (guard : nat) (inbound : list Inbound)
| OpDestroy (send_destroy : bool)
| OpExtend (r : Router) (ht : TorHandshakeType) (inbound : list Inbound)
| OpExtendToHidden (hs : HiddenService) (inbound : list Inbound) (dirs : list ResponsibleDir)
| OpCloseStream (sid : Z)
| OpCloseAllStreams
| OpHandleCell (c : Cell)
| OpHandleRelay (rc : RelayedTorCell)
| OpReceive (i : Inbound).

Definition run (op : Op) : Circ unit :=
  match op with
  | OpCreate guard inbound => create guard inbound
  | OpDestroy send_destroy => destroy send_destroy
  | OpExtend r ht inbound => extend r ht inbound
  | OpExtendToHidden hs inbound dirs => extend_to_hidden hs inbound dirs
  | OpCloseStream sid => close_stream sid
  | OpCloseAllStreams => close_all_streams
  | OpHandleCell c => handle_cell c
  | OpHandleRelay rc => handle_relay rc
  | OpReceive i => recv_dispatch i
  end.

(** The order Unknown, Connected, Destroyed. *)
Definition state_rank (s : TorCircuitState) : nat :=
  match s with Unknown => 0 | Connected => 1 | Destroyed => 2 end.

(** ** Building several hops *)

(** The [nodes_count] property: [len(self._circuit_nodes)]. *)
Definition nodes_count : Circ nat :=
  let* ns := circuit_nodes in
  ret (length ns).

(** What the surroundings answer during one turn of the loop of
    [build_hops]: the router [get_random_middle_node] or
    [get_random_exit_node] of the consensus would return, and what the
    receive thread dispatches while the [extend] of that turn waits. *)
Record HopChoice := {
  middle_node : Router;
  exit_node : Router;
  replies : list Inbound
}.

(** The [while] loop of [build_hops], one [HopChoice] per turn.  [None]
    says that the loop wanted another turn when the choices were used
    up. *)
Fixpoint build_hops_loop (hops_count : Z) (choices : list HopChoice) : Circ (option unit) :=
  let* count := nodes_count in
  if bool_decide (Z.of_nat count < hops_count)
  then
    match choices with
    | [] => ret None
    | choice :: rest =>
        let r := if bool_decide (Z.of_nat count = hops_count - 1)
                 then exit_node choice
                 else middle_node choice in
        extend r NTOR (replies choice) >>
        build_hops_loop hops_count rest
    end
  else ret (Some tt).

Definition build_hops (hops_count : Z) (choices : list HopChoice) : Circ (option unit) :=
  check_connected (
    logger INFO "Building %i hops circuit..." >>
    let* done := build_hops_loop hops_count choices in
    match done with
    | Some _ => logger DEBUG "Circuit has been built" >> ret (Some tt)
    | None => ret None
    end).

(** ** The other methods of [Waiter] *)

(** [Waiter.set_error]. *)
Definition waiter_set_error (w : nat) (err_msg : string) : Circ unit :=
  let* ws := gets waiters in
  match ws !! w with
  | Some wt =>
      modify (set_waiters (<[w := {| _cell_types := _cell_types wt; _ev := true;
                                     _read_cell := _read_cell wt;
                                     _err_msg := Some err_msg |}]> ws))
  | None => raise AttributeError
  end.

(** [Waiter.is_set]. *)
Definition waiter_is_set (w : nat) : Circ bool :=
  let* ws := gets waiters in
  match ws !! w with
  | Some wt => ret (_ev wt)
  | None => raise AttributeError
  end.

End Circuit.

Arguments TorCircuit : clear implicits.
Arguments CircuitNode : clear implicits.

(** ** CircuitsManager *)

Module CircuitsManager.
Section Manager.
Context `{Collab : Collaborators}.

(** [_get_next_circuit_id(msb)]: the class attribute GLOBAL_CIRCUIT_ID,
    shared by all managers, is passed in and returned next to the id.
    Python integers are unbounded, so nothing wraps. *)
Definition _get_next_circuit_id (msb : bool) (GLOBAL_CIRCUIT_ID : Z) : Z * Z :=
  let GLOBAL_CIRCUIT_ID := GLOBAL_CIRCUIT_ID + 1 in
  let circuit_id := GLOBAL_CIRCUIT_ID in
  (GLOBAL_CIRCUIT_ID, if msb then Z.lor circuit_id 0x80000000 else circuit_id).

(** A manager: the router it builds circuits to, and [_circuits_map]. *)
Record Manager := {
  _router : Router;
  _circuits_map : gmap Z (TorCircuit Collab)
}.

Definition new_manager (r : Router) : Manager :=
  {| _router := r; _circuits_map := ∅ |}.

(** [create_new]: the new counter, the manager, the new circuit. *)
Definition create_new (GLOBAL_CIRCUIT_ID : Z) (m : Manager)
  : Z * Manager * TorCircuit Collab :=
  let '(counter, circuit_id) := _get_next_circuit_id true GLOBAL_CIRCUIT_ID in
  let circuit := new_circuit circuit_id (_router m) in
  (counter,
   {| _router := _router m;
      _circuits_map := <[_id circuit := circuit]> (_circuits_map m) |},
   circuit).

(** [self._circuits_map.get(circuit_id, None)]. *)
Definition get_by_id (circuit_id : Z) (m : Manager) : option (TorCircuit Collab) :=
  _circuits_map m !! circuit_id.

(** [self._circuits_map.pop(circuit_id, None)]. *)
Definition remove (circuit_id : Z) (m : Manager) : Manager * option (TorCircuit Collab) :=
  ({| _router := _router m; _circuits_map := delete circuit_id (_circuits_map m) |},
   _circuits_map m !! circuit_id).

(** Every circuit id in the map came from a counter value up to
    [GLOBAL_CIRCUIT_ID], below the point where bit 31 is reached. *)
Definition issued (GLOBAL_CIRCUIT_ID : Z) (m : Manager) : Prop :=
  forall circuit_id, is_Some (_circuits_map m !! circuit_id) ->
    2 ^ 31 < circuit_id <= GLOBAL_CIRCUIT_ID + 2 ^ 31.

(** [n] calls of [create_new] in a row. *)
Fixpoint create_many (n : nat) (GLOBAL_CIRCUIT_ID : Z) (m : Manager) : Z * Manager :=
  match n with
  | O => (GLOBAL_CIRCUIT_ID, m)
  | S n => let '(counter, m', _) := create_new GLOBAL_CIRCUIT_ID m in
           create_many n counter m'
  end.

End Manager.
End CircuitsManager.

(** ** TorReceiver: registering sockets and streams *)

Module TorReceiver.

(** [selectors.EVENT_READ] and [selectors.EVENT_WRITE]. *)
Definition EVENT_READ : Z := 1.
Definition EVENT_WRITE : Z := 2.

(** [type(sock_or_stream)]: [socket.socket], [TorStream], or anything
    else. *)
Inductive Registrable :=
| Socket (fileno : Z)
| Stream (stream_id : Z)
| Unsupported.

(** The calls the receiver makes on its selector and on streams; the
    selector and [TorStream] are outside this module. *)
Inductive Call :=
| SelectorRegister (fileno events : Z) (callback : nat)
| SelectorUnregister (fileno : Z)
| StreamRegister (stream_id : Z) (callback : nat)
| StreamUnregister (stream_id : Z) (callback : nat).

Inductive Error :=
| UnknownObjectForRegister     (* Exception('Unknown object for register') *)
| UnknownObjectForUnregister   (* Exception('Unknown object for unregister') *)
| WriteEventNotSupported       (* Exception('Write event not supported yet') *)
| KeyError
| ValueError
| OSError.

Record Receiver := {
  _stream_to_callback : gmap Z (list nat);
  calls : list Call              (* oldest first *)
}.

Definition new_receiver : Receiver :=
  {| _stream_to_callback := ∅; calls := [] |}.

Definition call (c : Call) (r : Receiver) : Receiver :=
  {| _stream_to_callback := _stream_to_callback r; calls := calls r ++ [c] |}.

(** [self._selector], a [selectors.DefaultSelector] of the standard
    library: what its [register] and [unregister] answer after the calls
    made so far, [None] when they return and the exception when they
    raise.  [register] raises ValueError for an invalid event mask or
    file descriptor and KeyError for a file object that is registered
    already, [unregister] raises KeyError for one that is not; the
    system's own refusals are OSError. *)
Class Selector := {
  selector_register : list Call -> Z -> Z -> nat -> option Error;
  selector_unregister : list Call -> Z -> option Error
}.

(** [return self._selector.register(sock, events, callback)]: what the
    selector raises is raised. *)
Definition register_socket `{Selector} (fileno events : Z) (callback : nat) (r : Receiver)
  : Receiver * option Error :=
  (call (SelectorRegister fileno events callback) r,
   selector_register (calls r) fileno events callback).

Definition register_stream (stream events : Z) (callback : nat) (r : Receiver)
  : Receiver * option Error :=
  if bool_decide (Z.land events EVENT_WRITE <> 0)
  then (r, Some WriteEventNotSupported)
  else
    let r := call (StreamRegister stream callback) r in
    let callbacks := default [] (_stream_to_callback r !! stream) in
    ({| _stream_to_callback := <[stream := callbacks ++ [callback]]> (_stream_to_callback r);
        calls := calls r |}, None).

Definition register `{Selector} (sock_or_stream : Registrable) (events : Z) (callback : nat)
    (r : Receiver) : Receiver * option Error :=
  match sock_or_stream with
  | Socket fileno => register_socket fileno events callback r
  | Stream stream => register_stream stream events callback r
  | Unsupported => (r, Some UnknownObjectForRegister)
  end.

Definition unregister_socket `{Selector} (fileno : Z) (r : Receiver)
  : Receiver * option Error :=
  (call (SelectorUnregister fileno) r, selector_unregister (calls r) fileno).

(** [callbacks = self._stream_to_callback.pop(stream)], a KeyError when
    the stream is not a key, then [stream.unregister] for each. *)
Definition unregister_stream (stream : Z) (r : Receiver) : Receiver * option Error :=
  match _stream_to_callback r !! stream with
  | None => (r, Some KeyError)
  | Some callbacks =>
      ({| _stream_to_callback := delete stream (_stream_to_callback r);
          calls := calls r ++ map (StreamUnregister stream) callbacks |}, None)
  end.

Definition unregister `{Selector} (sock_or_stream : Registrable) (r : Receiver)
  : Receiver * option Error :=
  match sock_or_stream with
  | Socket fileno => unregister_socket fileno r
  | Stream stream => unregister_stream stream r
  | Unsupported => (r, Some UnknownObjectForUnregister)
  end.

(** The callbacks registered for a stream, in registration order. *)
Definition callbacks_of (stream : Z) (r : Receiver) : list nat :=
  default [] (_stream_to_callback r !! stream).

(** [register(stream, events, callback)] for each callback of a list, in
    order, going on after an error as a caller that catches it would. *)
Definition register_all `{Selector} (stream events : Z) (callbacks : list nat) (r : Receiver)
  : Receiver :=
  foldl (fun r callback => (register (Stream stream) events callback r).1) r callbacks.

End TorReceiver.

(** ** A reference instance of the collaborators

    A layered cipher small enough to run: encrypting pushes the hop's key
    byte on the payload, decrypting pops it when it matches, and a cell is
    recognised when no layer is left.  [strict] chooses whether
    [get_decrypted] refuses a cell that is still encrypted. *)

Record LayerCipher := {
  layer_key : Byte.byte;
  forward_cells : nat;
  backward_cells : nat
}.

Definition layer_encrypt (cs : LayerCipher) (rc : RelayedTorCell)
  : LayerCipher * RelayedTorCell :=
  ({| layer_key := layer_key cs; forward_cells := S (forward_cells cs);
      backward_cells := backward_cells cs |},
   {| relay_type := relay_type rc; inner_cell := inner_cell rc;
      stream_id := stream_id rc; rcircuit_id := rcircuit_id rc;
      payload := layer_key cs :: payload rc; is_encrypted := true |}).

Definition layer_decrypt (cs : LayerCipher) (rc : RelayedTorCell)
  : LayerCipher * RelayedTorCell :=
  ({| layer_key := layer_key cs; forward_cells := forward_cells cs;
      backward_cells := S (backward_cells cs) |},
   match payload rc with
   | k :: rest =>
       if Byte.eqb k (layer_key cs)
       then {| relay_type := relay_type rc; inner_cell := inner_cell rc;
               stream_id := stream_id rc; rcircuit_id := rcircuit_id rc;
               payload := rest;
               is_encrypted := match rest with [] => false | _ => true end |}
       else rc
   | [] => rc
   end).

Definition layered (strict : bool) : Collaborators :=
  {| KeyAgreement := Router;
     CryptoState := LayerCipher;
     NtorKeyAgreement r := r;
     TapKeyAgreement r := r;
     ka_handshake r := fingerprint r;
     ka_complete_handshake r handshake_data :=
       match handshake_data with [] => None | _ => Some handshake_data end;
     new_crypto_state secret :=
       {| layer_key := hd Byte.x00 secret; forward_cells := 0; backward_cells := 0 |};
     cs_encrypt_forward := layer_encrypt;
     cs_decrypt_backward := layer_decrypt;
     get_decrypted rc :=
       if strict && is_encrypted rc then None else inner_cell rc |}.

(** A cell as it arrives from the link: [inner] wrapped in the layers
    [layers], outermost first. *)
Definition from_link (inner : Cell) (sid cid : Z) (layers : bytes) : RelayedTorCell :=
  {| relay_type := OuterRelay; inner_cell := Some inner; stream_id := sid;
     rcircuit_id := cid; payload := layers; is_encrypted := true |}.

Module Sample.
Import Byte.

Definition guard_router : Router :=
  {| nickname := "guard"; ip := "10.0.0.1"; tor_port := 9001; fingerprint := [x01] |}.
Definition middle_router : Router :=
  {| nickname := "middle"; ip := "10.0.0.2"; tor_port := 9001; fingerprint := [x02] |}.
Definition exit_router : Router :=
  {| nickname := "exit"; ip := "10.0.0.3"; tor_port := 9001; fingerprint := [x03] |}.

Definition cid : Z := 0x80000001.

(** [create] answered by CREATED2, then two [extend]s answered by
    EXTENDED2 from the then-last hop. *)
Definition one_hop (strict : bool) : TorCircuit (layered strict) :=
  (create 7 [InCell (Created2 [x11])] (new_circuit cid guard_router)).1.

Definition two_hops (strict : bool) : TorCircuit (layered strict) :=
  (extend middle_router NTOR
     [InRelay (from_link (RelayExtended2 [x22]) 0 cid [x11])] (one_hop strict)).1.

Definition three_hops (strict : bool) : TorCircuit (layered strict) :=
  (extend exit_router NTOR
     [InRelay (from_link (RelayExtended2 [x33]) 0 cid [x11; x22])] (two_hops strict)).1.

(** The same circuit with stream 5 open. *)
Definition with_stream (strict : bool) : TorCircuit (layered strict) :=
  set_streams {[ 5 := {| received := [] |} ]} (three_hops strict).

(** Its three nodes. *)
Definition sample_nodes (strict : bool) : list (CircuitNode (layered strict)) :=
  default [] (_circuit_nodes (three_hops strict)).

(** The exit node. *)
Definition sample_exit (strict : bool) : CircuitNode (layered strict) :=
  default (new_node exit_router NTOR) (sample_nodes strict !! 2%nat).

(** The three-hop circuit inside a [with create_waiter([EXTENDED2,
    TRUNCATED]) as w] block: waiter 3 is allocated and subscribed. *)
Definition inside_waiter_scope (strict : bool) : TorCircuit (layered strict) :=
  let ts := Many [CellRelayExtended2; CellRelayTruncated] in
  let c := three_hops strict in
  (subscribe_for ts (WaiterRef 3) (set_waiters (waiters c ++ [new_waiter ts]) c)).1.

(** A data cell for stream 5 as the exit sends it. *)
Definition data_from_exit : RelayedTorCell :=
  from_link (RelayData [x2a] cid) 5 cid [x11; x22; x33].

(** The reply of the second hop that refuses an extend. *)
Definition truncated_from_middle : RelayedTorCell :=
  from_link (RelayTruncated RESOURCELIMIT) 0 cid [x11; x22].

(** The circuit as the manager makes it, before [create]. *)
Definition fresh (strict : bool) : TorCircuit (layered strict) :=
  new_circuit cid guard_router.

(** The node of the one-hop circuit. *)
Definition one_hop_nodes (strict : bool) : list (CircuitNode (layered strict)) :=
  default [] (_circuit_nodes (one_hop strict)).

(** Two turns of [build_hops]: the consensus offers the middle and the
    exit router, and the then-last hop answers EXTENDED2. *)
Definition sample_choices : list HopChoice :=
  [ {| middle_node := middle_router; exit_node := exit_router;
       replies := [InRelay (from_link (RelayExtended2 [x22]) 0 cid [x11])] |};
    {| middle_node := middle_router; exit_node := exit_router;
       replies := [InRelay (from_link (RelayExtended2 [x33]) 0 cid [x11; x22])] |} ].

(** A hidden service, the acknowledgement of its rendezvous point, and
    two responsible directories: the descriptor of the first is not
    available, the second has an introduction point that fails and one
    that connects. *)
Definition sample_service : HiddenService :=
  {| onion := "abcdefghijklmnop"; hostname := "abcdefghijklmnop.onion";
     rendezvous_cookie := replicate 20 x07 |}.

Definition rendezvous_established : RelayedTorCell :=
  from_link RelayRendezvousEstablished 0 cid [x11; x22; x33].

Definition sample_dirs (strict : bool) : list (ResponsibleDir (Collab := layered strict)) :=
  [ {| introductions := [Raise HandshakeError];
       enumeration_error := Some DescriptorNotAvailable |};
    {| introductions := [Raise ValueError; Ret (sample_exit strict)];
       enumeration_error := None |} ].

(** The node and the onion skin [create_onion_skin] gives for a router. *)
Definition skinned (strict : bool) (r : Router) : CircuitNode (layered strict) * bytes :=
  match create_onion_skin (new_node r NTOR) with
  | Ret p => p
  | Raise _ => (new_node r NTOR, [])
  end.

(** A manager that has made no circuit yet. *)
Definition sample_manager (strict : bool) : CircuitsManager.Manager (Collab := layered strict) :=
  CircuitsManager.new_manager guard_router.

(** A selector by the rules of [selectors.BaseSelector]: an event mask is
    valid when it is not empty and has no bit besides EVENT_READ and
    EVENT_WRITE, a file descriptor when it is not negative; the file
    descriptors held are those registered with a valid mask and not
    unregistered since. *)
Definition valid_events (events : Z) : bool :=
  negb (events =? 0) && (Z.land events (Z.lnot 3) =? 0).

Definition selector_step (fds : gset Z) (c : TorReceiver.Call) : gset Z :=
  match c with
  | TorReceiver.SelectorRegister fileno events _ =>
      if valid_events events && (0 <=? fileno) then {[fileno]} ∪ fds else fds
  | TorReceiver.SelectorUnregister fileno => fds ∖ {[fileno]}
  | _ => fds
  end.

Definition registered (cs : list TorReceiver.Call) : gset Z := foldl selector_step ∅ cs.

#[export] Instance base_selector : TorReceiver.Selector := {|
  TorReceiver.selector_register cs fileno events _ :=
    if negb (valid_events events && (0 <=? fileno)) then Some TorReceiver.ValueError
    else if bool_decide (fileno ∈ registered cs) then Some TorReceiver.KeyError
    else None;
  TorReceiver.selector_unregister cs fileno :=
    if bool_decide (fileno ∈ registered cs) then None else Some TorReceiver.KeyError
|}.
End Sample.

(** ** Vocabulary of the statements *)

Section Vocabulary.
Context `{Collab : Collaborators}.

(** [m] moves every circuit to an [R]-related one, whether it returns or
    raises. *)
Definition respects (R : relation (TorCircuit Collab)) {A}
    (m : M (TorCircuit Collab) A) : Prop :=
  forall c, R c (m c).1.

(** The attribute [f] is left as it was. *)
Definition same {B} (f : TorCircuit Collab -> B) : relation (TorCircuit Collab) :=
  fun c c' => f c' = f c.

(** The state is left as it was, or went from Connected or Destroyed to
    Destroyed. *)
Definition forward : relation (TorCircuit Collab) :=
  fun c c' => _state c' = _state c \/ (_state c <> Unknown /\ _state c' = Destroyed).

(** The routers of the hops, in order. *)
Definition routers (c : TorCircuit Collab) : option (list Router) :=
  map router <$> _circuit_nodes c.

(** Three footprints, from small to large.  [quiet]: only the sender
    trace, the streams, the log and the nodes' cipher states and windows
    may change.  [calm]: the state may also move forward.  [steady]: the
    registry and the waiters may change too. *)
Definition quiet : relation (TorCircuit Collab) :=
  fun c c' => same _id c c' /\ same _handlers c c' /\ same waiters c c' /\
    same _state c c' /\ same _guard c c' /\ same _associated_hs c c' /\
    same routers c c'.

Definition calm : relation (TorCircuit Collab) :=
  fun c c' => same _id c c' /\ same _handlers c c' /\ same waiters c c' /\
    forward c c' /\ same _guard c c' /\ same _associated_hs c c' /\
    same routers c c'.

Definition steady : relation (TorCircuit Collab) :=
  fun c c' => same _id c c' /\ forward c c' /\ same _guard c c' /\
    same _associated_hs c c' /\ same routers c c'.

(** The node has completed its handshake. *)
Definition keyed (n : CircuitNode Collab) : Prop := is_Some (_crypto_state n).

(** [encrypt_forward(n, cell)] and [decrypt_backward(n, cell)] of the
    spec, as functions of the cell. *)
Definition enc (n : CircuitNode Collab) (rc : RelayedTorCell) : RelayedTorCell :=
  match encrypt_forward n rc with
  | Ret (_, rc') => rc'
  | Raise _ => rc
  end.

Definition dec (n : CircuitNode Collab) (rc : RelayedTorCell) : RelayedTorCell :=
  match decrypt_backward n rc with
  | Ret (_, rc') => rc'
  | Raise _ => rc
  end.

(** The spec's nesting [encrypt_forward(n1, encrypt_forward(n2, ...
    encrypt_forward(nk, c)...))]. *)
Definition nest (ns : list (CircuitNode Collab)) (rc : RelayedTorCell) : RelayedTorCell :=
  foldr enc rc ns.

(** Decryption by [n1], then [n2], ... *)
Definition peel (ns : list (CircuitNode Collab)) (rc : RelayedTorCell) : RelayedTorCell :=
  foldl (fun rc n => dec n rc) rc ns.

(** The node as [encrypt_forward] and [decrypt_backward] leave it. *)
Definition enc_node (n : CircuitNode Collab) (rc : RelayedTorCell) : CircuitNode Collab :=
  match encrypt_forward n rc with
  | Ret (n', _) => n'
  | Raise _ => n
  end.

Definition dec_node (n : CircuitNode Collab) (rc : RelayedTorCell) : CircuitNode Collab :=
  match decrypt_backward n rc with
  | Ret (n', _) => n'
  | Raise _ => n
  end.

(** The nodes after the nesting: each has encrypted the cell as the nodes
    behind it left it. *)
Fixpoint nest_nodes (ns : list (CircuitNode Collab)) (rc : RelayedTorCell)
  : list (CircuitNode Collab) :=
  match ns with
  | [] => []
  | n :: rest => enc_node n (nest rest rc) :: nest_nodes rest rc
  end.

(** The nodes after peeling: each has decrypted the cell as the nodes
    before it left it. *)
Fixpoint peel_nodes (ns : list (CircuitNode Collab)) (rc : RelayedTorCell)
  : list (CircuitNode Collab) :=
  match ns with
  | [] => []
  | n :: rest => dec_node n rc :: peel_nodes rest (dec n rc)
  end.

Definition decrypting : LogRecord := (DEBUG, "Decrypting by [%i] %s...").
Definition decrypted_earlier : LogRecord := (WARNING, "Decrypted earlier").
Definition decrypted_from : LogRecord :=
  (DEBUG, "Decrypted relay cell received from %s: %r").

(** The records of level WARNING in a log. *)
Definition warnings (l : list LogRecord) : list LogRecord :=
  filter (fun r => r.1 = WARNING) l.

Definition is_waiter (h : Handler) : bool :=
  match h with WaiterRef _ => true | _ => false end.

(** A sequence of operations, each started where the previous one left
    the circuit, whether it returned or raised. *)
Fixpoint run_all (ops : list Op) (c : TorCircuit Collab) : TorCircuit Collab :=
  match ops with
  | [] => c
  | op :: rest => run_all rest (run op c).1
  end.

(** Only the registry may change. *)
Definition registry_only : relation (TorCircuit Collab) :=
  fun c c' => same waiters c c' /\ same _state c c' /\ same _circuit_nodes c c'.

(** [P], once true, stays true. *)
Definition keeps (P : TorCircuit Collab -> Prop) : relation (TorCircuit Collab) :=
  fun c c' => P c -> P c'.

(** The situation of a caller blocked on the waiter [w] of a created
    circuit: [_on_truncated] is the first handler of RELAY_TRUNCATED, as
    [create] subscribed it; nobody has set an error on the waiter; and if
    the waiter holds a RELAY_TRUNCATED cell, the circuit has been
    destroyed. *)
Definition awaiting (w : nat) (c : TorCircuit Collab) : Prop :=
  head (handlers_of CellRelayTruncated c) = Some OnTruncated
  /\ exists wt, waiters c !! w = Some wt /\ _err_msg wt = None
       /\ forall reason, _read_cell wt = Some (RelayTruncated reason) -> _state c = Destroyed.

(** While a RELAY_TRUNCATED cell is being dispatched, past its first
    handler: the circuit has been destroyed. *)
Definition torn (cell : Cell) (c : TorCircuit Collab) : Prop :=
  type_of cell = CellRelayTruncated -> _state c = Destroyed.

(** The waiter [w] has been handed [cell]. *)
Definition completed (w : nat) (cell : Cell) (c : TorCircuit Collab) : Prop :=
  exists wt, waiters c !! w = Some wt /\ _ev wt = true /\ _read_cell wt = Some cell.

(** The handlers of a list that are not waiters. *)
Definition persistent (l : list Handler) : list Handler :=
  filter (fun h => is_waiter h = false) l.

(** The window of the node at position [i]. *)
Definition window_at (c : TorCircuit Collab) (i : nat) : option TorWindow :=
  window <$> (default [] (_circuit_nodes c) !! i).

(** The deliver counter is in the range the SENDME scheme keeps it in. *)
Definition deliver_in_range (w : TorWindow) : Prop :=
  window_start - window_increment < deliver w <= window_start.

Definition already_destroyed : LogRecord :=
  (DEBUG, "#%x circuit has been destroyed already").

(** The two records of the receive loop. *)
Definition cell_received : LogRecord := (DEBUG, "Cell received: %r").
Definition handle_errors : LogRecord := (ERROR, "Some handle errors").

(** Modelled from the spec: [RelayedTorCell.get_decrypted] (torpy.cells)
    on a cell that is still encrypted, "if no node recognises the cell, it
    is dropped": it raises instead of handing out an inner cell. *)
Definition refuses_encrypted : Prop :=
  forall rc, is_encrypted rc = true -> get_decrypted rc = None.

(** The node [extend] makes for a router: it holds the key agreement that
    gave the onion skin and the crypto state made from the shared secret
    that key agreement computed. *)
Definition extended_node (r : Router) (ht : TorHandshakeType)
    (ka : KeyAgreement) (shared_secret : bytes) : CircuitNode Collab :=
  set_crypto_state (set_key_agreement (new_node r ht) (Some ka))
    (Some (new_crypto_state shared_secret)).

Definition unknown_stream : LogRecord :=
  (WARNING, "Stream #%i is already closed or was never opened").

(** *** For the properties beyond the claims *)

(** The state moved forward, and the nodes are those before, in order,
    followed by new ones. *)
Definition grows : relation (TorCircuit Collab) :=
  fun c c' => forward c c'
    /\ exists extra, routers c' = (fun l => l ++ extra) <$> routers c.

(** A circuit has no nodes while its state is Unknown, and at least one
    from then on. *)
Definition shaped (c : TorCircuit Collab) : Prop :=
  match _state c with
  | Unknown => _circuit_nodes c = None
  | _ => exists n ns, _circuit_nodes c = Some (n :: ns)
  end.

(** Every node has completed its handshake. *)
Definition well_keyed (c : TorCircuit Collab) : Prop :=
  forall ns, _circuit_nodes c = Some ns -> Forall keyed ns.

(** The operations of [Op], and [build_hops] and [Waiter.set_error]. *)
Inductive Action :=
| Basic (op : Op)
| BuildHops (hops_count : Z) (choices : list HopChoice)
| SetError (w : nat) (err_msg : string).

Definition act (a : Action) (c : TorCircuit Collab) : TorCircuit Collab :=
  match a with
  | Basic op => (run op c).1
  | BuildHops hops_count choices => (build_hops hops_count choices c).1
  | SetError w err_msg => (waiter_set_error w err_msg c).1
  end.

Definition act_all (l : list Action) (c : TorCircuit Collab) : TorCircuit Collab :=
  foldl (fun c a => act a c) c l.

(** How many times [h] is in a list, and how many of the registrations
    for the cell type [t] are [h]. *)
Definition count {A} `{EqDecision A} (h : A) (l : list A) : nat :=
  length (filter (fun k => k = h) l).

Definition registrations (h : Handler) (t : CellType) (c : TorCircuit Collab) : nat :=
  count h (handlers_of t c).

(** No handler list holds more registrations of [h] than before. *)
Definition no_more (h : Handler) : relation (TorCircuit Collab) :=
  fun c c' => forall t, (registrations h t c' <= registrations h t c)%nat.

(** [h] is registered for no cell type. *)
Definition unregistered (h : Handler) (c : TorCircuit Collab) : Prop :=
  forall t, h ∉ handlers_of t c.

(** Every waiter the registry holds is one that [create_waiter] made. *)
Definition allocated (c : TorCircuit Collab) : Prop :=
  forall t w, WaiterRef w ∈ handlers_of t c -> (w < length (waiters c))%nat.

(** [set_error(err_msg)] has been called on the waiter [w], last with
    [err_msg]. *)
Definition errored (w : nat) (err_msg : string) (c : TorCircuit Collab) : Prop :=
  exists wt, waiters c !! w = Some wt /\ _ev wt = true /\ _err_msg wt = Some err_msg.

(** The state has at most moved forward and the guard is as it was. *)
Definition settled : relation (TorCircuit Collab) :=
  fun c c' => forward c c' /\ _guard c' = _guard c.

(** Nothing is registered for RELAY_TRUNCATED; [_on_truncated] is the
    first handler registered for it. *)
Definition no_truncated_handler (c : TorCircuit Collab) : Prop :=
  handlers_of CellRelayTruncated c = [].

Definition on_truncated_first (c : TorCircuit Collab) : Prop :=
  head (handlers_of CellRelayTruncated c) = Some OnTruncated.

(** A circuit that has not been created has no handler for
    RELAY_TRUNCATED; one that has been created knows its guard and calls
    [_on_truncated] first for RELAY_TRUNCATED. *)
Definition ready (c : TorCircuit Collab) : Prop :=
  match _state c with
  | Unknown => no_truncated_handler c
  | _ => on_truncated_first c /\ is_Some (_guard c)
  end.

(** The cells handed to the sender so far are still there, in order, with
    possibly more after them. *)
Definition sent_more : relation (TorCircuit Collab) :=
  fun c c' => exists more, _sender c' = _sender c ++ more.

(** The RELAY_END cells for the streams [sids] of the circuit [circuit_id],
    as they are handed to the sender one after the other: each is
    encrypted by every node of the circuit, the nodes being as the cells
    before it left them. *)
Fixpoint relay_ends (circuit_id : Z) (ns : list (CircuitNode Collab)) (sids : list Z)
  : list WireCell :=
  match sids with
  | [] => []
  | sid :: rest =>
      let rc := new_relay OuterRelay (RelayEnd circuit_id) sid circuit_id in
      Relayed (nest ns rc) :: relay_ends circuit_id (nest_nodes ns rc) rest
  end.

(** The cell types of [cell_types], a class or a list of classes. *)
Definition types_of (cell_types : CellTypes) : list CellType :=
  match cell_types with
  | One t => [t]
  | Many ts => ts
  end.

(** The search of [extend_to_hidden] said in one piece: the first
    introduction point that connects, the directories taken in order and
    the introduction points of each in order; a directory whose
    enumeration ends in DescriptorNotAvailable is passed over, one whose
    enumeration ends in another exception ends the search with it. *)
Fixpoint first_connected (l : list (Res (CircuitNode Collab))) : option (CircuitNode Collab) :=
  match l with
  | [] => None
  | Ret node :: _ => Some node
  | Raise _ :: rest => first_connected rest
  end.

Fixpoint search_introduction (dirs : list (ResponsibleDir (Collab := Collab)))
  : Res (option (CircuitNode Collab)) :=
  match dirs with
  | [] => Ret None
  | d :: rest =>
      match first_connected (introductions d) with
      | Some node => Ret (Some node)
      | None =>
          match enumeration_error d with
          | None | Some DescriptorNotAvailable => search_introduction rest
          | Some e => Raise e
          end
      end
  end.

(** The nodes an operation is handed from outside are keyed. *)
Definition keyed_op (op : Op) : Prop :=
  match op with
  | OpExtendToHidden _ _ dirs =>
      Forall (fun d => Forall (fun r => match r with Ret n => keyed n | Raise _ => True end)
                         (introductions d)) dirs
  | _ => True
  end.

Definition keyed_action (a : Action) : Prop :=
  match a with
  | Basic op => keyed_op op
  | _ => True
  end.

End Vocabulary.

(** * Proofs *)

Section Proofs.
Context `{Collab : Collaborators}.
Context `{Sel : TorReceiver.Selector}.
Local Abbreviation Circuit := (TorCircuit Collab).
Local Abbreviation Circ := (M (TorCircuit Collab)).

(** The operations are unfolded where a proof says so, not by [cbn]. *)
#[local] Arguments _subscribe_for_cell : simpl never.
#[local] Arguments subscribe_for : simpl never.
#[local] Arguments _unsubscribe_for_cell : simpl never.
#[local] Arguments unsubscribe_for : simpl never.
#[local] Arguments waiter_handler : simpl never.
#[local] Arguments handlers_remove : simpl never.
#[local] Arguments circuit_nodes : simpl never.
#[local] Arguments _encrypt : simpl never.
#[local] Arguments _send_relay : simpl never.
#[local] Arguments close_stream : simpl never.
#[local] Arguments close_all_streams : simpl never.
#[local] Arguments destroy : simpl never.
#[local] Arguments node_window : simpl never.
#[local] Arguments set_node_window : simpl never.
#[local] Arguments _sendme_process : simpl never.
#[local] Arguments _on_stream : simpl never.
#[local] Arguments _on_stream_end : simpl never.
#[local] Arguments guard_destroy_circuit : simpl never.
#[local] Arguments _on_truncated : simpl never.
#[local] Arguments call_handler : simpl never.
#[local] Arguments handle : simpl never.
#[local] Arguments _decrypt : simpl never.
#[local] Arguments handle_cell : simpl never.
#[local] Arguments handle_relay : simpl never.
#[local] Arguments recv_dispatch : simpl never.
#[local] Arguments waiter_get : simpl never.
#[local] Arguments create_waiter : simpl never.
#[local] Arguments _send_wait : simpl never.
#[local] Arguments _send_relay_wait : simpl never.
#[local] Arguments _initialize : simpl never.
#[local] Arguments create : simpl never.
#[local] Arguments check_connected : simpl never.
#[local] Arguments build_hops : simpl never.
#[local] Arguments waiter_set_error : simpl never.
#[local] Arguments nodes_count : simpl never.
#[local] Arguments extend : simpl never.
#[local] Arguments _rendezvous_establish : simpl never.
#[local] Arguments extend_to_hidden : simpl never.

(** ** Rules for [respects] *)

Section Rules.
Variable R : relation Circuit.
Context `{!PreOrder R}.

Lemma respects_ret {A} (a : A) : respects R (ret a).
Proof. intros c. reflexivity. Qed.

Lemma respects_raise {A} (e : Exn) : respects R (@raise _ A e).
Proof. intros c. reflexivity. Qed.

Lemma respects_gets {A} (f : Circuit -> A) : respects R (gets f).
Proof. intros c. reflexivity. Qed.

Lemma respects_lift {A} (r : Res A) : respects R (lift r).
Proof. intros c. reflexivity. Qed.

Lemma respects_assert (b : bool) (msg : string) : respects R (assert_ b msg).
Proof. intros c. destruct b; reflexivity. Qed.

Lemma respects_modify (f : Circuit -> Circuit) :
  (forall c, R c (f c)) -> respects R (modify f).
Proof. intros H c. apply H. Qed.

Lemma respects_bind {A B} (m : Circ A) (k : A -> Circ B) :
  respects R m -> (forall a, respects R (k a)) -> respects R (bind m k).
Proof.
  intros Hm Hk c. unfold bind. specialize (Hm c).
  destruct (m c) as [c1 [a|e]]; cbn in *; [|done].
  etrans; [exact Hm | apply Hk].
Qed.

Lemma respects_try_except {A} (m : Circ A) (h : Exn -> Circ A) :
  respects R m -> (forall e, respects R (h e)) -> respects R (try_except m h).
Proof.
  intros Hm Hh c. unfold try_except. specialize (Hm c).
  destruct (m c) as [c1 [a|e]]; cbn in *; [done|].
  etrans; [exact Hm | apply Hh].
Qed.

Lemma respects_for_each {A} (l : list A) (body : A -> Circ unit) :
  (forall x, respects R (body x)) -> respects R (for_each l body).
Proof.
  intros Hb. induction l as [|x l IH]; cbn.
  - apply respects_ret.
  - apply respects_bind; auto.
Qed.
End Rules.

(** Takes a goal [respects R m] apart along the structure of [m]; what is
    left are the primitive updates and the operations it does not know. *)
Ltac respects_rule lem :=
  apply lem; try lazymatch goal with |- PreOrder _ => tc_solve end.

Ltac respects_step :=
  lazymatch goal with
  | |- respects _ (bind _ _) => respects_rule respects_bind; [|intros ?]
  | |- respects _ (ret _) => respects_rule respects_ret
  | |- respects _ (raise _) => respects_rule respects_raise
  | |- respects _ (gets _) => respects_rule respects_gets
  | |- respects _ (lift _) => respects_rule respects_lift
  | |- respects _ (assert_ _ _) => respects_rule respects_assert
  | |- respects _ (modify _) => respects_rule respects_modify; intros ?
  | |- respects _ (try_except _ _) => respects_rule respects_try_except; [|intros ?]
  | |- respects _ (for_each _ _) => respects_rule respects_for_each; intros ?
  | |- respects _ (match ?x with _ => _ end) => destruct x
  | |- respects _ (let (_, _) := ?x in _) => destruct x
  end.

Ltac respects_auto db :=
  repeat first [ solve [eauto with db] | respects_step ].

#[local] Instance same_preorder {B} (f : Circuit -> B) : PreOrder (same f).
Proof. split; [by intros c | intros a b c H1 H2; unfold same in *; congruence]. Qed.

#[local] Instance forward_preorder : PreOrder forward.
Proof.
  split; [by left|].
  intros a b c [H1|[H1 H1']] [H2|[H2 H2']]; unfold forward.
  - left. congruence.
  - right. split; congruence.
  - right. split; congruence.
  - right. split; congruence.
Qed.


#[local] Instance quiet_preorder : PreOrder quiet.
Proof.
  split; [by intros c; repeat split|].
  intros a b c H1 H2. unfold quiet, same in *. intuition congruence.
Qed.

#[local] Instance calm_preorder : PreOrder calm.
Proof.
  split; [by intros c; repeat split; left|].
  intros a b c (?&?&?&F1&?&?&?) (?&?&?&F2&?&?&?).
  unfold calm, same in *. repeat split; try congruence.
  by etrans.
Qed.

#[local] Instance steady_preorder : PreOrder steady.
Proof.
  split; [by intros c; repeat split; left|].
  intros a b c (?&F1&?&?&?) (?&F2&?&?&?).
  unfold steady, same in *. repeat split; try congruence.
  by etrans.
Qed.

Lemma respects_weaken (R R' : relation Circuit) {A} (m : Circ A) :
  (forall c c', R c c' -> R' c c') -> respects R m -> respects R' m.
Proof. intros HR Hm c. apply HR, Hm. Qed.

Lemma quiet_calm c c' : quiet c c' -> calm c c'.
Proof. intros (?&?&?&Hs&?&?&?). repeat split; try done. by left. Qed.

Lemma calm_steady c c' : calm c c' -> steady c c'.
Proof. intros (?&?&?&?&?&?&?). by repeat split. Qed.

Lemma steady_forward c c' : steady c c' -> forward c c'.
Proof. by intros (?&?&?). Qed.

Create HintDb frame.

#[local] Hint Extern 8 (respects calm _) =>
  apply (respects_weaken quiet calm _ quiet_calm); solve [eauto with frame] : frame.
#[local] Hint Extern 8 (respects steady _) =>
  apply (respects_weaken calm steady _ calm_steady); solve [eauto with frame] : frame.
#[local] Hint Extern 8 (respects forward _) =>
  apply (respects_weaken steady forward _ steady_forward); solve [eauto with frame] : frame.

(** A primitive update that leaves the fields of a footprint alone. *)
Ltac footprint := intros; repeat split; try by left.

(** ** The footprint [quiet] *)

Lemma logger_quiet lvl msg : respects quiet (logger lvl msg).
Proof. unfold logger. respects_step. footprint. Qed.

Lemma _send_quiet cell : respects quiet (_send cell).
Proof. unfold _send. respects_step. footprint. Qed.

Lemma circuit_nodes_quiet : respects quiet circuit_nodes.
Proof. unfold circuit_nodes. respects_auto frame. Qed.

#[local] Hint Resolve logger_quiet _send_quiet circuit_nodes_quiet : frame.

Lemma encrypt_forward_router n rc n' rc' :
  encrypt_forward n rc = Ret (n', rc') -> router n' = router n.
Proof.
  unfold encrypt_forward. destruct (_crypto_state n); [|done].
  destruct (cs_encrypt_forward _ _). by intros [= <- _].
Qed.

Lemma decrypt_backward_router n rc n' rc' :
  decrypt_backward n rc = Ret (n', rc') -> router n' = router n.
Proof.
  unfold decrypt_backward. destruct (_crypto_state n); [|done].
  destruct (cs_decrypt_backward _ _). by intros [= <- _].
Qed.

Lemma crypt_loop_routers op ns rc :
  (forall n rc n' rc', op n rc = Ret (n', rc') -> router n' = router n) ->
  map router (crypt_loop op ns rc).1.1 = map router ns.
Proof.
  intros Hop. revert rc. induction ns as [|n ns IH]; intros rc; cbn; [done|].
  destruct (op n rc) as [[n' rc']|e] eqn:E; [|done].
  specialize (IH rc'). destruct (crypt_loop op ns rc') as [[ns' rc''] e'].
  cbn in *. by rewrite IH, (Hop _ _ _ _ E).
Qed.

Lemma decrypt_loop_routers i ns rc fn :
  map router (decrypt_loop i ns rc fn).1.1.1.1 = map router ns.
Proof.
  revert i rc fn. induction ns as [|n ns IH]; intros i rc fn; cbn; [done|].
  destruct (is_encrypted rc); cbn; [|done].
  destruct (decrypt_backward n rc) as [[n' rc']|e] eqn:E; [|done].
  specialize (IH (S i) rc' (Some i)).
  destruct (decrypt_loop _ ns rc' _) as [[[[ns' rc''] fn'] logs] e'].
  cbn in *. by rewrite IH, (decrypt_backward_router _ _ _ _ E).
Qed.

(** Unfolds the monad's combinators in a goal about a run. *)
Ltac run :=
  unfold bind, gets, ret, raise, modify, lift, assert_, try_except, logger, _send; cbn.

Lemma _encrypt_quiet rc : respects quiet (_encrypt rc).
Proof.
  intros c. unfold _encrypt, circuit_nodes. run.
  destruct (is_encrypted rc); cbn; [reflexivity|].
  destruct (_circuit_nodes c) as [ns|] eqn:E; cbn; [|reflexivity].
  pose proof (crypt_loop_routers encrypt_forward (rev ns) rc encrypt_forward_router) as Hr.
  destruct (crypt_loop _ _ _) as [[ns' rc'] e]. cbn in Hr.
  assert (quiet c (set_nodes (Some (rev ns')) c)) as Hq.
  { footprint. unfold same, routers. cbn. rewrite E. cbn.
    by rewrite map_rev, Hr, map_rev, rev_involutive. }
  by destruct e.
Qed.

#[local] Hint Resolve _encrypt_quiet : frame.

Lemma _send_relay_quiet inner rt sid : respects quiet (_send_relay inner rt sid).
Proof. unfold _send_relay. respects_auto frame. Qed.

#[local] Hint Resolve _send_relay_quiet : frame.

Lemma close_stream_quiet sid : respects quiet (close_stream sid).
Proof. unfold close_stream. respects_auto frame. footprint. Qed.

#[local] Hint Resolve close_stream_quiet : frame.

Lemma close_all_streams_quiet : respects quiet close_all_streams.
Proof. unfold close_all_streams. respects_auto frame. Qed.

Lemma node_window_quiet i : respects quiet (node_window i).
Proof. unfold node_window. respects_auto frame. Qed.

Lemma set_node_window_quiet i w : respects quiet (set_node_window i w).
Proof.
  intros c. unfold set_node_window, circuit_nodes. run.
  destruct (_circuit_nodes c) as [ns|] eqn:E; cbn; [|reflexivity].
  destruct (ns !! i) as [n|] eqn:En; cbn; [|reflexivity].
  footprint. unfold same, routers. cbn. rewrite E. cbn. f_equal.
  rewrite list_fmap_insert. cbn. apply list_insert_id.
  by rewrite list_lookup_fmap, En.
Qed.

#[local] Hint Resolve close_all_streams_quiet node_window_quiet set_node_window_quiet : frame.

Lemma _sendme_process_quiet cell i oc : respects quiet (_sendme_process cell i oc).
Proof. unfold _sendme_process. respects_auto frame. Qed.

#[local] Hint Resolve _sendme_process_quiet : frame.

Lemma _on_stream_quiet cell i oc : respects quiet (_on_stream cell i oc).
Proof. unfold _on_stream. respects_auto frame. footprint. Qed.

Lemma _on_stream_end_quiet cell i oc : respects quiet (_on_stream_end cell i oc).
Proof. unfold _on_stream_end. respects_auto frame. Qed.

#[local] Hint Resolve _on_stream_quiet _on_stream_end_quiet : frame.

(** ** The footprint [calm] *)

Lemma destroy_calm sd : respects calm (destroy sd).
Proof.
  intros c. unfold destroy. run.
  destruct (_state c) eqn:E; cbn.
  - reflexivity.
  - pose proof (close_all_streams_quiet c) as Hq.
    destruct (close_all_streams c) as [c1 [[]|e]]; cbn in *.
    + destruct Hq as (?&?&?&Hs&?&?&?). unfold same in *.
      destruct sd; run; repeat split; try done;
        right; (split; [congruence|done]).
    + by apply quiet_calm.
  - repeat split; try done. left. by cbn.
Qed.

#[local] Hint Resolve destroy_calm : frame.

Lemma guard_destroy_circuit_calm : respects calm guard_destroy_circuit.
Proof. apply destroy_calm. Qed.

#[local] Hint Resolve guard_destroy_circuit_calm : frame.

Lemma _on_truncated_calm cell i oc : respects calm (_on_truncated cell i oc).
Proof. unfold _on_truncated. respects_auto frame. Qed.

#[local] Hint Resolve _on_truncated_calm : frame.

(** A successful [destroy] ends in Destroyed. *)
Lemma destroy_returns sd c : (destroy sd c).2 = Ret tt -> _state (destroy sd c).1 = Destroyed.
Proof.
  unfold destroy. run. destruct (_state c); cbn; [done| |done].
  destruct (close_all_streams c) as [c1 [[]|e]]; cbn; [|done].
  by destruct sd.
Qed.

(** ** The footprint [steady] *)

Lemma waiter_handler_steady w cell : respects steady (waiter_handler w cell).
Proof. unfold waiter_handler. respects_auto frame. footprint. Qed.

Lemma handlers_remove_steady t h : respects steady (handlers_remove t h).
Proof. unfold handlers_remove. respects_auto frame. footprint. Qed.

Lemma _subscribe_for_cell_steady t h : respects steady (_subscribe_for_cell t h).
Proof. unfold _subscribe_for_cell. respects_auto frame. footprint. Qed.

Lemma _unsubscribe_for_cell_steady t h : respects steady (_unsubscribe_for_cell t h).
Proof.
  unfold _unsubscribe_for_cell. respects_step.
  destruct (list_remove _ _); footprint.
Qed.

#[local] Hint Resolve waiter_handler_steady handlers_remove_steady
  _subscribe_for_cell_steady _unsubscribe_for_cell_steady : frame.

Lemma subscribe_for_steady ts h : respects steady (subscribe_for ts h).
Proof. unfold subscribe_for. respects_auto frame. Qed.

Lemma unsubscribe_for_steady ts h : respects steady (unsubscribe_for ts h).
Proof. unfold unsubscribe_for. respects_auto frame. Qed.

#[local] Hint Resolve subscribe_for_steady unsubscribe_for_steady : frame.

Lemma call_handler_steady h cell fn oc : respects steady (call_handler h cell fn oc).
Proof. unfold call_handler. respects_auto frame. Qed.

#[local] Hint Resolve call_handler_steady : frame.

Lemma handle_steady cell fn oc : respects steady (handle cell fn oc).
Proof. unfold handle. respects_auto frame. Qed.

#[local] Hint Resolve handle_steady : frame.

Lemma _decrypt_quiet rc : respects quiet (_decrypt rc).
Proof.
  intros c. unfold _decrypt, circuit_nodes. run.
  destruct (is_encrypted rc); cbn; [|reflexivity].
  destruct (_circuit_nodes c) as [ns|] eqn:E; cbn; [|reflexivity].
  pose proof (decrypt_loop_routers 0 ns rc None) as Hr.
  destruct (decrypt_loop _ _ _ _) as [[[[ns' rc'] fn] logs] e]. cbn in Hr.
  assert (quiet c (set_log (log c ++ logs) (set_nodes (Some ns') c))) as Hq.
  { footprint. unfold same, routers. cbn. by rewrite E, Hr. }
  destruct e; [done|]. by destruct (get_decrypted rc').
Qed.

#[local] Hint Resolve _decrypt_quiet : frame.

Lemma handle_cell_steady cell : respects steady (handle_cell cell).
Proof. apply handle_steady. Qed.

Lemma handle_relay_steady rc : respects steady (handle_relay rc).
Proof. unfold handle_relay. respects_auto frame. Qed.

#[local] Hint Resolve handle_cell_steady handle_relay_steady : frame.

Lemma recv_dispatch_steady i : respects steady (recv_dispatch i).
Proof. unfold recv_dispatch. respects_auto frame. Qed.

#[local] Hint Resolve recv_dispatch_steady : frame.

Lemma waiter_get_steady w inbound : respects steady (waiter_get w inbound).
Proof. unfold waiter_get. respects_auto frame. Qed.

#[local] Hint Resolve waiter_get_steady : frame.

Lemma create_waiter_steady {A} ts (body : nat -> Circ A) :
  (forall w, respects steady (body w)) -> respects steady (create_waiter ts body).
Proof. intros Hb. unfold create_waiter. respects_auto frame. footprint. Qed.

Lemma _send_wait_steady cell ts inbound : respects steady (_send_wait cell ts inbound).
Proof. unfold _send_wait. apply create_waiter_steady. intros w. respects_auto frame. Qed.

Lemma _send_relay_wait_steady inner ts rt sid inbound :
  respects steady (_send_relay_wait inner ts rt sid inbound).
Proof. unfold _send_relay_wait. apply create_waiter_steady. intros w. respects_auto frame. Qed.

#[local] Hint Resolve _send_wait_steady _send_relay_wait_steady : frame.

Lemma _initialize_steady r inbound : respects steady (_initialize r inbound).
Proof. unfold _initialize. respects_auto frame. Qed.

Lemma _rendezvous_establish_steady cookie inbound :
  respects steady (_rendezvous_establish cookie inbound).
Proof. unfold _rendezvous_establish. respects_auto frame. Qed.

#[local] Hint Resolve _initialize_steady _rendezvous_establish_steady : frame.

(** ** Operations that only move the state forward *)

Lemma try_introductions_forward hs l : respects forward (try_introductions hs l).
Proof.
  induction l as [|x l IH]; cbn; respects_auto frame; by left.
Qed.

#[local] Hint Resolve try_introductions_forward : frame.

Lemma try_responsible_dirs_forward hs dirs : respects forward (try_responsible_dirs hs dirs).
Proof.
  induction dirs as [|d dirs IH]; cbn; respects_auto frame.
Qed.

#[local] Hint Resolve try_responsible_dirs_forward : frame.

Lemma extend_to_hidden_forward hs inbound dirs :
  respects forward (extend_to_hidden hs inbound dirs).
Proof. unfold extend_to_hidden. respects_auto frame. Qed.

Lemma extend_forward r ht inbound : respects forward (extend r ht inbound).
Proof. unfold extend, check_connected. respects_auto frame. by left. Qed.

(** ** Stream-level SENDME *)

(** C10: an inbound RELAY_SENDME whose relay cell carries a non-zero
    stream id is not taken as a circuit-level SENDME: the nodes, and so
    every window, stay as they are and nothing is sent; the cell goes to
    the stream lookup, where the stream with that id receives it, or, when
    there is no such stream, a warning is logged and the cell is dropped. *)
Theorem stream_level_sendme (c : Circuit) (from_node : nat) (circuit_id : Z)
    (orig_cell : RelayedTorCell) :
  stream_id orig_cell <> 0 ->
  let r := _on_stream (RelaySendMe circuit_id) from_node orig_cell c in
  r = match _stream_manager c !! stream_id orig_cell with
      | Some s =>
          (set_streams (<[stream_id orig_cell := stream_handle_cell s (RelaySendMe circuit_id)]>
                          (_stream_manager c)) c, Ret tt)
      | None => (set_log (log c ++ [unknown_stream]) c, Ret tt)
      end
  /\ _circuit_nodes r.1 = _circuit_nodes c
  /\ _sender r.1 = _sender c.
Proof.
  intros Hsid. cbn zeta.
  assert (_on_stream (RelaySendMe circuit_id) from_node orig_cell c =
          match _stream_manager c !! stream_id orig_cell with
          | Some s =>
              (set_streams (<[stream_id orig_cell := stream_handle_cell s (RelaySendMe circuit_id)]>
                              (_stream_manager c)) c, Ret tt)
          | None => (set_log (log c ++ [unknown_stream]) c, Ret tt)
          end) as ->.
  { unfold _on_stream, _sendme_process. cbn [type_of].
    rewrite bool_decide_eq_true_2 by done.
    rewrite (bool_decide_eq_false_2 (stream_id orig_cell = 0)) by done.
    run. by destruct (_stream_manager c !! stream_id orig_cell). }
  split; [done|]. by destruct (_stream_manager c !! stream_id orig_cell).
Qed.

(** ** Hidden-service attachment on an associated circuit *)

(** C7: on a circuit already associated with a hidden service,
    [extend_to_hidden] returns at once when the onion is the same, and
    raises when it differs; in both cases no rendezvous is started and the
    circuit is as before, two log lines apart. *)
Theorem extend_to_hidden_associated (c : Circuit) (associated hidden_service : HiddenService)
    (inbound : list Inbound) (dirs : list ResponsibleDir) :
  _associated_hs c = Some associated ->
  extend_to_hidden hidden_service inbound dirs c =
    if bool_decide (onion associated = onion hidden_service)
    then (set_log (log c ++ [(INFO, "Extending #%x circuit for hidden service %s...");
                             (DEBUG, "Circuit #%x already associated with %s")]) c,
          Ret tt)
    else (set_log (log c ++ [(INFO, "Extending #%x circuit for hidden service %s...")]) c,
          Raise (Exception MoreThanOneHiddenService)).
Proof.
  intros Hhs. unfold extend_to_hidden. run. rewrite Hhs.
  destruct (bool_decide _); run; [|done].
  by rewrite <-app_assoc.
Qed.

(** ** Teardown *)

Lemma destroy_destroyed sd (c : Circuit) :
  _state c = Destroyed ->
  destroy sd c = (set_log (log c ++ [already_destroyed]) c, Ret tt).
Proof.
  intros Hs. unfold destroy. run. rewrite Hs. cbn.
  destruct c. cbn in *. by subst.
Qed.

(** C6: [destroy] on a Destroyed circuit only logs a debug line: it sends
    nothing, closes no stream and leaves the state Destroyed; so a second
    [destroy] after a first one that returned changes nothing but the log.
    On a circuit still Unknown it raises the not-yet-connected exception
    and changes nothing. *)
Theorem destroy_idempotent (c : Circuit) (sd sd' : bool) :
  match _state c with
  | Destroyed =>
      destroy sd c = (set_log (log c ++ [already_destroyed]) c, Ret tt)
  | Unknown => destroy sd c = (c, Raise (Exception (NotYetConnected (_id c))))
  | Connected => True
  end
  /\ match destroy sd c with
     | (c1, Ret _) =>
         let c2 := (destroy sd' c1).1 in
         destroy sd' c1 = (set_log (log c1 ++ [already_destroyed]) c1, Ret tt)
         /\ _sender c2 = _sender c1
         /\ _stream_manager c2 = _stream_manager c1
         /\ _state c2 = Destroyed
     | (_, Raise _) => True
     end.
Proof.
  split.
  - destruct (_state c) eqn:Hs; [|done|by apply destroy_destroyed].
    unfold destroy. run. by rewrite Hs.
  - pose proof (destroy_returns sd c) as Hd.
    destruct (destroy sd c) as [c1 [[]|e]]; [|done]. cbn in Hd.
    specialize (Hd eq_refl). cbn zeta.
    rewrite (destroy_destroyed sd' c1 Hd). by cbn.
Qed.

(** ** Waiters that are never unsubscribed *)

(** C2 (violated on the timeout path): when nothing arrives before the
    timeout, [_send_wait] raises CellTimeoutError out of the scope of
    [create_waiter], and the waiter created for it is still in the
    registry afterwards. *)
Theorem create_waiter_timeout_leaks (c : Circuit) (cell : WireCell) (t : CellType) :
  let r := _send_wait cell (One t) [] c in
  r.2 = Raise (CellTimeoutError (One t))
  /\ WaiterRef (length (waiters c)) ∈ handlers_of t r.1.
Proof.
  unfold _send_wait, create_waiter, subscribe_for, _subscribe_for_cell, waiter_get.
  run. rewrite lookup_app_r by done. rewrite Nat.sub_diag. cbn.
  split; [done|]. unfold handlers_of at 1. cbn. rewrite lookup_insert_eq. cbn.
  apply elem_of_app. right. by apply list_elem_of_singleton.
Qed.

(** ** The state only moves forward *)

Lemma forward_rank (c c' : Circuit) :
  forward c c' -> (state_rank (_state c) <= state_rank (_state c'))%nat.
Proof.
  intros [->|[Hne ->]]; [done|]. destruct (_state c); cbn; lia.
Qed.

Lemma forward_unknown (c c' : Circuit) :
  forward c c' -> _state c = Unknown -> _state c' = Unknown.
Proof. intros [->|[Hne _]]; done. Qed.

Lemma create_state guard inbound (c : Circuit) :
  match _state c, (create guard inbound c).2 with
  | Unknown, Ret _ => _state (create guard inbound c).1 = Connected
  | Unknown, Raise _ => _state (create guard inbound c).1 = Unknown
  | _, _ => create guard inbound c = (c, Raise (AssertionError "Circuit already connected"))
  end.
Proof.
  unfold create. run. destruct (_state c) eqn:Hs; cbn; [|done..].
  rewrite bool_decide_eq_true_2 by done. run.
  pose proof (steady_forward _ _ (_initialize_steady (_router c) inbound c)) as Hf.
  apply forward_unknown in Hf; [|done].
  destruct (_initialize _ _ c) as [c1 [ns|e]]; cbn in *; [|done].
  unfold subscribe_for, _subscribe_for_cell. by run.
Qed.

Lemma run_rank (op : Op) (c : Circuit) :
  (state_rank (_state c) <= state_rank (_state (run op c).1))%nat.
Proof.
  destruct op; cbn [run].
  - pose proof (create_state guard inbound c) as Hc.
    destruct (_state c) eqn:Hs.
    + cbn. lia.
    + rewrite Hc. cbn. by rewrite Hs.
    + rewrite Hc. cbn. by rewrite Hs.
  - apply forward_rank, steady_forward, calm_steady, destroy_calm.
  - apply forward_rank, extend_forward.
  - apply forward_rank, extend_to_hidden_forward.
  - apply forward_rank, steady_forward, calm_steady, quiet_calm, close_stream_quiet.
  - apply forward_rank, steady_forward, calm_steady, quiet_calm, close_all_streams_quiet.
  - apply forward_rank, steady_forward, handle_cell_steady.
  - apply forward_rank, steady_forward, handle_relay_steady.
  - apply forward_rank, steady_forward, recv_dispatch_steady.
Qed.

(** ** Onion encryption and decryption *)

Lemma encrypt_forward_keyed n rc :
  keyed n -> encrypt_forward n rc = Ret (enc_node n rc, enc n rc).
Proof.
  intros [cs Hcs]. unfold enc_node, enc, encrypt_forward. rewrite Hcs.
  by destruct (cs_encrypt_forward cs rc).
Qed.

Lemma decrypt_backward_keyed n rc :
  keyed n -> decrypt_backward n rc = Ret (dec_node n rc, dec n rc).
Proof.
  intros [cs Hcs]. unfold dec_node, dec, decrypt_backward. rewrite Hcs.
  by destruct (cs_decrypt_backward cs rc).
Qed.

Lemma enc_node_keyed n rc : keyed n -> keyed (enc_node n rc).
Proof.
  intros [cs Hcs]. unfold enc_node, encrypt_forward. rewrite Hcs.
  destruct (cs_encrypt_forward cs rc). by eexists.
Qed.

Lemma dec_node_keyed n rc : keyed n -> keyed (dec_node n rc).
Proof.
  intros [cs Hcs]. unfold dec_node, decrypt_backward. rewrite Hcs.
  destruct (cs_decrypt_backward cs rc). by eexists.
Qed.

Lemma enc_node_window n rc : window (enc_node n rc) = window n.
Proof.
  unfold enc_node, encrypt_forward. destruct (_crypto_state n); [|done].
  by destruct (cs_encrypt_forward _ rc).
Qed.

Lemma nest_nodes_keyed ns rc : Forall keyed ns -> Forall keyed (nest_nodes ns rc).
Proof.
  induction 1 as [|n ns Hn _ IH]; cbn; constructor; [by apply enc_node_keyed|done].
Qed.

Lemma nest_nodes_lookup ns rc i n :
  ns !! i = Some n -> exists rc', nest_nodes ns rc !! i = Some (enc_node n rc').
Proof.
  revert i. induction ns as [|m ns IH]; intros [|i]; cbn; try done.
  - intros [= ->]. by eexists.
  - apply IH.
Qed.

Lemma nest_nodes_length ns rc : length (nest_nodes ns rc) = length ns.
Proof. induction ns; cbn; congruence. Qed.

Lemma crypt_loop_app op l1 l2 rc l1' rc1 :
  crypt_loop op l1 rc = (l1', rc1, None) ->
  crypt_loop op (l1 ++ l2) rc =
    let '(l2', rc2, e) := crypt_loop op l2 rc1 in (l1' ++ l2', rc2, e).
Proof.
  revert rc l1'. induction l1 as [|n l1 IH]; intros rc l1'; cbn.
  - intros [= <- <-]. by destruct (crypt_loop op l2 rc) as [[? ?] ?].
  - destruct (op n rc) as [[n' rc']|e]; [|done].
    destruct (crypt_loop op l1 rc') as [[l1'' rc1'] e] eqn:E.
    intros [= <- <- ->]. rewrite (IH _ _ E).
    by destruct (crypt_loop op l2 rc1') as [[? ?] ?].
Qed.

(** The loop of [_encrypt], run over the reversed list. *)
Lemma crypt_loop_encrypt ns rc :
  Forall keyed ns ->
  crypt_loop encrypt_forward (rev ns) rc = (rev (nest_nodes ns rc), nest ns rc, None).
Proof.
  induction 1 as [|n ns Hn _ IH]; cbn; [done|].
  rewrite (crypt_loop_app _ _ [n] _ _ _ IH). cbn.
  by rewrite (encrypt_forward_keyed _ _ Hn).
Qed.

Lemma _encrypt_keyed (c : Circuit) ns rc :
  _circuit_nodes c = Some ns -> Forall keyed ns -> is_encrypted rc = false ->
  _encrypt rc c = (set_nodes (Some (nest_nodes ns rc)) c, Ret (nest ns rc)).
Proof.
  intros Hns Hk Hrc. unfold _encrypt, circuit_nodes. rewrite Hrc. run.
  rewrite Hns. cbn. rewrite (crypt_loop_encrypt _ _ Hk). cbn.
  by rewrite rev_involutive.
Qed.

Lemma _send_relay_keyed (c : Circuit) ns inner rt sid :
  _circuit_nodes c = Some ns -> Forall keyed ns ->
  let rc := new_relay (default OuterRelay rt) inner sid (_id c) in
  _send_relay inner rt sid c =
    (set_sender (_sender c ++ [Relayed (nest ns rc)]) (set_nodes (Some (nest_nodes ns rc)) c),
     Ret tt).
Proof.
  intros Hns Hk rc. subst rc. unfold _send_relay. run.
  by erewrite _encrypt_keyed.
Qed.

(** The loop of [_decrypt] on a cell that is already plain. *)
Lemma decrypt_loop_plain k ns rc fn :
  is_encrypted rc = false ->
  decrypt_loop k ns rc fn =
    (ns, rc, fn, match ns with [] => [] | _ => [decrypting; decrypted_earlier] end, None).
Proof. intros Hrc. destruct ns; cbn; [done|]. by rewrite Hrc. Qed.

(** The loop of [_decrypt] when the node at position [i] is the first
    after which the cell is plain. *)
Lemma decrypt_loop_recognised ns : forall k rc fn i,
  Forall keyed ns -> is_encrypted rc = true -> (i < length ns)%nat ->
  (forall j, (j < i)%nat -> is_encrypted (peel (take (S j) ns) rc) = true) ->
  is_encrypted (peel (take (S i) ns) rc) = false ->
  decrypt_loop k ns rc fn =
    (peel_nodes (take (S i) ns) rc ++ drop (S i) ns,
     peel (take (S i) ns) rc,
     Some (k + i)%nat,
     replicate (S i) decrypting
       ++ match drop (S i) ns with [] => [] | _ => [decrypting; decrypted_earlier] end,
     None).
Proof.
  induction ns as [|n ns IH]; intros k rc fn i Hk Hrc Hi Hbefore Hat; [cbn in Hi; lia|].
  apply Forall_cons in Hk as [Hn Hk].
  cbn [decrypt_loop]. rewrite Hrc. cbn [negb].
  rewrite (decrypt_backward_keyed _ _ Hn).
  destruct i as [|i].
  - cbn in Hat. rewrite (decrypt_loop_plain _ _ _ _ Hat). cbn.
    rewrite take_0, drop_0, Nat.add_0_r. by destruct ns.
  - rewrite (IH (S k) (dec n rc) (Some k) i); cbn in *.
    + repeat f_equal. lia.
    + done.
    + apply (Hbefore 0%nat). lia.
    + lia.
    + intros j Hj. apply (Hbefore (S j)). lia.
    + done.
Qed.

(** The loop of [_decrypt] when the cell is still encrypted after every
    node. *)
Lemma decrypt_loop_unrecognised ns : forall k rc fn,
  Forall keyed ns -> is_encrypted rc = true ->
  (forall j, (j < length ns)%nat -> is_encrypted (peel (take (S j) ns) rc) = true) ->
  decrypt_loop k ns rc fn =
    (peel_nodes ns rc, peel ns rc,
     match ns with [] => fn | _ => Some (k + length ns - 1)%nat end,
     replicate (length ns) decrypting, None).
Proof.
  induction ns as [|n ns IH]; intros k rc fn Hk Hrc Hall; [done|].
  apply Forall_cons in Hk as [Hn Hk].
  cbn [decrypt_loop]. rewrite Hrc. cbn [negb].
  rewrite (decrypt_backward_keyed _ _ Hn).
  rewrite (IH (S k) (dec n rc) (Some k)); cbn in *.
  - repeat f_equal. destruct ns; cbn; f_equal; lia.
  - done.
  - apply (Hall 0%nat). lia.
  - intros j Hj. apply (Hall (S j)). lia.
Qed.

Lemma _decrypt_recognised (c : Circuit) ns rc i inner :
  _circuit_nodes c = Some ns -> Forall keyed ns ->
  is_encrypted rc = true -> (i < length ns)%nat ->
  (forall j, (j < i)%nat -> is_encrypted (peel (take (S j) ns) rc) = true) ->
  is_encrypted (peel (take (S i) ns) rc) = false ->
  get_decrypted (peel (take (S i) ns) rc) = Some inner ->
  _decrypt rc c =
    (set_log (log c ++ replicate (S i) decrypting
                ++ match drop (S i) ns with
                   | [] => []
                   | _ => [decrypting; decrypted_earlier]
                   end)
       (set_nodes (Some (peel_nodes (take (S i) ns) rc ++ drop (S i) ns)) c),
     Ret (Some i, inner, peel (take (S i) ns) rc)).
Proof.
  intros Hns Hk Hrc Hi Hbefore Hat Hinner.
  unfold _decrypt, circuit_nodes. rewrite Hrc. run. rewrite Hns. cbn.
  rewrite (decrypt_loop_recognised ns 0 rc None i Hk Hrc Hi Hbefore Hat).
  cbn. by rewrite Hinner.
Qed.

Lemma _decrypt_unrecognised (c : Circuit) ns rc :
  _circuit_nodes c = Some ns -> Forall keyed ns -> is_encrypted rc = true ->
  (forall j, (j < length ns)%nat -> is_encrypted (peel (take (S j) ns) rc) = true) ->
  _decrypt rc c =
    (set_log (log c ++ replicate (length ns) decrypting)
       (set_nodes (Some (peel_nodes ns rc)) c),
     match get_decrypted (peel ns rc) with
     | Some inner =>
         Ret (match ns with [] => None | _ => Some (length ns - 1)%nat end,
              inner, peel ns rc)
     | None => Raise GetDecryptedError
     end).
Proof.
  intros Hns Hk Hrc Hall.
  unfold _decrypt, circuit_nodes. rewrite Hrc. run. rewrite Hns. cbn.
  rewrite (decrypt_loop_unrecognised ns 0 rc None Hk Hrc Hall).
  cbn. destruct (get_decrypted (peel ns rc)); [|done]. by destruct ns.
Qed.

(** C1: on a circuit whose nodes [n1 ... nk] have completed their
    handshakes, [_encrypt] turns a plain relay cell into
    [encrypt_forward(n1, ... encrypt_forward(nk, cell) ...)], each node
    having encrypted what the nodes behind it left, and that is what an
    outbound relay cell is handed to the sender as; and when the
    node at position [i] is the first after whose decryption an inbound
    cell is plain, [_decrypt] has decrypted with the nodes up to and
    including it, in order, has left the nodes behind it alone, and reports
    it as [from_node], which is the node [handle_relay] dispatches the
    inner cell with. *)
Theorem onion_order (c : Circuit) (ns : list (CircuitNode Collab)) :
  _circuit_nodes c = Some ns -> Forall keyed ns ->
  (forall rc, is_encrypted rc = false ->
     _encrypt rc c = (set_nodes (Some (nest_nodes ns rc)) c, Ret (nest ns rc)))
  /\ (forall inner rt sid,
        let r := _send_relay inner rt sid c in
        r.2 = Ret tt
        /\ _sender r.1 = _sender c
             ++ [Relayed (nest ns (new_relay (default OuterRelay rt) inner sid (_id c)))])
  /\ (forall rc i inner,
        is_encrypted rc = true -> (i < length ns)%nat ->
        (forall j, (j < i)%nat -> is_encrypted (peel (take (S j) ns) rc) = true) ->
        is_encrypted (peel (take (S i) ns) rc) = false ->
        get_decrypted (peel (take (S i) ns) rc) = Some inner ->
        let rc' := peel (take (S i) ns) rc in
        exists c1,
          _decrypt rc c = (c1, Ret (Some i, inner, rc'))
          /\ _circuit_nodes c1 = Some (peel_nodes (take (S i) ns) rc ++ drop (S i) ns)
          /\ handle_relay rc c
             = (logger DEBUG "Decrypted relay cell received from %s: %r" >>
                handle inner (Some i) (Some rc')) c1).
Proof.
  intros Hns Hk. split; [|split].
  - intros rc Hrc. by apply _encrypt_keyed.
  - intros inner rt sid. cbn zeta. by rewrite (_send_relay_keyed c ns inner rt sid Hns Hk).
  - intros rc i inner Hrc Hi Hbefore Hat Hinner rc'.
    eexists. split; [by apply _decrypt_recognised|]. split; [done|].
    unfold handle_relay. unfold bind at 1.
    by rewrite (_decrypt_recognised c ns rc i inner).
Qed.

(** ** Cells that no node recognises *)

Lemma warnings_app (l1 l2 : list LogRecord) : warnings (l1 ++ l2) = warnings l1 ++ warnings l2.
Proof. apply filter_app. Qed.

Lemma warnings_decrypting n : warnings (replicate n decrypting) = [].
Proof.
  induction n as [|n IH]; [done|]. cbn [replicate]. unfold warnings in *.
  by rewrite filter_cons_False.
Qed.

(** C9 as the code has it: when an inbound cell is still encrypted after
    every node, and [get_decrypted] refuses such a cell, the cell is not
    dispatched: [_decrypt] has decrypted with every node, has logged no
    warning and raises the exception of [get_decrypted]; [handle_relay]
    lets it out, leaving the circuit as [_decrypt] left it, so no handler,
    waiter or stream has seen the cell; the receive loop catches the
    exception, logs an error and returns. *)
Theorem unrecognised_cell (c : Circuit) (ns : list (CircuitNode Collab))
    (rc : RelayedTorCell) :
  refuses_encrypted ->
  _circuit_nodes c = Some ns -> ns <> [] -> Forall keyed ns ->
  is_encrypted rc = true ->
  (forall j, (j < length ns)%nat -> is_encrypted (peel (take (S j) ns) rc) = true) ->
  let c1 := set_log (log c ++ replicate (length ns) decrypting)
              (set_nodes (Some (peel_nodes ns rc)) c) in
  _decrypt rc c = (c1, Raise GetDecryptedError)
  /\ warnings (log c1) = warnings (log c)
  /\ handle_relay rc c = (c1, Raise GetDecryptedError)
  /\ recv_dispatch (InRelay rc) c
     = (set_log (log c ++ [cell_received] ++ replicate (length ns) decrypting
                   ++ [handle_errors])
          (set_nodes (Some (peel_nodes ns rc)) c), Ret tt).
Proof.
  intros Hrefuse Hns Hne Hk Hrc Hall c1.
  assert (get_decrypted (peel ns rc) = None) as Hnone.
  { apply Hrefuse. destruct (length ns) as [|n] eqn:Hlen; [by destruct ns|].
    specialize (Hall n ltac:(lia)). by rewrite <- Hlen, firstn_all in Hall. }
  assert (forall c0 : Circuit, _circuit_nodes c0 = Some ns ->
            _decrypt rc c0
            = (set_log (log c0 ++ replicate (length ns) decrypting)
                 (set_nodes (Some (peel_nodes ns rc)) c0), Raise GetDecryptedError)) as Hd.
  { intros c0 Hns0. rewrite (_decrypt_unrecognised c0 ns rc Hns0 Hk Hrc Hall).
    by rewrite Hnone. }
  split; [by apply Hd|]. split.
  { subst c1. cbn. by rewrite warnings_app, warnings_decrypting, app_nil_r. }
  split.
  - unfold handle_relay. unfold bind at 1. by rewrite (Hd c Hns).
  - unfold recv_dispatch, handle_relay. run. rewrite Hd by done. run.
    unfold cell_received, handle_errors. by rewrite <- !app_assoc.
Qed.

(** ** Flow control *)

Lemma node_window_run (c : Circuit) ns i n :
  _circuit_nodes c = Some ns -> ns !! i = Some n ->
  node_window i c = (c, Ret (window n)).
Proof.
  intros Hns Hi. unfold node_window, circuit_nodes. run. rewrite Hns. cbn. by rewrite Hi.
Qed.

Lemma set_node_window_run (c : Circuit) ns i n w :
  _circuit_nodes c = Some ns -> ns !! i = Some n ->
  set_node_window i w c = (set_nodes (Some (<[i := set_window n w]> ns)) c, Ret tt).
Proof.
  intros Hns Hi. unfold set_node_window, circuit_nodes. run. rewrite Hns. cbn. by rewrite Hi.
Qed.

Lemma enc_set_window n w rc : enc (set_window n w) rc = enc n rc.
Proof.
  unfold enc, encrypt_forward. cbn. destruct (_crypto_state n); [|done].
  by destruct (cs_encrypt_forward _ _).
Qed.

Lemma nest_set_window ns i n w rc :
  ns !! i = Some n -> nest (<[i := set_window n w]> ns) rc = nest ns rc.
Proof.
  revert i. induction ns as [|m ns IH]; intros [|i]; cbn; try done.
  - intros [= ->]. apply enc_set_window.
  - intros Hi. f_equal. by apply IH.
Qed.

Lemma set_window_keyed n w : keyed n -> keyed (set_window n w).
Proof. by intros [cs Hcs]; exists cs. Qed.

Lemma insert_keyed ns i n :
  Forall keyed ns -> keyed n -> Forall keyed (<[i := n]> ns).
Proof. intros Hk Hn. by apply Forall_insert. Qed.

(** The two window updates of a data cell, and whether a SENDME is due. *)
Lemma window_after_data (w : TorWindow) :
  deliver_in_range w ->
  need_sendme (deliver_dec w) =
    if bool_decide (deliver w - 1 = 900)
    then (true, {| deliver := 1000; package := package w |})
    else (false, {| deliver := deliver w - 1; package := package w |}).
Proof.
  unfold deliver_in_range, need_sendme, deliver_dec, window_start, window_increment.
  cbn. intros Hr. case_bool_decide as Hd.
  - rewrite (proj2 (Z.ltb_ge _ _)) by lia. do 2 f_equal. lia.
  - by rewrite (proj2 (Z.ltb_lt _ _)) by lia.
Qed.

(** C3: for an inbound cell dispatched to [_on_stream] from the node at
    position [i].  A RELAY_SENDME whose relay cell has stream id 0 adds the
    increment to that node's package window and nothing else happens: no
    stream is looked up.  A RELAY_DATA takes one off the node's deliver
    window; a circuit-level RELAY_SENDME (stream id 0, nested through all
    hops) is handed to the sender exactly when the window has come down to
    900, and the window is then topped up; in both cases the cell goes on
    to the stream lookup. *)
Theorem on_stream_flow_control (c : Circuit) (ns : list (CircuitNode Collab)) (i : nat)
    (n : CircuitNode Collab) (orig_cell : RelayedTorCell) :
  _circuit_nodes c = Some ns -> ns !! i = Some n -> Forall keyed ns ->
  deliver_in_range (window n) ->
  (forall circuit_id,
     stream_id orig_cell = 0 ->
     _on_stream (RelaySendMe circuit_id) i orig_cell c =
       (set_nodes (Some (<[i := set_window n (package_inc (window n))]> ns)) c, Ret tt))
  /\ (forall data circuit_id,
        let cell := RelayData data circuit_id in
        let r := _on_stream cell i orig_cell c in
        let due := bool_decide (deliver (window n) - 1 = 900) in
        r.2 = Ret tt
        /\ window_at r.1 i =
             Some {| deliver := if due then 1000 else deliver (window n) - 1;
                     package := package (window n) |}
        /\ _sender r.1 =
             _sender c ++
               (if due
                then [Relayed (nest ns (new_relay OuterRelay (RelaySendMe circuit_id) 0 (_id c)))]
                else [])
        /\ _stream_manager r.1 =
             match _stream_manager c !! stream_id orig_cell with
             | Some s => <[stream_id orig_cell := stream_handle_cell s cell]> (_stream_manager c)
             | None => _stream_manager c
             end
        /\ log r.1 =
             log c ++ match _stream_manager c !! stream_id orig_cell with
                      | Some _ => []
                      | None => [unknown_stream]
                      end).
Proof.
  intros Hns Hi Hk Hr. split.
  - intros circuit_id Hsid. unfold _on_stream, _sendme_process. cbn [type_of].
    rewrite !bool_decide_eq_true_2 by done. cbn [andb].
    unfold bind. rewrite (node_window_run c ns i n Hns Hi).
    by rewrite (set_node_window_run c ns i n _ Hns Hi).
  - intros data circuit_id cell r due. subst r cell.
    unfold _on_stream, _sendme_process. cbn [type_of].
    rewrite (bool_decide_eq_false_2 (CellRelayData = CellRelaySendMe)) by done. cbn [andb].
    unfold bind.
    rewrite (node_window_run c ns i n Hns Hi).
    rewrite (set_node_window_run c ns i n _ Hns Hi).
    set (n1 := set_window n (deliver_dec (window n))).
    set (c1 := set_nodes (Some (<[i := n1]> ns)) c).
    assert (<[i := n1]> ns !! i = Some n1) as Hi1
      by (apply list_lookup_insert_eq; by eapply lookup_lt_Some).
    rewrite (node_window_run c1 _ i n1 eq_refl Hi1).
    subst n1. cbn [window set_window].
    rewrite (window_after_data _ Hr). fold due.
    set (w2 := {| deliver := if due then 1000 else deliver (window n) - 1;
                  package := package (window n) |}).
    assert ((if due then (true, {| deliver := 1000; package := package (window n) |})
             else (false, {| deliver := deliver (window n) - 1; package := package (window n) |}))
            = (due, w2)) as -> by (subst w2; by destruct due).
    rewrite (set_node_window_run c1 _ i _ w2 eq_refl Hi1).
    rewrite list_insert_insert_eq. cbn [set_window router handshake_type _key_agreement
      _crypto_state window].
    change (set_window (set_window n (deliver_dec (window n))) w2)
      with (set_window n w2).
    set (n2 := set_window n w2).
    set (ns2 := <[i := n2]> ns).
    set (c2 := set_nodes (Some ns2) c1).
    assert (Forall keyed ns2) as Hk2.
    { apply insert_keyed; [done|]. apply set_window_keyed.
      by eapply (Forall_lookup_1 keyed ns). }
    assert (ns2 !! i = Some n2) as Hi2
      by (apply list_lookup_insert_eq; by eapply lookup_lt_Some).
    destruct due eqn:Hdue.
    + rewrite (_send_relay_keyed c2 ns2 (RelaySendMe circuit_id) None 0 eq_refl Hk2).
      cbn [default]. run.
      destruct (nest_nodes_lookup ns2 (new_relay OuterRelay (RelaySendMe circuit_id) 0 (_id c))
                  i n2 Hi2) as [rc' Hrc'].
      assert (nest ns2 (new_relay OuterRelay (RelaySendMe circuit_id) 0 (_id c))
              = nest ns (new_relay OuterRelay (RelaySendMe circuit_id) 0 (_id c))) as Hnest.
      { apply (nest_set_window ns i n w2 _ Hi). }
      destruct (_stream_manager c !! stream_id orig_cell) as [s|]; cbn;
        unfold window_at; cbn; rewrite Hrc'; cbn; rewrite enc_node_window;
        subst n2; cbn; rewrite ?app_nil_r, Hnest; done.
    + run.
      destruct (_stream_manager c !! stream_id orig_cell) as [s|]; cbn;
        unfold window_at; cbn; rewrite Hi2; subst n2; cbn; rewrite ?app_nil_r; done.
Qed.

(** ** One-shot waiters in [handle] *)

Lemma waiter_handler_run (c : Circuit) w cell :
  waiter_handler w cell c =
    match waiters c !! w with
    | Some wt =>
        (set_waiters (<[w := {| _cell_types := _cell_types wt; _ev := true;
                                _read_cell := Some cell; _err_msg := _err_msg wt |}]>
                        (waiters c)) c, Ret tt)
    | None => (c, Raise AttributeError)
    end.
Proof. unfold waiter_handler. run. by destruct (waiters c !! w). Qed.

Lemma handlers_remove_run (c : Circuit) t h :
  handlers_remove t h c =
    match list_remove h (handlers_of t c) with
    | Some l' => (set_handlers (<[t := l']> (_handlers c)) c, Ret tt)
    | None => (c, Raise ValueError)
    end.
Proof. unfold handlers_remove. run. by destruct (list_remove h _). Qed.

Lemma list_remove_app (h : Handler) kept todo :
  Forall (fun k => k <> h) kept ->
  list_remove h (kept ++ h :: todo) = Some (kept ++ todo).
Proof.
  induction 1 as [|k kept Hk _ IH]; cbn.
  - by rewrite decide_True.
  - rewrite decide_False by done. by rewrite IH.
Qed.

Lemma handlers_of_insert (c : Circuit) t t' l :
  handlers_of t' (set_handlers (<[t := l]> (_handlers c)) c)
  = if decide (t = t') then l else handlers_of t' c.
Proof.
  unfold handlers_of. cbn. rewrite lookup_insert. by destruct (decide (t = t')).
Qed.

(** A persistent handler, called by [handle], leaves the registry and the
    waiters alone. *)
Lemma call_handler_persistent h cell fn oc :
  is_waiter h = false -> respects calm (call_handler h cell fn oc).
Proof.
  intros Hh. unfold call_handler. destruct h; [done|..];
    destruct fn, oc; respects_auto frame.
Qed.

Lemma completed_insert (c : Circuit) w w' wt cell :
  waiters c !! w' = Some wt ->
  completed w cell c \/ w = w' ->
  completed w cell
    (set_waiters (<[w' := {| _cell_types := _cell_types wt; _ev := true;
                             _read_cell := Some cell; _err_msg := _err_msg wt |}]>
                    (waiters c)) c).
Proof.
  intros Hw' H. unfold completed. cbn.
  destruct (decide (w = w')) as [->|Hne].
  - eexists. split; [apply list_lookup_insert_eq; by eapply lookup_lt_Some|done].
  - destruct H as [(wt0 & ? & ? & ?)|?]; [|done].
    exists wt0. by rewrite list_lookup_insert_ne.
Qed.

Lemma for_each_cons {A} (x : A) l (body : A -> Circ unit) (c : Circuit) :
  for_each (x :: l) body c =
    match body x c with
    | (c1, Ret _) => for_each l body c1
    | (c1, Raise e) => (c1, Raise e)
    end.
Proof. done. Qed.

Lemma call_handler_waiter_run (c : Circuit) w cell fn oc :
  call_handler (WaiterRef w) cell fn oc c =
    match waiters c !! w with
    | None => (c, Raise AttributeError)
    | Some wt =>
        let c1 := set_waiters (<[w := {| _cell_types := _cell_types wt; _ev := true;
                                         _read_cell := Some cell;
                                         _err_msg := _err_msg wt |}]>
                                 (waiters c)) c in
        match list_remove (WaiterRef w) (handlers_of (type_of cell) c) with
        | Some l' => (set_handlers (<[type_of cell := l']> (_handlers c)) c1, Ret tt)
        | None => (c1, Raise ValueError)
        end
    end.
Proof.
  unfold call_handler, bind. rewrite waiter_handler_run.
  destruct (waiters c !! w) as [wt|]; [|done].
  rewrite handlers_remove_run. cbn zeta.
  change (handlers_of (type_of cell) (set_waiters _ c)) with (handlers_of (type_of cell) c).
  by destruct (list_remove _ _).
Qed.

(** The loop of [handle] over the rest [todo] of its snapshot, [kept]
    being what the registry keeps of the part already done. *)
Lemma handle_loop cell fn oc todo : forall kept (c : Circuit),
  persistent kept = kept ->
  handlers_of (type_of cell) c = kept ++ todo ->
  let r := for_each todo (fun h => call_handler h cell fn oc) c in
  r.2 = Ret tt ->
  handlers_of (type_of cell) r.1 = kept ++ persistent todo
  /\ (forall t, t <> type_of cell -> handlers_of t r.1 = handlers_of t c)
  /\ (forall w, completed w cell c \/ WaiterRef w ∈ todo -> completed w cell r.1).
Proof.
  induction todo as [|h todo IH]; intros kept c Hkept Hc; cbn zeta.
  { cbn. intros _. split; [done|]. split; [done|]. intros w [?|Hw]; [done|].
    by apply elem_of_nil in Hw. }
  rewrite for_each_cons.
  destruct (is_waiter h) eqn:Hh.
  - destruct h as [w'| | |]; try done.
    rewrite call_handler_waiter_run.
    destruct (waiters c !! w') as [wt|] eqn:Hw'; [|done]. cbn zeta.
    rewrite Hc, list_remove_app.
    2:{ rewrite <-Hkept. unfold persistent. apply Forall_forall.
        intros k Hk%list_elem_of_filter. by intros ->; destruct Hk. }
    set (c1 := set_waiters _ c).
    set (c2 := set_handlers _ c1).
    intros Hret.
    destruct (IH kept c2 Hkept) as (H1 & H2 & H3).
    { subst c2. unfold handlers_of. cbn. by rewrite lookup_insert_eq. }
    { done. }
    split; [|split].
    + rewrite H1. unfold persistent at 2. by rewrite filter_cons_False by (cbn; congruence).
    + intros t Ht. rewrite (H2 t Ht). subst c2. unfold handlers_of. cbn.
      by rewrite lookup_insert_ne.
    + intros w Hw. apply H3. destruct Hw as [Hw|Hw].
      * left. apply (completed_insert c w w' wt cell Hw'). by left.
      * apply elem_of_cons in Hw as [[= ->]|Hw]; [|by right].
        left. apply (completed_insert c w' w' wt cell Hw'). by right.
  - pose proof (call_handler_persistent h cell fn oc Hh c) as (_ & Hhs & Hws & _).
    unfold same in *.
    destruct (call_handler h cell fn oc c) as [c1 [[]|e]]; cbn in *; [|done].
    intros Hret.
    destruct (IH (kept ++ [h]) c1) as (H1 & H2 & H3).
    { unfold persistent in *. rewrite filter_app, Hkept.
      by rewrite filter_cons_True, filter_nil. }
    { unfold handlers_of in *. by rewrite Hhs, Hc, <-app_assoc. }
    { done. }
    split; [|split].
    + rewrite H1, <-app_assoc. by rewrite decide_True by done.
    + intros t Ht. rewrite (H2 t Ht). unfold handlers_of. by rewrite Hhs.
    + intros w Hw. apply H3. destruct Hw as [Hw|Hw].
      * left. unfold completed in *. by rewrite Hws.
      * apply elem_of_cons in Hw as [Hw|Hw]; [|by right].
        subst h. discriminate Hh.
Qed.

(** C8 as the code has it: when [handle] returns, every waiter that was
    registered under the type of the dispatched cell has been handed the
    cell and is gone from the list of that type, so none of them is called
    for a later cell of that type; the lists of the other types are as
    before, so a waiter subscribed for several types is still registered
    under the others (until the scope of [create_waiter] ends). *)
Theorem handle_removes_waiters (c : Circuit) (cell : Cell) (from_node : option nat)
    (orig_cell : option RelayedTorCell) :
  let r := handle cell from_node orig_cell c in
  r.2 = Ret tt ->
  handlers_of (type_of cell) r.1 = persistent (handlers_of (type_of cell) c)
  /\ (forall t, t <> type_of cell -> handlers_of t r.1 = handlers_of t c)
  /\ (forall w, WaiterRef w ∈ handlers_of (type_of cell) c -> completed w cell r.1).
Proof.
  cbn zeta. unfold handle. unfold bind. cbn [gets].
  destruct (handlers_of (type_of cell) c) as [|h l] eqn:Hl.
  - intros _. split; [|split].
    + change (handlers_of (type_of cell) c = persistent []). by rewrite Hl.
    + done.
    + intros w Hw. by apply elem_of_nil in Hw.
  - intros Hret.
    destruct (handle_loop cell from_node orig_cell (h :: l) [] c eq_refl Hl Hret)
      as (H1 & H2 & H3).
    split; [done|]. split; [done|]. intros w Hw. apply H3. by right.
Qed.

(** ** A refused extend *)

#[local] Instance keeps_preorder (P : Circuit -> Prop) : PreOrder (keeps P).
Proof.
  split; [intros c Hc; exact Hc|]. intros a b c H1 H2 Ha. by apply H2, H1.
Qed.

Lemma forward_destroyed (c c' : Circuit) :
  forward c c' -> _state c = Destroyed -> _state c' = Destroyed.
Proof. intros [->|[_ ->]]; done. Qed.

Lemma awaiting_calm w (c c' : Circuit) : calm c c' -> keeps (awaiting w) c c'.
Proof.
  intros (_ & Hh & Hw & Hf & _) (Hhead & wt & Hwt & Herr & Hread). unfold same in *.
  split; [unfold handlers_of in *; by rewrite Hh|].
  exists wt. rewrite Hw. split; [done|]. split; [done|].
  intros reason Hr. eapply forward_destroyed; [done|]. by eapply Hread.
Qed.

Lemma torn_calm cell (c c' : Circuit) : calm c c' -> keeps (torn cell) c c'.
Proof.
  intros (_ & _ & _ & Hf & _) Ht Hcell. eapply forward_destroyed; [done|]. by apply Ht.
Qed.

Lemma awaiting_quiet_respects w {A} (m : Circ A) :
  respects quiet m -> respects (keeps (awaiting w)) m.
Proof. intros Hm c. apply awaiting_calm, quiet_calm, Hm. Qed.

(** One turn of the loop of [handle]. *)
Lemma call_handler_awaiting w h cell fn oc (c : Circuit) :
  awaiting w c -> torn cell c ->
  awaiting w (call_handler h cell fn oc c).1 /\ torn cell (call_handler h cell fn oc c).1.
Proof.
  intros Ha Ht. destruct (is_waiter h) eqn:Hh.
  - destruct h as [w'| | |]; try done. rewrite call_handler_waiter_run.
    destruct (waiters c !! w') as [wt'|] eqn:Hw'; [|done]. cbn zeta.
    set (c1 := set_waiters _ c).
    assert (awaiting w c1 /\ torn cell c1) as [Ha1 Ht1].
    { split; [|done]. destruct Ha as (Hhead & wt & Hwt & Herr & Hread).
      split; [done|]. subst c1. cbn. destruct (decide (w = w')) as [->|Hne].
      - eexists. split; [apply list_lookup_insert_eq; by eapply lookup_lt_Some|].
        cbn. split; [congruence|]. intros reason [= ->]. by apply Ht.
      - exists wt. by rewrite list_lookup_insert_ne. }
    destruct (list_remove _ _) as [l'|] eqn:Hl; [|done]. cbn [fst].
    split; [|done]. destruct Ha1 as (Hhead & Hrest). split; [|done].
    unfold handlers_of. cbn. destruct (decide (type_of cell = CellRelayTruncated)) as [He|Hne].
    + rewrite He in *. rewrite lookup_insert_eq. cbn.
      apply head_Some in Hhead as [tl Htl].
      change (handlers_of CellRelayTruncated c1) with (handlers_of CellRelayTruncated c) in Htl.
      rewrite Htl in Hl. cbn in Hl. rewrite decide_False in Hl by done.
      destruct (list_remove _ tl); by simplify_eq/=.
    + by rewrite lookup_insert_ne.
  - pose proof (call_handler_persistent h cell fn oc Hh c) as Hc.
    split; [by eapply awaiting_calm|by eapply torn_calm].
Qed.

Lemma handle_loop_awaiting w cell fn oc l : forall c : Circuit,
  awaiting w c -> torn cell c ->
  awaiting w (for_each l (fun h => call_handler h cell fn oc) c).1.
Proof.
  induction l as [|h l IH]; intros c Ha Ht; [done|].
  rewrite for_each_cons.
  destruct (call_handler_awaiting w h cell fn oc c Ha Ht) as [Ha1 Ht1].
  destruct (call_handler h cell fn oc c) as [c1 [[]|e]]; [|done].
  by apply IH.
Qed.

(** A successful [_on_truncated] leaves the circuit destroyed. *)
Lemma _on_truncated_returns cell i oc (c : Circuit) :
  (_on_truncated cell i oc c).2 = Ret tt -> _state (_on_truncated cell i oc c).1 = Destroyed.
Proof.
  unfold _on_truncated, guard_destroy_circuit. unfold bind.
  destruct cell; try done. run.
  destruct (_guard c); [|done]. apply destroy_returns.
Qed.

Lemma handle_awaiting w cell fn oc : respects (keeps (awaiting w)) (handle cell fn oc).
Proof.
  intros c Ha. unfold handle. unfold bind. cbn [gets].
  destruct (handlers_of (type_of cell) c) as [|h l] eqn:Hl.
  { revert Ha. by apply awaiting_calm, quiet_calm, logger_quiet. }
  destruct (decide (type_of cell = CellRelayTruncated)) as [He|Hne].
  - pose proof Ha as (Hhead & _). rewrite <-He, Hl in Hhead. injection Hhead as ->.
    rewrite for_each_cons.
    pose proof (call_handler_persistent OnTruncated cell fn oc eq_refl c) as Hc.
    pose proof (awaiting_calm w _ _ Hc Ha) as Ha1.
    assert ((call_handler OnTruncated cell fn oc c).2 = Ret tt ->
            _state (call_handler OnTruncated cell fn oc c).1 = Destroyed) as Hd.
    { unfold call_handler. destruct fn, oc; try done. apply _on_truncated_returns. }
    destruct (call_handler OnTruncated cell fn oc c) as [c1 [[]|e]]; [|done].
    apply handle_loop_awaiting; [done|]. intros _. by apply Hd.
  - apply handle_loop_awaiting; [done|]. by intros ?.
Qed.

#[local] Hint Resolve handle_awaiting : frame.
#[local] Hint Extern 8 (respects (keeps (awaiting _)) _) =>
  apply awaiting_quiet_respects; solve [eauto with frame] : frame.

Lemma recv_dispatch_awaiting w i : respects (keeps (awaiting w)) (recv_dispatch i).
Proof. unfold recv_dispatch, handle_cell, handle_relay. respects_auto frame. Qed.

Lemma recv_dispatch_returns i (c : Circuit) : (recv_dispatch i c).2 = Ret tt.
Proof.
  unfold recv_dispatch. run.
  destruct (match i with InCell c0 => handle_cell c0 | InRelay rc => handle_relay rc end _)
    as [c1 [[]|e]]; done.
Qed.

Lemma receive_all_returns inbound (c : Circuit) :
  (for_each inbound recv_dispatch c).2 = Ret tt.
Proof.
  revert c. induction inbound as [|i inbound IH]; intros c; [done|].
  rewrite for_each_cons. pose proof (recv_dispatch_returns i c) as Hr.
  destruct (recv_dispatch i c) as [c1 [[]|e]]; [apply IH|done].
Qed.

Lemma receive_all_awaiting w inbound :
  respects (keeps (awaiting w)) (for_each inbound recv_dispatch).
Proof. respects_auto frame. apply recv_dispatch_awaiting. Qed.

#[local] Instance registry_only_preorder : PreOrder registry_only.
Proof.
  split; [by intros c|].
  intros a b c H1 H2. unfold registry_only, same in *. intuition congruence.
Qed.

Lemma unsubscribe_for_registry ts h : respects registry_only (unsubscribe_for ts h).
Proof.
  unfold unsubscribe_for, _unsubscribe_for_cell.
  respects_auto frame; by destruct (list_remove _ _).
Qed.

Lemma unsubscribe_for_returns ts h (c : Circuit) : (unsubscribe_for ts h c).2 = Ret tt.
Proof.
  unfold unsubscribe_for. destruct ts as [t|ts]; [done|].
  revert c. induction ts as [|t ts IH]; intros c; [done|].
  rewrite for_each_cons. unfold _unsubscribe_for_cell at 1. run. apply IH.
Qed.

Lemma subscribe_for_registry ts h : respects registry_only (subscribe_for ts h).
Proof. unfold subscribe_for, _subscribe_for_cell. by respects_auto frame. Qed.

Lemma subscribe_for_returns ts h (c : Circuit) : (subscribe_for ts h c).2 = Ret tt.
Proof.
  unfold subscribe_for. destruct ts as [t|ts]; [done|].
  revert c. induction ts as [|t ts IH]; intros c; [done|].
  rewrite for_each_cons. unfold _subscribe_for_cell at 1. run. apply IH.
Qed.

(** [create_waiter] as a function of what its body does. *)
Lemma create_waiter_run {A} ts (body : nat -> Circ A) (c : Circuit) :
  let w := length (waiters c) in
  let c0 := (subscribe_for ts (WaiterRef w)
               (set_waiters (waiters c ++ [new_waiter ts])
                  (set_log (log c ++ [(DEBUG, "Create waiter for %r")]) c))).1 in
  create_waiter ts body c =
    match body w c0 with
    | (c1, Ret a) => ((unsubscribe_for ts (WaiterRef w) c1).1, Ret a)
    | (c1, Raise e) => (c1, Raise e)
    end.
Proof.
  cbn zeta. unfold create_waiter. run.
  pose proof (subscribe_for_returns ts (WaiterRef (length (waiters c)))
                (set_waiters (waiters c ++ [new_waiter ts])
                   (set_log (log c ++ [(DEBUG, "Create waiter for %r")]) c))) as Hs.
  destruct (subscribe_for _ _ _) as [c0 [[]|e]]; [|done]. cbn.
  destruct (body _ c0) as [c1 [a|e]]; [|done].
  pose proof (unsubscribe_for_returns ts (WaiterRef (length (waiters c))) c1) as Hu.
  by destruct (unsubscribe_for _ _ c1) as [c2 [[]|e]].
Qed.

Lemma waiter_get_run w inbound (c : Circuit) :
  let c1 := (for_each inbound recv_dispatch c).1 in
  waiter_get w inbound c =
    (c1, match waiters c1 !! w with
         | None => Raise AttributeError
         | Some wt =>
             if negb (_ev wt) then Raise (CellTimeoutError (_cell_types wt))
             else match _err_msg wt with
                  | Some (String a m) => Raise (Exception (WaiterError (String a m)))
                  | _ => Ret (_read_cell wt)
                  end
         end).
Proof.
  cbn zeta. unfold waiter_get. unfold bind.
  pose proof (receive_all_returns inbound c) as Hr.
  destruct (for_each inbound recv_dispatch c) as [c1 [[]|e]]; [|done]. run.
  destruct (waiters c1 !! w) as [wt|]; [|done].
  destruct (_ev wt); [|done]. cbn. by destruct (_err_msg wt) as [[|]|].
Qed.

Lemma _send_relay_needs_nodes inner rt sid (c : Circuit) :
  (_send_relay inner rt sid c).2 = Ret tt -> is_Some (_circuit_nodes c).
Proof.
  unfold _send_relay, _encrypt, circuit_nodes. run.
  destruct (_circuit_nodes c); [by eexists|done].
Qed.

(** What a caller of [_send_relay_wait] for EXTENDED2 or TRUNCATED gets
    when its waiter has been completed. *)
Lemma _send_relay_wait_reply inner rt sid inbound (c : Circuit) wt :
  head (handlers_of CellRelayTruncated c) = Some OnTruncated ->
  let r := _send_relay_wait inner (Many [CellRelayExtended2; CellRelayTruncated])
             rt sid inbound c in
  waiters r.1 !! length (waiters c) = Some wt -> _ev wt = true ->
  r.2 = Ret (_read_cell wt)
  /\ is_Some (_circuit_nodes c)
  /\ (forall reason, _read_cell wt = Some (RelayTruncated reason) -> _state r.1 = Destroyed).
Proof.
  intros Hhead. cbn zeta. unfold _send_relay_wait. rewrite create_waiter_run. cbn zeta.
  set (ts := Many [CellRelayExtended2; CellRelayTruncated]).
  set (w := length (waiters c)).
  set (c00 := set_waiters _ _).
  pose proof (subscribe_for_registry ts (WaiterRef w) c00) as (Hw0 & Hs0 & Hn0).
  assert (handlers_of CellRelayTruncated (subscribe_for ts (WaiterRef w) c00).1
          = handlers_of CellRelayTruncated c ++ [WaiterRef w]) as Hh0.
  { unfold subscribe_for, _subscribe_for_cell, handlers_of. run.
    by rewrite lookup_insert_eq, lookup_insert_ne. }
  set (c0 := (subscribe_for ts (WaiterRef w) c00).1) in *.
  unfold same in Hw0, Hs0, Hn0.
  assert (waiters c0 !! w = Some (new_waiter ts)) as Hnew.
  { rewrite Hw0. subst c00 w. cbn. rewrite lookup_app_r by done.
    by rewrite Nat.sub_diag. }
  assert (awaiting w c0) as Ha0.
  { split.
    - rewrite Hh0. apply head_app_Some. by left.
    - by exists (new_waiter ts). }
  unfold bind.
  pose proof (_send_relay_quiet inner rt sid c0) as Hq.
  pose proof (_send_relay_needs_nodes inner rt sid c0) as Hnodes.
  destruct (_send_relay inner rt sid c0) as [c1 [[]|e]]; cbn [fst snd] in *.
  2:{ intros Hwt Hev. destruct Hq as (_ & _ & Hw1 & _). unfold same in Hw1.
      rewrite Hw1, Hnew in Hwt. injection Hwt as <-. done. }
  run. set (c2 := set_log _ c1).
  assert (awaiting w c1) as Ha1
    by (apply (awaiting_calm w c0 c1); [by apply quiet_calm|done]).
  assert (awaiting w c2) as Ha2.
  { apply (awaiting_calm w c1 c2); [|done].
    apply quiet_calm, (logger_quiet DEBUG "Getting response..." c1). }
  rewrite waiter_get_run. cbn zeta.
  pose proof (receive_all_awaiting w inbound c2 Ha2) as Ha3.
  set (c3 := (for_each inbound recv_dispatch c2).1) in *.
  destruct Ha3 as (_ & wt3 & Hwt3 & Herr3 & Hread3). rewrite Hwt3.
  destruct (_ev wt3) eqn:Hev3; cbn [negb].
  - rewrite Herr3.
    pose proof (unsubscribe_for_registry ts (WaiterRef w) c3) as (Hw4 & Hs4 & _).
    unfold same in *. cbn [fst snd]. rewrite Hw4, Hwt3. intros [= <-] _.
    split; [done|]. split.
    + specialize (Hnodes eq_refl). rewrite Hn0 in Hnodes. exact Hnodes.
    + intros reason Hr. rewrite Hs4. by eapply Hread3.
  - cbn [fst snd]. rewrite Hwt3. intros [= <-]. congruence.
Qed.

Lemma complete_handshake_skinned r ht (n : CircuitNode Collab) skin hd :
  create_onion_skin (new_node r ht) = Ret (n, skin) ->
  match complete_handshake n hd with
  | Ret node => router node = r /\ handshake_type node = ht /\ keyed node
  | Raise e => e = HandshakeError
  end.
Proof.
  unfold create_onion_skin, complete_handshake, key_agreement. cbn.
  destruct ht; cbn; [|done|]; intros [= <- _]; cbn;
    (destruct (ka_complete_handshake _ hd); [|done]); cbn; (split; [done|]);
    (split; [done|]); by eexists.
Qed.

(** C4 as the code has it.  Take a circuit on which [_on_truncated] is the
    first RELAY_TRUNCATED handler, as after [create], and a call of
    [extend] whose waiter has been completed.  If the waiter holds
    RELAY_TRUNCATED, [extend] raises CircuitExtendError with its reason and
    no node has been appended, but the circuit is Destroyed, not
    Connected: the same cell went to [_on_truncated] first, which had the
    guard destroy the circuit.  If it holds RELAY_EXTENDED2, the key
    agreement that gave the onion skin decides: when it completes the
    handshake on the cell's data, [extend] returns and the node appended
    is the one for the requested router with the crypto state of the
    shared secret; when it rejects the data, [extend] raises
    HandshakeError and nothing is appended. *)
Theorem extend_reply (c : Circuit) (next_onion_router : Router) (ht : TorHandshakeType)
    (inbound : list Inbound) (wt : Waiter) :
  head (handlers_of CellRelayTruncated c) = Some OnTruncated ->
  let r := extend next_onion_router ht inbound c in
  waiters r.1 !! length (waiters c) = Some wt -> _ev wt = true ->
  match _read_cell wt with
  | Some (RelayTruncated reason) =>
      r.2 = Raise (CircuitExtendError reason)
      /\ routers r.1 = routers c
      /\ _state r.1 = Destroyed
  | Some (RelayExtended2 handshake_data) =>
      match _get_key_agreement next_onion_router ht with
      | Ret ka =>
          match ka_complete_handshake ka handshake_data with
          | Some shared_secret =>
              r.2 = Ret tt
              /\ exists ns,
                   _circuit_nodes r.1
                   = Some (ns ++ [extended_node next_onion_router ht ka shared_secret])
                   /\ routers c = Some (map router ns)
          | None => r.2 = Raise HandshakeError /\ routers r.1 = routers c
          end
      | Raise _ => False
      end
  | _ => True
  end.
Proof.
  intros Hhead. cbn zeta. unfold extend, check_connected. run.
  assert (forall c' : Circuit, waiters c' = waiters c ->
            waiters c' !! length (waiters c) = Some wt -> False) as Hfresh.
  { intros c' -> Hl. apply lookup_lt_Some in Hl. lia. }
  case_bool_decide as Hst; run; [|by intros Hl; apply Hfresh in Hl].
  unfold create_onion_skin, key_agreement. cbn.
  destruct (_get_key_agreement next_onion_router ht) as [ka|e] eqn:Hka; run;
    [|by intros Hl; apply Hfresh in Hl].
  set (n0 := set_key_agreement _ _). set (inner := RelayExtend2 _ _ _ _).
  match goal with
  | |- context [_send_relay_wait _ _ _ _ _ ?s] => set (ca := s)
  end.
  pose proof (_send_relay_wait_reply inner (Some OuterRelayEarly) 0 inbound ca wt) as Hreply.
  specialize (Hreply Hhead). cbn zeta in Hreply.
  pose proof (_send_relay_wait_steady inner (Many [CellRelayExtended2; CellRelayTruncated])
                (Some OuterRelayEarly) 0 inbound ca) as (_ & _ & _ & _ & Hrt).
  unfold same in Hrt. change (routers ca) with (routers c) in Hrt.
  change (length (waiters ca)) with (length (waiters c)) in Hreply.
  destruct (_send_relay_wait inner _ _ _ inbound ca) as [c1 [recv|e]]; cbn [fst snd] in *.
  2:{ intros Hwt Hev. by destruct (Hreply Hwt Hev) as [? _]. }
  destruct recv as [[]|]; run; intros Hwt Hev;
    try (destruct (Hreply Hwt Hev) as ([= <-] & _); exact I).
  - (* RELAY_EXTENDED2 *)
    unfold complete_handshake, key_agreement in *. cbn in *.
    destruct (ka_complete_handshake ka handshake_data) as [secret|] eqn:Hsecret; cbn in *.
    + assert (waiters c1 !! length (waiters c) = Some wt) as Hwt1
        by (by destruct (_circuit_nodes c1)).
      destruct (Hreply Hwt1 Hev) as ([= <-] & [ns Hns] & _). rewrite Hsecret.
      unfold routers in Hrt. rewrite Hns in Hrt. cbn in Hrt.
      destruct (_circuit_nodes c1) as [l|] eqn:Hl; [|done]. cbn in *.
      injection Hrt as Hrt. split; [done|]. exists l.
      split; [done|]. unfold routers. by rewrite Hns, Hrt.
    + destruct (Hreply Hwt Hev) as ([= <-] & _). by rewrite Hsecret.
  - (* RELAY_TRUNCATED *)
    destruct (Hreply Hwt Hev) as ([= <-] & _ & Hd). split; [done|]. split; [done|].
    by eapply Hd.
Qed.

(** * Beyond the claims *)

(** Unfolds the operation at the head of a goal [respects R m]. *)
Ltac respects_unfold :=
  lazymatch goal with
  | |- respects _ ?m =>
      let rec head t := lazymatch t with ?f _ => head f | _ => t end in
      let h := head m in unfold h
  end.

(** Takes [respects R m] apart down to the primitive updates, going
    through the operations that have no lemma in [db]. *)
Ltac respects_deep db :=
  repeat first [ solve [eauto with db] | respects_step | respects_unfold ].

(** ** The shape of a circuit *)

#[local] Instance grows_preorder : PreOrder grows.
Proof.
  split.
  - intros c. split; [by left|]. exists []. destruct (routers c); cbn; [|done].
    by rewrite app_nil_r.
  - intros a b c [F1 [e1 H1]] [F2 [e2 H2]]. split; [by etrans|].
    exists (e1 ++ e2). rewrite H2, H1. destruct (routers a); cbn; [|done].
    by rewrite app_assoc.
Qed.

Lemma steady_grows (c c' : Circuit) : steady c c' -> grows c c'.
Proof.
  intros (_ & Hf & _ & _ & Hr). split; [done|]. exists []. rewrite Hr.
  destruct (routers c); cbn; [|done]. by rewrite app_nil_r.
Qed.

Create HintDb growth.

#[local] Hint Extern 8 (respects grows _) =>
  apply (respects_weaken steady grows _ steady_grows); solve [eauto with frame] : growth.

(** [self._circuit_nodes.append(node)]. *)
Lemma append_node_grows (node : CircuitNode Collab) :
  respects grows
    (let* ns := gets _circuit_nodes in
     match ns with
     | Some l => modify (set_nodes (Some (l ++ [node])))
     | None => raise AttributeError
     end).
Proof.
  intros c. run. destruct (_circuit_nodes c) as [l|] eqn:Hl; [|reflexivity].
  split; [by left|]. exists [router node]. unfold routers. cbn. rewrite Hl. cbn.
  by rewrite map_app.
Qed.

#[local] Hint Resolve append_node_grows : growth.

Lemma extend_grows r ht inbound : respects grows (extend r ht inbound).
Proof. respects_deep growth. Qed.

(** One turn of the loop over the introductions. *)
Lemma introduction_run hs (connect : Res (CircuitNode Collab)) (c : Circuit) :
  try_except
    (let* extend_node := lift connect in
     let* ns := gets _circuit_nodes in
     match ns with
     | Some l => modify (set_nodes (Some (l ++ [extend_node])))
     | None => raise AttributeError
     end >>
     modify (set_associated_hs (Some hs)) >>
     ret true)
    (fun _ => logger ERROR "Some errors" >> ret false) c
  = match connect, _circuit_nodes c with
    | Ret node, Some l =>
        (set_associated_hs (Some hs) (set_nodes (Some (l ++ [node])) c), Ret true)
    | _, _ => (set_log (log c ++ [(ERROR, "Some errors")]) c, Ret false)
    end.
Proof. run. destruct connect; cbn; [|done]. by destruct (_circuit_nodes c). Qed.

Lemma try_introductions_grows hs l : respects grows (try_introductions hs l).
Proof.
  induction l as [|x l IH]; cbn; [respects_deep growth|].
  respects_step; [|respects_deep growth].
  intros c. rewrite introduction_run.
  destruct x as [node|e]; [destruct (_circuit_nodes c) as [ns|] eqn:Hns|]; cbn.
  - split; [by left|]. exists [router node]. unfold routers. cbn. rewrite Hns. cbn.
    by rewrite map_app.
  - apply steady_grows, calm_steady, quiet_calm, logger_quiet.
  - apply steady_grows, calm_steady, quiet_calm, logger_quiet.
Qed.

#[local] Hint Resolve extend_grows try_introductions_grows : growth.

Lemma try_responsible_dirs_grows hs dirs : respects grows (try_responsible_dirs hs dirs).
Proof. induction dirs as [|d dirs IH]; cbn; respects_deep growth. Qed.

#[local] Hint Resolve try_responsible_dirs_grows : growth.

Lemma extend_to_hidden_grows hs inbound dirs :
  respects grows (extend_to_hidden hs inbound dirs).
Proof. respects_deep growth. Qed.

Lemma build_hops_loop_grows hops choices : respects grows (build_hops_loop hops choices).
Proof. induction choices as [|ch choices IH]; cbn; respects_deep growth. Qed.

#[local] Hint Resolve extend_to_hidden_grows build_hops_loop_grows : growth.

Lemma build_hops_grows hops choices : respects grows (build_hops hops choices).
Proof. respects_deep growth. Qed.

Lemma shaped_grows (c c' : Circuit) : grows c c' -> shaped c -> shaped c'.
Proof.
  intros [Hf [extra Hr]] Hs. unfold shaped, routers in *.
  destruct Hf as [Hf|[Hne Hf]]; rewrite Hf.
  - destruct (_state c).
    + rewrite Hs in Hr. by destruct (_circuit_nodes c').
    + destruct Hs as (n & ns & Hs). rewrite Hs in Hr.
      destruct (_circuit_nodes c') as [[|n' ns']|]; cbn in *; [done|by eauto|done].
    + destruct Hs as (n & ns & Hs). rewrite Hs in Hr.
      destruct (_circuit_nodes c') as [[|n' ns']|]; cbn in *; [done|by eauto|done].
  - destruct (_state c); [done|..];
      destruct Hs as (n & ns & Hs); rewrite Hs in Hr;
      (destruct (_circuit_nodes c') as [[|n' ns']|]; cbn in *; [done|by eauto|done]).
Qed.

Lemma _initialize_node r inbound (c : Circuit) ns :
  (_initialize r inbound c).2 = Ret ns ->
  exists n, ns = [n] /\ router n = r /\ handshake_type n = NTOR /\ keyed n.
Proof.
  unfold _initialize. run.
  destruct (_send_wait _ _ inbound _) as [c1 [[cell|]|e]]; run; try done.
  destruct cell; run; try done.
  destruct (ka_complete_handshake _ _); run; [|done].
  intros [= <-]. eexists. split; [done|]. split; [done|]. split; [done|]. by eexists.
Qed.

Lemma create_shaped guard inbound (c : Circuit) :
  shaped c -> shaped (create guard inbound c).1.
Proof.
  intros Hs. pose proof (create_state guard inbound c) as Hc.
  destruct (_state c) eqn:Hst; [|by rewrite Hc..].
  destruct (create guard inbound c) as [c' [[]|e]] eqn:Hcr; cbn in *.
  - unfold shaped. rewrite Hc. revert Hcr. unfold create. run. rewrite Hst.
    rewrite bool_decide_eq_true_2 by done. run.
    pose proof (_initialize_node (_router c) inbound c) as Hn.
    destruct (_initialize _ _ c) as [c1 [ns|e]]; cbn; [|done].
    destruct (Hn ns eq_refl) as (n & -> & _).
    unfold subscribe_for, _subscribe_for_cell. run. intros [= <-]. by eauto.
  - unfold shaped. rewrite Hc. revert Hcr. unfold create. run. rewrite Hst.
    rewrite bool_decide_eq_true_2 by done. run.
    pose proof (_initialize_steady (_router c) inbound c) as (_ & _ & _ & _ & Hr).
    unfold same, routers, shaped in *. rewrite Hst in Hs. rewrite Hs in Hr.
    destruct (_initialize _ _ c) as [c1 [ns|e0]]; cbn in *.
    + unfold subscribe_for, _subscribe_for_cell. by run.
    + intros [= <- _]. by destruct (_circuit_nodes c1).
Qed.

Lemma run_shaped (op : Op) (c : Circuit) : shaped c -> shaped (run op c).1.
Proof.
  destruct op; cbn [run].
  - apply create_shaped.
  - apply shaped_grows, steady_grows, calm_steady, destroy_calm.
  - apply shaped_grows, extend_grows.
  - apply shaped_grows, extend_to_hidden_grows.
  - apply shaped_grows, steady_grows, calm_steady, quiet_calm, close_stream_quiet.
  - apply shaped_grows, steady_grows, calm_steady, quiet_calm, close_all_streams_quiet.
  - apply shaped_grows, steady_grows, handle_cell_steady.
  - apply shaped_grows, steady_grows, handle_relay_steady.
  - apply shaped_grows, steady_grows, recv_dispatch_steady.
Qed.

Lemma waiter_set_error_steady w msg : respects steady (waiter_set_error w msg).
Proof. unfold waiter_set_error. respects_auto frame. footprint. Qed.

Lemma act_shaped (a : Action) (c : Circuit) : shaped c -> shaped (act a c).
Proof.
  destruct a; cbn [act].
  - apply run_shaped.
  - apply shaped_grows, build_hops_grows.
  - apply shaped_grows, steady_grows, waiter_set_error_steady.
Qed.

(** X1: whatever is done with a circuit from its construction on, it has
    no nodes while its state is Unknown and at least one node once the
    state is Connected or Destroyed; so a destroyed circuit keeps its
    nodes. *)
Theorem circuit_shape (id : Z) (r : Router) (l : list Action) :
  shaped (act_all l (new_circuit id r)).
Proof.
  assert (forall l (c : Circuit), shaped c -> shaped (act_all l c)) as Hall.
  { clear l. induction l as [|a l IH]; intros c Hc; [done|].
    cbn. by apply IH, act_shaped. }
  by apply Hall.
Qed.

(** ** Every node has its keys *)

Create HintDb keys.

(** A step that writes no field the property reads. *)
Ltac untouched := let H := fresh in intros H; repeat case_match; exact H.

#[local] Hint Extern 1 (keeps _ _ _) => untouched : keys.

Lemma decrypt_loop_keyed i ns rc fn :
  Forall keyed ns -> Forall keyed (decrypt_loop i ns rc fn).1.1.1.1.
Proof.
  revert i rc fn. induction ns as [|n ns IH]; intros i rc fn Hk; [done|].
  apply Forall_cons in Hk as [Hn Hk]. cbn.
  destruct (is_encrypted rc); cbn; [|by constructor].
  rewrite (decrypt_backward_keyed _ _ Hn).
  specialize (IH (S i) (dec n rc) (Some i) Hk).
  destruct (decrypt_loop _ ns _ _) as [[[[ns' rc'] fn'] logs] e]. cbn in *.
  constructor; [by apply dec_node_keyed|done].
Qed.

Lemma _encrypt_well_keyed rc : respects (keeps well_keyed) (_encrypt rc).
Proof.
  intros c Hk. destruct (is_encrypted rc) eqn:Hrc.
  - unfold _encrypt. rewrite Hrc. by run.
  - destruct (_circuit_nodes c) as [ns|] eqn:Hns.
    + rewrite (_encrypt_keyed c ns rc Hns (Hk ns Hns) Hrc). cbn.
      intros ns' [= <-]. by apply nest_nodes_keyed, Hk.
    + unfold _encrypt, circuit_nodes. rewrite Hrc. run. by rewrite Hns.
Qed.

Lemma _decrypt_well_keyed rc : respects (keeps well_keyed) (_decrypt rc).
Proof.
  intros c Hk. unfold _decrypt, circuit_nodes. run.
  destruct (is_encrypted rc); cbn; [|done].
  destruct (_circuit_nodes c) as [ns|] eqn:Hns; cbn; [|done].
  pose proof (decrypt_loop_keyed 0 ns rc None (Hk ns Hns)) as Hd.
  destruct (decrypt_loop _ _ _ _) as [[[[ns' rc'] fn] logs] e]. cbn in Hd.
  assert (well_keyed (set_log (log c ++ logs) (set_nodes (Some ns') c))) as Hq
    by (by intros ns0 [= <-]).
  destruct e; [done|]. by destruct (get_decrypted rc').
Qed.

Lemma set_node_window_well_keyed i w : respects (keeps well_keyed) (set_node_window i w).
Proof.
  intros c Hk. unfold set_node_window, circuit_nodes. run.
  destruct (_circuit_nodes c) as [ns|] eqn:Hns; cbn; [|done].
  destruct (ns !! i) as [n|] eqn:Hi; cbn; [|done].
  intros ns' [= <-]. apply insert_keyed; [by apply Hk|].
  apply set_window_keyed. by eapply (Forall_lookup_1 keyed ns), Hi; apply Hk.
Qed.

Lemma complete_handshake_keyed (n n' : CircuitNode Collab) hd :
  complete_handshake n hd = Ret n' -> keyed n'.
Proof.
  unfold complete_handshake. destruct (key_agreement n) as [[n1 ka]|]; [|done].
  destruct (ka_complete_handshake ka hd); [|done]. intros [= <-]. by eexists.
Qed.

Lemma append_handshaken_well_keyed (n : CircuitNode Collab) hd :
  respects (keeps well_keyed)
    (let* extend_node := lift (complete_handshake n hd) in
     let* ns := gets _circuit_nodes in
     match ns with
     | Some l => modify (set_nodes (Some (l ++ [extend_node])))
     | None => raise AttributeError
     end).
Proof.
  intros c Hk. run.
  destruct (complete_handshake n hd) as [n'|e] eqn:Hn; cbn; [|done].
  destruct (_circuit_nodes c) as [l|] eqn:Hl; cbn; [|done].
  intros ns' [= <-]. apply Forall_app. split; [by apply Hk|].
  constructor; [by eapply complete_handshake_keyed|done].
Qed.

#[local] Hint Resolve _encrypt_well_keyed _decrypt_well_keyed set_node_window_well_keyed
  append_handshaken_well_keyed : keys.

Lemma recv_dispatch_well_keyed i : respects (keeps well_keyed) (recv_dispatch i).
Proof. respects_deep keys. Qed.

#[local] Hint Resolve recv_dispatch_well_keyed : keys.

Lemma extend_well_keyed r ht inbound : respects (keeps well_keyed) (extend r ht inbound).
Proof. respects_deep keys. Qed.

#[local] Hint Resolve extend_well_keyed : keys.

Lemma build_hops_loop_well_keyed hops choices :
  respects (keeps well_keyed) (build_hops_loop hops choices).
Proof. induction choices as [|ch choices IH]; cbn; respects_deep keys. Qed.

#[local] Hint Resolve build_hops_loop_well_keyed : keys.

Lemma _initialize_well_keyed r inbound : respects (keeps well_keyed) (_initialize r inbound).
Proof. respects_deep keys. Qed.

Lemma create_well_keyed guard inbound : respects (keeps well_keyed) (create guard inbound).
Proof.
  intros c Hk. unfold create. run.
  case_bool_decide; run; [|done].
  pose proof (_initialize_node (_router c) inbound c) as Hn.
  pose proof (_initialize_well_keyed (_router c) inbound c Hk) as Hk1.
  destruct (_initialize _ _ c) as [c1 [ns|e]]; cbn in *; [|done].
  destruct (Hn ns eq_refl) as (n & -> & _ & _ & Hkn).
  unfold subscribe_for, _subscribe_for_cell. run.
  intros ns [= <-]. by constructor.
Qed.

Lemma try_introductions_well_keyed hs l :
  Forall (fun r => match r with Ret n => keyed n | Raise _ => True end) l ->
  respects (keeps well_keyed) (try_introductions hs l).
Proof.
  induction 1 as [|connect l Hc Hl IH]; cbn [try_introductions]; [respects_deep keys|].
  intros c Hk. unfold bind at 1. rewrite introduction_run.
  destruct connect as [node|e]; [destruct (_circuit_nodes c) as [ns|] eqn:Hns|]; cbn.
  - intros ns' [= <-]. apply Forall_app. split; [by apply Hk|by constructor].
  - by apply IH.
  - by apply IH.
Qed.

Lemma try_responsible_dirs_well_keyed hs dirs :
  Forall (fun d => Forall (fun r => match r with Ret n => keyed n | Raise _ => True end)
                     (introductions d)) dirs ->
  respects (keeps well_keyed) (try_responsible_dirs hs dirs).
Proof.
  induction 1 as [|d dirs Hd Hdirs IH]; cbn [try_responsible_dirs]; [respects_deep keys|].
  pose proof (try_introductions_well_keyed hs _ Hd). respects_deep keys.
Qed.

Lemma run_well_keyed op : keyed_op op -> respects (keeps well_keyed) (run op).
Proof.
  destruct op; cbn [run keyed_op]; intros Hop;
    try (pose proof (try_responsible_dirs_well_keyed hs dirs Hop));
    try apply create_well_keyed; respects_deep keys.
Qed.

(** X2: every node the circuit holds has its key agreement completed, and
    nothing that is done with the circuit changes that, provided the
    nodes the hidden-service connector hands over have theirs. *)
Theorem nodes_stay_keyed (id : Z) (r : Router) (l : list Action) :
  Forall keyed_action l ->
  well_keyed (act_all l (new_circuit id r)).
Proof.
  assert (forall l (c : Circuit), Forall keyed_action l -> well_keyed c ->
            well_keyed (act_all l c)) as Hall.
  { clear l. induction l as [|a l IH]; intros c Hl Hc; [done|].
    apply Forall_cons in Hl as [Ha Hl]. cbn. apply IH; [done|].
    destruct a as [op| |]; cbn [act].
    - by apply run_well_keyed.
    - revert Hc. generalize c. change (respects (keeps well_keyed) (build_hops hops_count choices)).
      respects_deep keys.
    - revert Hc. generalize c. change (respects (keeps well_keyed) (waiter_set_error w err_msg)).
      respects_deep keys. }
  intros Hl. by apply Hall.
Qed.

(** ** Extending *)

Lemma check_connected_refuses {A} (fn : Circ A) (c : Circuit) :
  _state c <> Connected ->
  check_connected fn c = (c, Raise (AssertionError "Circuit must be connected first")).
Proof. intros Hst. unfold check_connected. run. by rewrite bool_decide_eq_false_2. Qed.

Lemma extend_appends (c : Circuit) (r : Router) (ht : TorHandshakeType)
    (inbound : list Inbound) :
  let res := extend r ht inbound c in
  match res.2 with
  | Ret _ =>
      exists ns node,
        _circuit_nodes res.1 = Some (ns ++ [node])
        /\ routers c = Some (map router ns)
        /\ router node = r /\ handshake_type node = ht /\ keyed node
  | Raise e => routers res.1 = routers c
  end.
Proof.
  cbn zeta. unfold extend, check_connected. run.
  case_bool_decide as Hst; run; [|done].
  destruct (create_onion_skin (new_node r ht)) as [[n0 skin]|e] eqn:Hskin; run; [|done].
  set (inner := RelayExtend2 _ _ _ skin).
  match goal with
  | |- context [_send_relay_wait _ _ _ _ _ ?s] => set (ca := s)
  end.
  pose proof (_send_relay_wait_steady inner (Many [CellRelayExtended2; CellRelayTruncated])
                (Some OuterRelayEarly) 0 inbound ca) as (_ & _ & _ & _ & Hrt).
  unfold same in Hrt. change (routers ca) with (routers c) in Hrt.
  destruct (_send_relay_wait inner _ _ _ inbound ca) as [c1 [recv|e]]; cbn [fst snd] in *;
    [|done].
  destruct recv as [[]|]; run; try done.
  pose proof (complete_handshake_skinned _ _ _ _ handshake_data Hskin) as Hnode.
  destruct (complete_handshake n0 handshake_data) as [node|e]; cbn in *; [|done].
  unfold routers in *. destruct (_circuit_nodes c1) as [l|] eqn:Hl; cbn in *;
    [|by rewrite Hl].
  exists l, node. by rewrite <- Hrt.
Qed.

(** X3: whatever the relays answer, [extend] either returns with exactly
    one node appended, the one for the requested router and handshake
    type with its keys, or raises with the routers of the hops as they
    were; it returns on a Connected circuit only, and on a circuit that is
    not Connected it raises an AssertionError and touches nothing. *)
Theorem extend_outcome (c : Circuit) (r : Router) (ht : TorHandshakeType)
    (inbound : list Inbound) :
  let res := extend r ht inbound c in
  match res.2 with
  | Ret _ =>
      _state c = Connected
      /\ exists ns node,
           _circuit_nodes res.1 = Some (ns ++ [node])
           /\ routers c = Some (map router ns)
           /\ router node = r /\ handshake_type node = ht /\ keyed node
  | Raise e =>
      routers res.1 = routers c
      /\ (_state c <> Connected ->
          res.1 = c /\ e = AssertionError "Circuit must be connected first")
  end.
Proof.
  cbn zeta. pose proof (extend_appends c r ht inbound) as Ha. cbn zeta in Ha.
  destruct (decide (_state c = Connected)) as [Hst|Hst].
  - by destruct (extend r ht inbound c) as [c' [[]|e]].
  - revert Ha. unfold extend. rewrite (check_connected_refuses _ c Hst). cbn. done.
Qed.

Lemma build_hops_loop_done hops choices (c : Circuit) ns :
  _circuit_nodes c = Some ns -> hops <= Z.of_nat (length ns) ->
  build_hops_loop hops choices c = (c, Ret (Some tt)).
Proof.
  intros Hns Hle. destruct choices; cbn; unfold nodes_count, circuit_nodes; run;
    rewrite Hns; cbn; by rewrite bool_decide_eq_false_2 by lia.
Qed.

Lemma build_hops_loop_turn hops ch rest (c : Circuit) ns :
  _circuit_nodes c = Some ns -> Z.of_nat (length ns) < hops ->
  build_hops_loop hops (ch :: rest) c
  = let res := extend (if bool_decide (Z.of_nat (length ns) = hops - 1)
                       then exit_node ch else middle_node ch) NTOR (replies ch) c in
    match res.2 with
    | Ret _ => build_hops_loop hops rest res.1
    | Raise e => (res.1, Raise e)
    end.
Proof.
  intros Hns Hlt. cbn [build_hops_loop]. unfold nodes_count, circuit_nodes. run.
  rewrite Hns. cbn. rewrite bool_decide_eq_true_2 by done.
  by destruct (extend _ _ _ c) as [c1 [[]|e]].
Qed.

Lemma build_hops_loop_outcome hops choices : forall (c : Circuit) ns,
  _circuit_nodes c = Some ns ->
  Z.of_nat (length ns) < hops ->
  hops - Z.of_nat (length ns) <= Z.of_nat (length choices) ->
  let res := build_hops_loop hops choices c in
  match res.2 with
  | Ret (Some _) =>
      exists mids last,
        take (Z.to_nat hops - length ns) choices = mids ++ [last]
        /\ routers res.1 = Some (map router ns ++ map middle_node mids ++ [exit_node last])
  | Ret None => False
  | Raise _ =>
      exists k, (k < Z.to_nat hops - length ns)%nat
        /\ routers res.1 = Some (map router ns ++ map middle_node (take k choices))
  end.
Proof.
  induction choices as [|ch rest IH]; intros c ns Hns Hlt Hle; [cbn in Hle; lia|].
  cbn zeta. rewrite (build_hops_loop_turn hops ch rest c ns Hns Hlt). cbn zeta.
  set (r := if bool_decide _ then _ else _).
  pose proof (extend_appends c r NTOR (replies ch)) as Hx. cbn zeta in Hx.
  destruct (extend r NTOR (replies ch) c) as [c1 [[]|e]]; cbn [fst snd] in *.
  2:{ exists 0%nat. split; [lia|].
      rewrite Hx. unfold routers. rewrite Hns. cbn. by rewrite app_nil_r. }
  destruct Hx as (ns1 & node & Hns1 & Hr & Hnode & _).
  unfold routers in Hr. rewrite Hns in Hr. cbn in Hr. injection Hr as Hr.
  assert (length ns1 = length ns) as Hlen
    by (by rewrite <- (length_map router ns1), <- Hr, length_map).
  subst r. case_bool_decide as Hlast.
  - rewrite (build_hops_loop_done hops rest c1 (ns1 ++ [node]) Hns1)
      by (rewrite length_app; cbn; lia).
    cbn. exists [], ch. split.
    + replace (Z.to_nat hops - length ns)%nat with 1%nat by lia. done.
    + unfold routers. rewrite Hns1. cbn. by rewrite map_app, Hr; cbn; rewrite Hnode.
  - assert (length (ns1 ++ [node]) = S (length ns)) as Hlen1
      by (rewrite length_app; cbn; lia).
    specialize (IH c1 (ns1 ++ [node]) Hns1). rewrite Hlen1 in IH.
    cbn [length] in Hle.
    specialize (IH ltac:(lia) ltac:(lia)). cbn zeta in IH.
    assert (map router (ns1 ++ [node]) = map router ns ++ [middle_node ch]) as Hmap
      by (by rewrite map_app, Hr; cbn; rewrite Hnode).
    rewrite Hmap in IH.
    destruct (build_hops_loop hops rest c1) as [c2 [[[]|]|e]]; cbn [fst snd] in *.
    + destruct IH as (mids & last & Htake & Hrt). exists (ch :: mids), last. split.
      * replace (Z.to_nat hops - length ns)%nat with (S (Z.to_nat hops - S (length ns))) by lia.
        cbn. by rewrite Htake.
      * rewrite Hrt. cbn. by rewrite <- app_assoc.
    + done.
    + destruct IH as (k & Hk & Hrt). exists (S k). split; [lia|].
      rewrite Hrt. cbn. by rewrite <- app_assoc.
Qed.

(** X4: [build_hops] on a Connected circuit with fewer hops than asked
    for, when the relays answer every turn of the loop: if it returns,
    the circuit has been extended by middle nodes and, last, by an exit
    node, one node from each turn, up to [hops_count] hops; if it raises,
    the middle nodes appended before the failing turn are still there and
    the exit node was never appended. *)
Theorem build_hops_outcome (c : Circuit) (hops_count : Z) (choices : list HopChoice)
    (ns : list (CircuitNode Collab)) :
  _state c = Connected ->
  _circuit_nodes c = Some ns ->
  Z.of_nat (length ns) < hops_count ->
  hops_count - Z.of_nat (length ns) <= Z.of_nat (length choices) ->
  let res := build_hops hops_count choices c in
  match res.2 with
  | Ret (Some _) =>
      exists mids last,
        take (Z.to_nat hops_count - length ns) choices = mids ++ [last]
        /\ routers res.1 = Some (map router ns ++ map middle_node mids ++ [exit_node last])
  | Ret None => False
  | Raise _ =>
      exists k, (k < Z.to_nat hops_count - length ns)%nat
        /\ routers res.1 = Some (map router ns ++ map middle_node (take k choices))
  end.
Proof.
  intros Hst Hns Hlt Hle. cbn zeta. unfold build_hops, check_connected. run.
  rewrite Hst. rewrite bool_decide_eq_true_2 by done. run.
  set (c0 := set_log _ c).
  pose proof (build_hops_loop_outcome hops_count choices c0 ns Hns Hlt Hle) as Hl.
  cbn zeta in Hl.
  destruct (build_hops_loop hops_count choices c0) as [c1 [[[]|]|e]]; cbn [fst snd] in *; done.
Qed.

(** X5: [build_hops] on a Connected circuit that already has
    [hops_count] hops or more sends nothing and leaves the circuit as it
    was but for its two log lines. *)
Theorem build_hops_enough (c : Circuit) (hops_count : Z) (choices : list HopChoice)
    (ns : list (CircuitNode Collab)) :
  _state c = Connected ->
  _circuit_nodes c = Some ns ->
  hops_count <= Z.of_nat (length ns) ->
  build_hops hops_count choices c
  = (set_log (log c ++ [(INFO, "Building %i hops circuit..."); (DEBUG, "Circuit has been built")])
       c, Ret (Some tt)).
Proof.
  intros Hst Hns Hle. unfold build_hops, check_connected. run.
  rewrite Hst. rewrite bool_decide_eq_true_2 by done. run.
  rewrite (build_hops_loop_done hops_count choices _ ns) by done.
  cbn. by rewrite <- app_assoc.
Qed.

(** ** Attaching a hidden service *)

Lemma try_introductions_turn hs connect rest (c : Circuit) :
  try_introductions hs (connect :: rest) c
  = match connect, _circuit_nodes c with
    | Ret node, Some l =>
        (set_associated_hs (Some hs) (set_nodes (Some (l ++ [node])) c), Ret true)
    | _, _ => try_introductions hs rest (set_log (log c ++ [(ERROR, "Some errors")]) c)
    end.
Proof.
  cbn [try_introductions]. unfold bind at 1. rewrite introduction_run.
  by destruct connect as [node|e]; [destruct (_circuit_nodes c)|].
Qed.

Lemma try_introductions_search hs l : forall (c : Circuit) ns,
  _circuit_nodes c = Some ns ->
  let res := try_introductions hs l c in
  match first_connected l with
  | Some node =>
      res.2 = Ret true /\ _circuit_nodes res.1 = Some (ns ++ [node])
      /\ _associated_hs res.1 = Some hs
  | None =>
      res.2 = Ret false /\ _circuit_nodes res.1 = Some ns
      /\ _associated_hs res.1 = _associated_hs c
  end.
Proof.
  induction l as [|connect l IH]; intros c ns Hns; cbn zeta; [done|].
  rewrite try_introductions_turn, Hns.
  destruct connect as [node|e]; cbn [first_connected]; [done|].
  exact (IH (set_log _ c) ns Hns).
Qed.

Lemma try_responsible_dirs_search hs dirs : forall (c : Circuit) ns,
  _circuit_nodes c = Some ns ->
  let res := try_responsible_dirs hs dirs c in
  match search_introduction dirs with
  | Ret (Some node) =>
      res.2 = Ret true /\ _circuit_nodes res.1 = Some (ns ++ [node])
      /\ _associated_hs res.1 = Some hs
  | Ret None =>
      res.2 = Ret false /\ _circuit_nodes res.1 = Some ns
      /\ _associated_hs res.1 = _associated_hs c
  | Raise e =>
      res.2 = Raise e /\ _circuit_nodes res.1 = Some ns
      /\ _associated_hs res.1 = _associated_hs c
  end.
Proof.
  induction dirs as [|d dirs IH]; intros c ns Hns; cbn zeta; [done|].
  cbn [try_responsible_dirs search_introduction]. run.
  set (c0 := set_log _ c).
  pose proof (try_introductions_search hs (introductions d) c0 ns Hns) as Hi.
  cbn zeta in Hi.
  destruct (try_introductions hs (introductions d) c0) as [c1 [ok|e]];
    destruct (first_connected (introductions d)) as [node|];
    cbn [fst snd] in *; destruct Hi as (Hok & Hns1 & Hhs); simplify_eq; [done|].
  change (_associated_hs c0) with (_associated_hs c) in Hhs. rewrite <- Hhs.
  destruct (enumeration_error d) as [[]|]; try done; exact (IH c1 ns Hns1).
Qed.

Lemma _send_relay_wait_needs_nodes inner ts rt sid inbound (c : Circuit) a :
  (_send_relay_wait inner ts rt sid inbound c).2 = Ret a -> is_Some (_circuit_nodes c).
Proof.
  unfold _send_relay_wait. rewrite create_waiter_run. cbn zeta.
  match goal with |- context [(subscribe_for ?t ?h ?s).1] =>
    pose proof (subscribe_for_registry t h s) as (_ & _ & Hn);
    set (c0 := (subscribe_for t h s).1) in *
  end.
  unfold same in Hn. cbn in Hn. rewrite <- Hn.
  pose proof (_send_relay_needs_nodes inner rt sid c0) as Hs.
  unfold bind at 1. destruct (_send_relay inner rt sid c0) as [c1 [[]|e]]; [|done].
  intros _. by apply Hs.
Qed.

Lemma extend_to_hidden_unassociated hs inbound dirs (c : Circuit) :
  _associated_hs c = None ->
  extend_to_hidden hs inbound dirs c
  = let c0 := set_log (log c ++ [(INFO, "Extending #%x circuit for hidden service %s...")])
                c in
    match _rendezvous_establish (rendezvous_cookie hs) inbound c0 with
    | (c1, Ret _) =>
        match try_responsible_dirs hs dirs
                (set_log (log c1 ++ [(INFO, "Iterate over responsible dirs of the hidden service")])
                   c1) with
        | (c3, Ret true) => (c3, Ret tt)
        | (c3, Ret false) => (c3, Raise (Exception CantExtendToHidden))
        | (c3, Raise e) => (c3, Raise e)
        end
    | (c1, Raise e) => (c1, Raise e)
    end.
Proof.
  intros Hhs. unfold extend_to_hidden. run. rewrite Hhs.
  destruct (_rendezvous_establish _ inbound _) as [c1 [[]|e]]; [|done].
  by destruct (try_responsible_dirs hs dirs _) as [c3 [[]|e]].
Qed.

(** X6: [extend_to_hidden] on a circuit not yet associated with a hidden
    service.  If it returns, the node appended is the first introduction
    point that connected, searching the responsible directories in order
    and passing over those whose descriptor is not available, and the
    circuit is now associated with the service.  If it raises, no node has
    been appended and the circuit is still unassociated, so the call can
    be repeated; and when some introduction point would have connected,
    the exception is the one of the rendezvous establishment. *)
Theorem extend_to_hidden_outcome (c : Circuit) (hidden_service : HiddenService)
    (inbound : list Inbound) (dirs : list ResponsibleDir) :
  _associated_hs c = None ->
  let res := extend_to_hidden hidden_service inbound dirs c in
  match res.2 with
  | Ret _ =>
      exists ns node,
        search_introduction dirs = Ret (Some node)
        /\ _circuit_nodes res.1 = Some (ns ++ [node])
        /\ routers c = Some (map router ns)
        /\ _associated_hs res.1 = Some hidden_service
  | Raise e =>
      routers res.1 = routers c
      /\ _associated_hs res.1 = None
      /\ forall node, search_introduction dirs = Ret (Some node) ->
           (_rendezvous_establish (rendezvous_cookie hidden_service) inbound
              (set_log (log c ++ [(INFO, "Extending #%x circuit for hidden service %s...")])
                 c)).2 = Raise e
  end.
Proof.
  intros Hhs. cbn zeta. rewrite (extend_to_hidden_unassociated _ _ _ _ Hhs). cbn zeta.
  set (c0 := set_log _ c).
  pose proof (_rendezvous_establish_steady (rendezvous_cookie hidden_service) inbound c0)
    as (_ & _ & _ & Hhs1 & Hrt).
  unfold same in Hhs1, Hrt. change (routers c0) with (routers c) in Hrt.
  change (_associated_hs c0) with (_associated_hs c) in Hhs1. rewrite Hhs in Hhs1.
  assert (forall a, (_rendezvous_establish (rendezvous_cookie hidden_service) inbound c0).2
            = Ret a -> is_Some (_circuit_nodes c)) as Hneed.
  { unfold _rendezvous_establish. run. destruct (bool_decide _); run; [|done].
    intros a. pose proof (_send_relay_wait_needs_nodes
      (RelayEstablishRendezvous (rendezvous_cookie hidden_service) (_id c))
      (One CellRelayRendezvousEstablished) None 0 inbound c0) as Hw.
    destruct (_send_relay_wait _ _ _ _ inbound c0) as [c1 [r|e]]; [|done].
    intros _. by apply (Hw r). }
  destruct (_rendezvous_establish _ inbound c0) as [c1 [[]|e]]; cbn [fst snd] in *.
  2:{ done. }
  destruct (Hneed tt eq_refl) as [ns Hns].
  unfold routers in Hrt. rewrite Hns in Hrt. cbn in Hrt.
  destruct (_circuit_nodes c1) as [ns1|] eqn:Hns1; [|done]. cbn in Hrt.
  injection Hrt as Hrt. set (c2 := set_log _ c1).
  pose proof (try_responsible_dirs_search hidden_service dirs c2 ns1 Hns1) as Hd.
  cbn zeta in Hd. change (_associated_hs c2) with (_associated_hs c1) in Hd.
  rewrite Hhs1 in Hd.
  destruct (search_introduction dirs) as [[node|]|e];
    destruct (try_responsible_dirs hidden_service dirs c2) as [c3 [ok|e3]];
    cbn [fst snd] in *; destruct Hd as (Hok & Hns3 & Hhs3); simplify_eq; cbn.
  - exists ns1, node. unfold routers. by rewrite Hns; cbn; rewrite Hrt.
  - unfold routers. by rewrite Hns3, Hns; cbn; rewrite Hrt.
  - unfold routers. by rewrite Hns3, Hns; cbn; rewrite Hrt.
Qed.

(** ** The registry of handlers *)

Lemma count_cons {A} `{EqDecision A} (h k : A) l :
  count h (k :: l) = ((if decide (k = h) then 1 else 0) + count h l)%nat.
Proof. unfold count. rewrite filter_cons. by repeat case_decide. Qed.

Lemma count_app {A} `{EqDecision A} (h : A) l1 l2 :
  count h (l1 ++ l2) = (count h l1 + count h l2)%nat.
Proof. unfold count. by rewrite filter_app, length_app. Qed.

Lemma count_zero {A} `{EqDecision A} (h : A) l : count h l = 0%nat <-> h ∉ l.
Proof.
  induction l as [|k l IH]; [by split; [intros _; apply not_elem_of_nil|]|].
  rewrite count_cons, not_elem_of_cons. case_decide; subst; [split; [lia|by intros []]|].
  rewrite <- IH. cbn. split; [by split|by intros []].
Qed.

#[local] Arguments count : simpl never.

Lemma list_remove_count (h k : Handler) l l' :
  list_remove h l = Some l' ->
  count k l = ((if decide (h = k) then 1 else 0) + count k l')%nat.
Proof.
  revert l'. induction l as [|x l IH]; intros l'; cbn [list_remove]; [done|].
  destruct (decide (h = x)) as [<-|Hx].
  - intros [= <-]. rewrite count_cons. by repeat case_decide.
  - destruct (list_remove h l) as [l0|]; [|done]. intros [= <-].
    rewrite !count_cons, (IH l0 eq_refl). lia.
Qed.

Lemma list_remove_None (h : Handler) l : list_remove h l = None -> h ∉ l.
Proof.
  induction l as [|x l IH]; cbn [list_remove]; [intros _; apply not_elem_of_nil|].
  destruct (decide (h = x)) as [|Hx]; [done|].
  destruct (list_remove h l); [done|]. intros _. apply not_elem_of_cons. by split; [|apply IH].
Qed.

Lemma list_remove_elem_of (h k : Handler) l l' :
  list_remove h l = Some l' -> k ∈ l' -> k ∈ l.
Proof.
  revert l'. induction l as [|x l IH]; intros l'; cbn [list_remove]; [done|].
  destruct (decide (h = x)) as [<-|Hx].
  - intros [= <-] Hk. by right.
  - destruct (list_remove h l) as [l0|]; [|done]. intros [= <-] Hk.
    apply elem_of_cons in Hk as [->|Hk]; [by left|right; by apply (IH l0)].
Qed.

Lemma registrations_insert (c : Circuit) h t t' l :
  registrations h t' (set_handlers (<[t := l]> (_handlers c)) c)
  = if decide (t = t') then count h l else registrations h t' c.
Proof. unfold registrations. rewrite handlers_of_insert. by case_decide. Qed.

#[local] Instance no_more_preorder h : PreOrder (no_more h).
Proof.
  split; [by intros c t|]. intros a b c H1 H2 t. by etrans; [apply H2|apply H1].
Qed.

Create HintDb regs.

#[local] Hint Extern 1 (no_more _ _ _) => (intros ?; apply le_n) : regs.

Lemma handlers_remove_no_more h t k : respects (no_more h) (handlers_remove t k).
Proof.
  intros c. rewrite handlers_remove_run.
  destruct (list_remove k _) as [l'|] eqn:Hl; cbn; [|done].
  intros t'. rewrite registrations_insert. case_decide; subst; [|done].
  unfold registrations. rewrite (list_remove_count k h _ l' Hl). lia.
Qed.

#[local] Hint Resolve handlers_remove_no_more : regs.

Lemma recv_dispatch_no_more h i : respects (no_more h) (recv_dispatch i).
Proof. respects_deep regs. Qed.

#[local] Hint Resolve recv_dispatch_no_more : regs.

Lemma subscribe_loop_registrations h ts : forall (c : Circuit) t,
  registrations h t (for_each ts (fun t => _subscribe_for_cell t h) c).1
  = (registrations h t c + count t ts)%nat.
Proof.
  induction ts as [|t0 ts IH]; intros c t; [cbn; unfold count; cbn; lia|].
  rewrite for_each_cons. unfold _subscribe_for_cell at 1. run.
  rewrite IH, registrations_insert, (count_cons t t0).
  destruct (decide (t0 = t)) as [->|]; [|done].
  rewrite count_app, count_cons, decide_True by done. unfold registrations, count at 2. cbn. lia.
Qed.

Lemma unsubscribe_loop_registrations h ts : forall (c : Circuit),
  (forall t, (registrations h t c <= count t ts)%nat) ->
  forall t, registrations h t (for_each ts (fun t => _unsubscribe_for_cell t h) c).1 = 0%nat.
Proof.
  induction ts as [|t0 ts IH]; intros c Hc t;
    [specialize (Hc t); unfold count in Hc; cbn in *; lia|].
  rewrite for_each_cons. unfold _unsubscribe_for_cell at 1. run.
  apply IH. intros t'. specialize (Hc t'). rewrite count_cons in Hc.
  destruct (list_remove h (handlers_of t0 c)) as [l'|] eqn:Hl.
  - rewrite registrations_insert. pose proof (list_remove_count h h _ l' Hl) as Hn.
    rewrite decide_True in Hn by done. unfold registrations in *.
    destruct (decide (t0 = t')) as [->|]; lia.
  - apply list_remove_None, count_zero in Hl. unfold registrations in *.
    destruct (decide (t0 = t')) as [->|]; lia.
Qed.

Lemma subscribe_for_loop ts h (c : Circuit) :
  (subscribe_for ts h c).1 = (for_each (types_of ts) (fun t => _subscribe_for_cell t h) c).1.
Proof. by destruct ts. Qed.

Lemma unsubscribe_for_loop ts h (c : Circuit) :
  (unsubscribe_for ts h c).1 = (for_each (types_of ts) (fun t => _unsubscribe_for_cell t h) c).1.
Proof. by destruct ts. Qed.

Lemma create_waiter_unregisters {A} ts (body : nat -> Circ A) (c : Circuit) :
  unregistered (WaiterRef (length (waiters c))) c ->
  respects (no_more (WaiterRef (length (waiters c)))) (body (length (waiters c))) ->
  match (create_waiter ts body c).2 with
  | Ret _ => unregistered (WaiterRef (length (waiters c))) (create_waiter ts body c).1
  | Raise _ => True
  end.
Proof.
  intros Hfresh Hbody. rewrite create_waiter_run. cbn zeta.
  set (w := length (waiters c)) in *. set (c00 := set_waiters _ _).
  assert (forall t, registrations (WaiterRef w) t (subscribe_for ts (WaiterRef w) c00).1
                    = count t (types_of ts)) as Hsub.
  { intros t. rewrite subscribe_for_loop, subscribe_loop_registrations.
    change (registrations (WaiterRef w) t c00) with (registrations (WaiterRef w) t c).
    unfold registrations. by rewrite (proj2 (count_zero _ _) (Hfresh t)). }
  specialize (Hbody (subscribe_for ts (WaiterRef w) c00).1).
  destruct (body w _) as [c1 [a|e]]; cbn [fst snd] in *; [|done].
  intros t. apply count_zero. rewrite unsubscribe_for_loop.
  apply unsubscribe_loop_registrations. intros t'. rewrite <- Hsub. apply Hbody.
Qed.

(** ** Waiters in the registry have been allocated *)

Create HintDb alloc.

#[local] Hint Extern 1 (keeps _ _ _) => untouched : alloc.

Lemma waiter_handler_allocated w cell : respects (keeps allocated) (waiter_handler w cell).
Proof.
  intros c Hc. rewrite waiter_handler_run. destruct (waiters c !! w); [|done].
  intros t w' Hw. cbn. rewrite length_insert. by apply (Hc t).
Qed.

Lemma waiter_set_error_allocated w msg : respects (keeps allocated) (waiter_set_error w msg).
Proof.
  intros c Hc. unfold waiter_set_error. run. destruct (waiters c !! w); [|done].
  intros t w' Hw. cbn. rewrite length_insert. by apply (Hc t).
Qed.

Lemma handlers_remove_allocated t h : respects (keeps allocated) (handlers_remove t h).
Proof.
  intros c Hc. rewrite handlers_remove_run.
  destruct (list_remove h _) as [l'|] eqn:Hl; [|done].
  intros t' w Hw. cbn in *. rewrite handlers_of_insert in Hw.
  case_decide; subst; [|by apply (Hc t')].
  apply (Hc t'). by eapply list_remove_elem_of.
Qed.

Lemma _unsubscribe_for_cell_allocated t h :
  respects (keeps allocated) (_unsubscribe_for_cell t h).
Proof.
  intros c Hc. unfold _unsubscribe_for_cell. run.
  destruct (list_remove h _) as [l'|] eqn:Hl; [|done].
  intros t' w Hw. cbn in *. rewrite handlers_of_insert in Hw.
  case_decide; subst; [|by apply (Hc t')].
  apply (Hc t'). by eapply list_remove_elem_of.
Qed.

Lemma _subscribe_for_cell_allocated t h (w : nat) :
  (h = WaiterRef w \/ is_waiter h = false) ->
  respects (keeps (fun c => allocated c /\ (w < length (waiters c))%nat))
    (_subscribe_for_cell t h).
Proof.
  intros Hh c [Hc Hw]. unfold _subscribe_for_cell. run. split; [|done].
  intros t' w' Hw'. cbn in *. rewrite handlers_of_insert in Hw'.
  case_decide; subst; [|by apply (Hc t')].
  apply elem_of_app in Hw' as [Hw'|Hw']; [by apply (Hc t')|].
  apply list_elem_of_singleton in Hw'. by destruct Hh as [->|Hh]; simplify_eq.
Qed.

#[local] Hint Resolve waiter_handler_allocated waiter_set_error_allocated
  handlers_remove_allocated _unsubscribe_for_cell_allocated : alloc.

Lemma unsubscribe_for_allocated ts h : respects (keeps allocated) (unsubscribe_for ts h).
Proof. respects_deep alloc. Qed.

Lemma subscribe_for_allocated ts h (w : nat) :
  (h = WaiterRef w \/ is_waiter h = false) ->
  respects (keeps (fun c => allocated c /\ (w < length (waiters c))%nat))
    (subscribe_for ts h).
Proof.
  intros Hh. pose proof (fun t => _subscribe_for_cell_allocated t h w Hh).
  unfold subscribe_for. destruct ts; respects_auto alloc.
Qed.

Lemma _subscribe_for_cell_persistent t h :
  is_waiter h = false -> respects (keeps allocated) (_subscribe_for_cell t h).
Proof.
  intros Hh c Hc. unfold _subscribe_for_cell. run.
  intros t' w' Hw'. cbn in *. rewrite handlers_of_insert in Hw'.
  case_decide; subst; [|by apply (Hc t')].
  apply elem_of_app in Hw' as [Hw'|Hw']; [by apply (Hc t')|].
  apply list_elem_of_singleton in Hw'. by subst.
Qed.

Lemma subscribe_for_persistent ts h :
  is_waiter h = false -> respects (keeps allocated) (subscribe_for ts h).
Proof.
  intros Hh. pose proof (fun t => _subscribe_for_cell_persistent t h Hh).
  unfold subscribe_for. destruct ts; respects_auto alloc.
Qed.

Lemma create_waiter_allocated {A} ts (body : nat -> Circ A) :
  (forall w, respects (keeps allocated) (body w)) ->
  respects (keeps allocated) (create_waiter ts body).
Proof.
  intros Hb c Hc. rewrite create_waiter_run. cbn zeta.
  set (w := length (waiters c)). set (c00 := set_waiters _ _).
  assert (allocated c00 /\ (w < length (waiters c00))%nat) as H0.
  { split; [intros t w' Hw'; specialize (Hc t w' Hw')|]; cbn; rewrite length_app; cbn;
      unfold w; lia. }
  apply (subscribe_for_allocated ts (WaiterRef w) w (or_introl eq_refl) c00) in H0 as [H1 _].
  specialize (Hb w _ H1). destruct (body w _) as [c1 [a|e]]; cbn [fst snd] in *; [|done].
  by apply unsubscribe_for_allocated.
Qed.

#[local] Hint Resolve unsubscribe_for_allocated : alloc.

#[local] Hint Extern 2 (respects (keeps allocated) (subscribe_for _ _)) =>
  apply subscribe_for_persistent; reflexivity : alloc.

Lemma _send_wait_allocated cell ts inbound :
  respects (keeps allocated) (_send_wait cell ts inbound).
Proof. apply create_waiter_allocated. intros w. respects_deep alloc. Qed.

Lemma _send_relay_wait_allocated inner ts rt sid inbound :
  respects (keeps allocated) (_send_relay_wait inner ts rt sid inbound).
Proof. apply create_waiter_allocated. intros w. respects_deep alloc. Qed.

#[local] Hint Resolve _send_wait_allocated _send_relay_wait_allocated : alloc.

Lemma try_introductions_allocated hs l : respects (keeps allocated) (try_introductions hs l).
Proof. induction l as [|x l IH]; cbn [try_introductions]; respects_deep alloc. Qed.

#[local] Hint Resolve try_introductions_allocated : alloc.

Lemma try_responsible_dirs_allocated hs dirs :
  respects (keeps allocated) (try_responsible_dirs hs dirs).
Proof. induction dirs as [|d dirs IH]; cbn [try_responsible_dirs]; respects_deep alloc. Qed.

Lemma build_hops_loop_allocated hops choices :
  respects (keeps allocated) (build_hops_loop hops choices).
Proof. induction choices as [|ch choices IH]; cbn [build_hops_loop]; respects_deep alloc. Qed.

#[local] Hint Resolve try_responsible_dirs_allocated build_hops_loop_allocated : alloc.

Lemma act_allocated a : respects (keeps allocated) (fun c => (act a c, Ret tt)).
Proof.
  intros c. cbn. destruct a as [[]| |]; cbn [act run].
  all: match goal with |- keeps _ _ (?m _).1 => revert c; change (respects (keeps allocated) m) end.
  all: respects_deep alloc.
Qed.

(** X7: on a circuit reached from its construction by whatever sequence
    of operations, every waiter found in the registry is one that
    [create_waiter] made; so the waiter a new [create_waiter] makes is
    registered nowhere yet. *)
Theorem registered_waiters_allocated (id : Z) (r : Router) (l : list Action) :
  allocated (act_all l (new_circuit id r))
  /\ unregistered (WaiterRef (length (waiters (act_all l (new_circuit id r)))))
       (act_all l (new_circuit id r)).
Proof.
  assert (forall l (c : Circuit), allocated c -> allocated (act_all l c)) as Hall.
  { clear l. induction l as [|a l IH]; intros c Hc; [done|].
    cbn. by apply IH, (act_allocated a c). }
  assert (allocated (act_all l (new_circuit id r))) as Ha.
  { apply Hall. intros t w Hw. by apply elem_of_nil in Hw. }
  split; [done|]. intros t Hw. apply Ha in Hw. lia.
Qed.

Lemma waiter_get_no_more h w inbound : respects (no_more h) (waiter_get w inbound).
Proof. respects_deep regs. Qed.

#[local] Hint Resolve waiter_get_no_more : regs.

(** X8: when [_send_wait] or [_send_relay_wait] returns, on a circuit
    whose registry holds allocated waiters only, the waiter it made is
    registered for no cell type any more, whatever was dispatched while
    it waited. *)
Theorem waiter_unregistered_on_return (c : Circuit) (cell : WireCell) (inner : Cell)
    (ts : CellTypes) (rt : option RelayType) (sid : Z) (inbound : list Inbound) :
  allocated c ->
  match (_send_wait cell ts inbound c).2 with
  | Ret _ => unregistered (WaiterRef (length (waiters c))) (_send_wait cell ts inbound c).1
  | Raise _ => True
  end
  /\ match (_send_relay_wait inner ts rt sid inbound c).2 with
     | Ret _ => unregistered (WaiterRef (length (waiters c)))
                  (_send_relay_wait inner ts rt sid inbound c).1
     | Raise _ => True
     end.
Proof.
  intros Hc.
  assert (unregistered (WaiterRef (length (waiters c))) c) as Hfresh
    by (intros t Hw; apply Hc in Hw; lia).
  split; apply create_waiter_unregisters; try done; respects_deep regs.
Qed.

Lemma subscribe_loop_handlers h ts : forall (c : Circuit) t,
  handlers_of t (for_each ts (fun t => _subscribe_for_cell t h) c).1
  = handlers_of t c ++ replicate (count t ts) h.
Proof.
  induction ts as [|t0 ts IH]; intros c t; [by rewrite app_nil_r|].
  rewrite for_each_cons. unfold _subscribe_for_cell at 1. run.
  rewrite IH, handlers_of_insert, (count_cons t t0).
  destruct (decide (t0 = t)) as [->|]; [|done]. by rewrite <- app_assoc.
Qed.

Lemma unsubscribe_loop_handlers h ts : forall (c : Circuit) (base : CellType -> list Handler),
  (forall t, t ∈ ts -> h ∉ base t) ->
  (forall t, handlers_of t c = base t ++ replicate (count t ts) h) ->
  forall t, handlers_of t (for_each ts (fun t => _unsubscribe_for_cell t h) c).1 = base t.
Proof.
  induction ts as [|t0 ts IH]; intros c base Hb Hc t; [by rewrite Hc, app_nil_r|].
  rewrite for_each_cons. unfold _unsubscribe_for_cell at 1. run.
  apply IH; [intros t' Ht'; apply Hb; by right|]. intros t'.
  pose proof (Hc t0) as H0. rewrite count_cons, decide_True in H0 by done. cbn in H0.
  rewrite H0, list_remove_app
    by (apply Forall_forall; intros k Hk ->; by apply (Hb t0); [left|]).
  rewrite handlers_of_insert. destruct (decide (t0 = t')) as [->|Hne]; [done|].
  by rewrite Hc, count_cons, decide_False.
Qed.

Lemma subscribe_loop_frame h ts hs : forall (c : Circuit),
  set_handlers hs (for_each ts (fun t => _subscribe_for_cell t h) c).1 = set_handlers hs c.
Proof.
  induction ts as [|t0 ts IH]; intros c; [done|].
  rewrite for_each_cons. unfold _subscribe_for_cell at 1. run. by rewrite IH.
Qed.

Lemma unsubscribe_loop_frame h ts hs : forall (c : Circuit),
  set_handlers hs (for_each ts (fun t => _unsubscribe_for_cell t h) c).1 = set_handlers hs c.
Proof.
  induction ts as [|t0 ts IH]; intros c; [done|].
  rewrite for_each_cons. unfold _unsubscribe_for_cell at 1. run. rewrite IH.
  by destruct (list_remove _ _).
Qed.

(** X9: [subscribe_for] followed by [unsubscribe_for] with the same cell
    types and a handler that was registered for none of them gives every
    cell type the handlers it had, in their order, and changes nothing
    else of the circuit. *)
Theorem subscribe_unsubscribe (c : Circuit) (ts : CellTypes) (h : Handler) :
  (forall t, t ∈ types_of ts -> h ∉ handlers_of t c) ->
  let c' := (unsubscribe_for ts h (subscribe_for ts h c).1).1 in
  (forall t, handlers_of t c' = handlers_of t c)
  /\ set_handlers (_handlers c) c' = c.
Proof.
  intros Hfresh. cbn zeta. rewrite unsubscribe_for_loop, subscribe_for_loop. split.
  - apply unsubscribe_loop_handlers; [done|]. apply subscribe_loop_handlers.
  - rewrite unsubscribe_loop_frame, subscribe_loop_frame. by destruct c.
Qed.

(** ** Errors set on a waiter *)

Create HintDb errs.

#[local] Hint Extern 1 (keeps _ _ _) => untouched : errs.

Lemma waiter_handler_errored w msg w' cell :
  respects (keeps (errored w msg)) (waiter_handler w' cell).
Proof.
  intros c (wt & Hw & Hev & Herr). rewrite waiter_handler_run.
  destruct (waiters c !! w') as [wt'|] eqn:Hw'; [|by exists wt].
  destruct (decide (w = w')) as [<-|Hne]; unfold errored; cbn [fst set_waiters waiters].
  - simplify_eq. eexists.
    split; [apply list_lookup_insert_eq; by eapply lookup_lt_Some|]. done.
  - exists wt. split; [|done]. by rewrite list_lookup_insert_ne.
Qed.

#[local] Hint Resolve waiter_handler_errored : errs.

Lemma recv_dispatch_errored w msg i : respects (keeps (errored w msg)) (recv_dispatch i).
Proof. respects_deep errs. Qed.

Lemma waiter_set_error_run w msg (c : Circuit) :
  (w < length (waiters c))%nat ->
  (waiter_set_error w msg c).2 = Ret tt /\ errored w msg (waiter_set_error w msg c).1.
Proof.
  intros Hw. unfold waiter_set_error. run.
  destruct (lookup_lt_is_Some_2 _ _ Hw) as [wt Hwt]. rewrite Hwt.
  unfold errored; cbn [fst snd set_waiters waiters].
  split; [done|]. eexists. split; [by apply list_lookup_insert_eq|]. done.
Qed.

(** X10: once [set_error] has been called on a waiter with a message that
    is not empty, [get] raises an exception with that message, whatever
    cells are dispatched in between: it neither times out nor returns a
    cell.  With the empty message [get] does not raise: it returns what
    the waiter holds, which is no cell if none has arrived. *)
Theorem set_error_decides_get (c : Circuit) (w : nat) (err_msg : string)
    (inbound : list Inbound) :
  (w < length (waiters c))%nat ->
  let c1 := (waiter_set_error w err_msg c).1 in
  (waiter_get w inbound c1).2
  = match err_msg with
    | EmptyString =>
        Ret ((waiters (waiter_get w inbound c1).1 !! w) ≫= _read_cell)
    | _ => Raise (Exception (WaiterError err_msg))
    end.
Proof.
  intros Hw. cbn zeta. destruct (waiter_set_error_run w err_msg c Hw) as [_ He].
  rewrite waiter_get_run. cbn zeta. cbn [fst snd].
  assert (errored w err_msg (for_each inbound recv_dispatch (waiter_set_error w err_msg c).1).1)
    as (wt & Hwt & Hev & Herr).
  { revert He. generalize (waiter_set_error w err_msg c).1.
    change (respects (keeps (errored w err_msg)) (for_each inbound recv_dispatch)).
    pose proof (recv_dispatch_errored w err_msg). respects_auto errs. }
  rewrite Hwt, Hev, Herr. cbn. by destruct err_msg.
Qed.

(** ** The warning of [_decrypt] *)

(** X11: when the node at position [i] is the first after whose
    decryption an inbound cell is plain, [_decrypt] logs the warning
    "Decrypted earlier" exactly when that node is not the last of the
    circuit, and no other warning. *)
Theorem decrypted_earlier_warning (c : Circuit) (ns : list (CircuitNode Collab))
    (rc : RelayedTorCell) (i : nat) (inner : Cell) :
  _circuit_nodes c = Some ns -> Forall keyed ns ->
  is_encrypted rc = true -> (i < length ns)%nat ->
  (forall j, (j < i)%nat -> is_encrypted (peel (take (S j) ns) rc) = true) ->
  is_encrypted (peel (take (S i) ns) rc) = false ->
  get_decrypted (peel (take (S i) ns) rc) = Some inner ->
  warnings (log (_decrypt rc c).1)
  = warnings (log c) ++ (if bool_decide (S i < length ns)%nat then [decrypted_earlier] else []).
Proof.
  intros Hns Hk Hrc Hi Hbefore Hat Hinner.
  rewrite (_decrypt_recognised c ns rc i inner) by done. cbn [fst log set_log].
  rewrite !warnings_app, warnings_decrypting. cbn [app]. f_equal.
  case_bool_decide as Hlast.
  - destruct (drop (S i) ns) eqn:Hd; [|done].
    apply (f_equal length) in Hd. rewrite length_drop in Hd. cbn in Hd. lia.
  - by rewrite drop_ge by lia.
Qed.

(** ** Tearing down a connected circuit *)

Lemma close_stream_keyed sid (c : Circuit) ns :
  _circuit_nodes c = Some ns -> Forall keyed ns ->
  let rc := new_relay OuterRelay (RelayEnd (_id c)) sid (_id c) in
  close_stream sid c
  = (set_streams (delete sid (_stream_manager c))
       (set_sender (_sender c ++ [Relayed (nest ns rc)])
          (set_nodes (Some (nest_nodes ns rc)) c)), Ret tt).
Proof.
  intros Hns Hk. cbn zeta. unfold close_stream. unfold bind at 1. unfold gets at 1.
  cbn beta iota. unfold bind at 1.
  by rewrite (_send_relay_keyed c ns (RelayEnd (_id c)) None sid Hns Hk).
Qed.

Lemma close_loop sids : forall (c : Circuit) ns,
  _circuit_nodes c = Some ns -> Forall keyed ns ->
  let res := for_each sids close_stream c in
  res.2 = Ret tt
  /\ _state res.1 = _state c /\ _id res.1 = _id c
  /\ _stream_manager res.1 = foldl (fun m sid => delete sid m) (_stream_manager c) sids
  /\ _sender res.1 = _sender c ++ relay_ends (_id c) ns sids.
Proof.
  induction sids as [|sid sids IH]; intros c ns Hns Hk; cbn zeta.
  { cbn. repeat split. by rewrite app_nil_r. }
  rewrite for_each_cons, (close_stream_keyed sid c ns Hns Hk). cbn zeta.
  set (rc := new_relay _ _ _ _). set (c1 := set_streams _ _).
  destruct (IH c1 (nest_nodes ns rc) eq_refl (nest_nodes_keyed _ _ Hk))
    as (Hret & Hst & Hid & Hsm & Hsend).
  split; [done|]. split; [done|]. split; [done|]. split; [done|].
  rewrite Hsend. cbn. by rewrite <- app_assoc.
Qed.

Lemma lookup_delete_all {V} (l : list Z) : forall (m : gmap Z V) k,
  foldl (fun m sid => delete sid m) m l !! k = if decide (k ∈ l) then None else m !! k.
Proof.
  induction l as [|x l IH]; intros m k; cbn.
  { rewrite decide_False; [done|apply not_elem_of_nil]. }
  rewrite IH. destruct (decide (k ∈ l)) as [Hin|Hout].
  - rewrite decide_True; [done|by right].
  - destruct (decide (k = x)) as [->|Hne].
    + rewrite decide_True by left. apply lookup_delete_eq.
    + rewrite decide_False by (rewrite not_elem_of_cons; by split).
      by rewrite lookup_delete_ne.
Qed.

Lemma delete_all_keys {V} (m : gmap Z V) :
  foldl (fun m sid => delete sid m) m (map_to_list m).*1 = ∅.
Proof.
  apply map_empty. intros k. rewrite lookup_delete_all.
  destruct (decide _) as [|Hout]; [done|].
  destruct (m !! k) as [v|] eqn:Hk; [|done]. exfalso. apply Hout.
  apply list_elem_of_fmap. exists (k, v). split; [done|]. by apply elem_of_map_to_list.
Qed.

Lemma destroy_connected_run (c : Circuit) (ns : list (CircuitNode Collab))
    (send_destroy : bool) :
  _state c = Connected -> _circuit_nodes c = Some ns -> Forall keyed ns ->
  let res := destroy send_destroy c in
  res.2 = Ret tt
  /\ _state res.1 = Destroyed
  /\ _stream_manager res.1 = ∅
  /\ _sender res.1
     = _sender c ++ relay_ends (_id c) ns (map_to_list (_stream_manager c)).*1
         ++ (if send_destroy then [Plain (Destroy FINISHED (_id c))] else []).
Proof.
  intros Hst Hns Hk. cbn zeta.
  pose proof (close_loop (map_to_list (_stream_manager c)).*1 c ns Hns Hk)
    as (Hret & _ & Hid & Hsm & Hsend). cbn zeta in *.
  rewrite delete_all_keys in Hsm.
  unfold destroy, close_all_streams. run. rewrite Hst. cbn.
  destruct (for_each _ close_stream c) as [c1 [[]|e]]; cbn [fst snd] in *; [|done].
  destruct send_destroy; run.
  - split; [done|]. split; [done|]. split; [done|].
    by rewrite Hsend, Hid, <- app_assoc.
  - split; [done|]. split; [done|]. split; [done|]. by rewrite Hsend, app_nil_r.
Qed.

(** A cell for which only a waiter is registered: the waiter takes it. *)
Lemma recv_dispatch_waiter (reply : Cell) w wt (c : Circuit) :
  handlers_of (type_of reply) c = [WaiterRef w] -> waiters c !! w = Some wt ->
  let r := recv_dispatch (InCell reply) c in
  r.2 = Ret tt
  /\ waiters r.1 !! w
     = Some {| _cell_types := _cell_types wt; _ev := true; _read_cell := Some reply;
               _err_msg := _err_msg wt |}.
Proof.
  intros Hh Hw. cbn zeta. unfold recv_dispatch, handle_cell, handle. run.
  unfold handlers_of in *. cbn. rewrite Hh. cbn.
  unfold call_handler, waiter_handler, handlers_remove. run. rewrite Hw. cbn.
  unfold handlers_of. cbn. rewrite Hh. cbn. rewrite decide_True by done. cbn.
  split; [done|]. apply list_lookup_insert_eq. by eapply lookup_lt_Some.
Qed.

(** [_send_wait] answered: the receive thread dispatches the awaited cell
    during the wait, and only the waiter is registered for its type. *)
Lemma _send_wait_answered cell (reply : Cell) (c : Circuit) :
  handlers_of (type_of reply) c = [] ->
  (_send_wait cell (One (type_of reply)) [InCell reply] c).2 = Ret (Some reply).
Proof.
  intros Hh. unfold _send_wait. rewrite create_waiter_run. cbn zeta.
  run. rewrite waiter_get_run. cbn zeta.
  rewrite for_each_cons.
  match goal with |- context [recv_dispatch _ ?c0] => set (c2 := c0) end.
  destruct (recv_dispatch_waiter reply (length (waiters c))
              (new_waiter (One (type_of reply))) c2) as [Hret Hwt].
  { unfold c2, subscribe_for, _subscribe_for_cell, handlers_of in *. run.
    by rewrite lookup_insert_eq, Hh. }
  { unfold c2, subscribe_for, _subscribe_for_cell. run.
    by rewrite lookup_app_r, Nat.sub_diag. }
  destruct (recv_dispatch _ c2) as [c3 r3]. cbn [fst snd] in *. subst r3. cbn.
  by rewrite Hwt.
Qed.

(** [create] answered: the receive thread dispatches the CREATED2 cell
    during the wait, and only the waiter is registered for it. *)
Lemma create_answered guard hd secret (c : Circuit) :
  _state c = Unknown -> handlers_of CellCreated2 c = [] ->
  ka_complete_handshake (NtorKeyAgreement (_router c)) hd = Some secret ->
  let r := create guard [InCell (Created2 hd)] c in
  r.2 = Ret tt
  /\ _state r.1 = Connected
  /\ _circuit_nodes r.1
     = Some [extended_node (_router c) NTOR (NtorKeyAgreement (_router c)) secret].
Proof.
  intros Hst Hh Hs. cbn zeta.
  unfold create. run. rewrite Hst. cbn. run.
  unfold _initialize. run.
  rewrite bool_decide_eq_true_2 by done. cbn.
  match goal with |- context [_send_wait ?cell _ _ ?c0] =>
    pose proof (_send_wait_answered cell (Created2 hd) c0 Hh) as Hw
  end.
  cbn [type_of] in Hw.
  destruct (_send_wait _ _ _ _) as [c1 r1]. cbn in Hw. subst r1. cbn. rewrite Hs. cbn.
  unfold subscribe_for, _subscribe_for_cell. by run.
Qed.

(** C5: the state only moves along Unknown, Connected, Destroyed.  No
    operation, and so no sequence of operations, lowers it; in particular
    Destroyed is never left.  [create] is refused unless the state is
    Unknown and ends in Connected when it returns, and it does return,
    in Connected, when its CREATE2 is answered by a CREATED2 cell that
    completes the handshake.  A [destroy] that returns ends in Destroyed;
    [destroy] does return, in Destroyed, on a Connected circuit whose
    nodes have their keys and on a Destroyed one, and it raises on an
    Unknown one, which it leaves as it is. *)
Theorem state_moves_forward (c : Circuit) :
  (forall ops, (state_rank (_state c) <= state_rank (_state (run_all ops c)))%nat)
  /\ (forall ops, match _state c with
                  | Destroyed => _state (run_all ops c) = Destroyed
                  | _ => True
                  end)
  /\ (forall guard inbound,
        match _state c, (create guard inbound c).2 with
        | Unknown, Ret _ => _state (create guard inbound c).1 = Connected
        | Unknown, Raise _ => _state (create guard inbound c).1 = Unknown
        | _, _ => create guard inbound c
                  = (c, Raise (AssertionError "Circuit already connected"))
        end)
  /\ (forall guard handshake_data shared_secret,
        _state c = Unknown -> handlers_of CellCreated2 c = [] ->
        ka_complete_handshake (NtorKeyAgreement (_router c)) handshake_data
        = Some shared_secret ->
        (create guard [InCell (Created2 handshake_data)] c).2 = Ret tt
        /\ _state (create guard [InCell (Created2 handshake_data)] c).1 = Connected)
  /\ (forall send_destroy,
        match (destroy send_destroy c).2 with
        | Ret _ => _state (destroy send_destroy c).1 = Destroyed
        | Raise _ => True
        end)
  /\ (forall send_destroy,
        match _state c with
        | Unknown =>
            destroy send_destroy c = (c, Raise (Exception (NotYetConnected (_id c))))
        | Connected =>
            forall ns, _circuit_nodes c = Some ns -> Forall keyed ns ->
              (destroy send_destroy c).2 = Ret tt
              /\ _state (destroy send_destroy c).1 = Destroyed
        | Destroyed =>
            (destroy send_destroy c).2 = Ret tt
            /\ _state (destroy send_destroy c).1 = Destroyed
        end).
Proof.
  assert (forall ops (c0 : Circuit),
            (state_rank (_state c0) <= state_rank (_state (run_all ops c0)))%nat) as Hall.
  { induction ops as [|op ops IH]; intros c0; cbn; [lia|].
    etrans; [apply (run_rank op)|apply IH]. }
  split; [|split; [|split; [|split; [|split]]]].
  - intros ops. apply Hall.
  - intros ops. specialize (Hall ops c).
    destruct (_state c) eqn:Hs; [done..|].
    destruct (_state (run_all ops c)); cbn in Hall; [lia..|done].
  - intros guard inbound. apply create_state.
  - intros guard hd secret Hst Hh Hs.
    by destruct (create_answered guard hd secret c Hst Hh Hs) as (? & ? & _).
  - intros sd. pose proof (destroy_returns sd c) as Hd.
    destruct (destroy sd c) as [c1 [[]|e]]; [|done]. by apply Hd.
  - intros sd. destruct (_state c) eqn:Hst.
    + unfold destroy. run. by rewrite Hst.
    + intros ns Hns Hk.
      by destruct (destroy_connected_run c ns sd Hst Hns Hk) as (? & ? & _).
    + unfold destroy. run. by rewrite Hst.
Qed.

(** X12: [destroy] on a Connected circuit whose nodes have their keys
    returns and leaves the circuit Destroyed with no stream; the sender
    has been handed, after what it had, one RELAY_END cell for each stream
    there was, each of them encrypted by every node of the circuit as
    [_encrypt] does it, and after them the DESTROY cell with reason
    FINISHED, that one only if [send_destroy]; nothing else. *)
Theorem destroy_connected (c : Circuit) (ns : list (CircuitNode Collab))
    (send_destroy : bool) :
  _state c = Connected -> _circuit_nodes c = Some ns -> Forall keyed ns ->
  let res := destroy send_destroy c in
  res.2 = Ret tt
  /\ _state res.1 = Destroyed
  /\ _stream_manager res.1 = ∅
  /\ _sender res.1
     = _sender c ++ relay_ends (_id c) ns (map_to_list (_stream_manager c)).*1
         ++ (if send_destroy then [Plain (Destroy FINISHED (_id c))] else [])
  /\ length (relay_ends (_id c) ns (map_to_list (_stream_manager c)).*1)
     = size (_stream_manager c).
Proof.
  intros Hst Hns Hk. cbn zeta.
  destruct (destroy_connected_run c ns send_destroy Hst Hns Hk) as (H1 & H2 & H3 & H4).
  repeat (split; [done|]).
  rewrite <- length_map_to_list, <- (length_fmap fst (map_to_list (_stream_manager c))).
  generalize (map_to_list (_stream_manager c)).*1. generalize ns.
  intros ns0 l. revert ns0. induction l as [|sid l IH]; intros ns0; [done|].
  cbn. by rewrite IH.
Qed.

(** ** What [create] leaves behind *)

Lemma _unsubscribe_for_cell_no_more h t k : respects (no_more h) (_unsubscribe_for_cell t k).
Proof.
  intros c. unfold _unsubscribe_for_cell. run.
  destruct (list_remove k _) as [l'|] eqn:Hl; [|done].
  intros t'. rewrite registrations_insert. case_decide; subst; [|done].
  unfold registrations. rewrite (list_remove_count k h _ l' Hl). lia.
Qed.

#[local] Hint Resolve _unsubscribe_for_cell_no_more : regs.

Lemma unsubscribe_for_no_more h ts k : respects (no_more h) (unsubscribe_for ts k).
Proof. respects_deep regs. Qed.

Lemma count_replicate_ne (h k : Handler) n : h <> k -> count h (replicate n k) = 0%nat.
Proof.
  intros Hne. apply count_zero. intros Hin. by apply elem_of_replicate in Hin as [-> _].
Qed.

Lemma counts_zero (l : list Handler) : (forall h, count h l = 0%nat) -> l = [].
Proof.
  destruct l as [|k l]; [done|]. intros H. specialize (H k).
  rewrite count_cons, decide_True in H by done. lia.
Qed.

Lemma create_waiter_clean {A} ts (body : nat -> Circ A) (c : Circuit) :
  (forall t, handlers_of t c = []) ->
  (forall h w, respects (no_more h) (body w)) ->
  match (create_waiter ts body c).2 with
  | Ret _ => forall t, handlers_of t (create_waiter ts body c).1 = []
  | Raise _ => True
  end.
Proof.
  intros Hc Hbody.
  pose proof (create_waiter_unregisters ts body c) as Hw.
  specialize (Hw ltac:(intros t; rewrite Hc; apply not_elem_of_nil) (Hbody _ _)).
  revert Hw. rewrite create_waiter_run. cbn zeta.
  set (w := length (waiters c)). set (c00 := set_waiters _ _).
  pose proof (Hbody) as Hb.
  assert (forall t, handlers_of t (subscribe_for ts (WaiterRef w) c00).1
                    = replicate (count t (types_of ts)) (WaiterRef w)) as Hsub.
  { intros t. rewrite subscribe_for_loop, subscribe_loop_handlers.
    change (handlers_of t c00) with (handlers_of t c). by rewrite Hc. }
  destruct (body w _) as [c1 [a|e]] eqn:Hrun; cbn [fst snd]; [|done].
  intros Hw t. apply counts_zero. intros h.
  destruct (decide (h = WaiterRef w)) as [->|Hne]; [by apply count_zero, Hw|].
  pose proof (unsubscribe_for_no_more h ts (WaiterRef w) c1 t) as H1.
  pose proof (Hb h w (subscribe_for ts (WaiterRef w) c00).1 t) as H2.
  rewrite Hrun in H2. cbn [fst] in H2.
  unfold registrations in *. rewrite Hsub, count_replicate_ne in H2 by done. lia.
Qed.

Lemma _initialize_clean r inbound (c : Circuit) :
  (forall t, handlers_of t c = []) ->
  match (_initialize r inbound c).2 with
  | Ret _ => forall t, handlers_of t (_initialize r inbound c).1 = []
  | Raise _ => True
  end.
Proof.
  intros Hc. unfold _initialize. run.
  set (c0 := set_log _ c).
  match goal with |- context [_send_wait ?cell ?ts inbound c0] =>
    pose proof (create_waiter_clean ts (fun w => _send cell >> waiter_get w inbound) c0 Hc) as Hw;
    change (create_waiter ts (fun w => _send cell >> waiter_get w inbound))
      with (_send_wait cell ts inbound) in Hw
  end.
  assert (forall (h : Handler) (w : nat),
            respects (no_more h)
              (_send (Plain (Create2 NTOR (ka_handshake (NtorKeyAgreement r)) (_id c))) >>
               waiter_get w inbound)) as Hbody by (intros h w; respects_deep regs).
  specialize (Hw Hbody).
  destruct (_send_wait _ _ inbound c0) as [c1 [[cell|]|e]]; cbn [fst snd] in *; run; try done.
  destruct cell; run; try done.
  by destruct (ka_complete_handshake _ _).
Qed.

(** X13: [create] on a circuit in state Unknown with no handler
    registered.  If it returns, the circuit is Connected, knows its guard,
    has exactly one node, the one of its router with the ntor handshake
    completed, and the registry holds [_on_truncated] for RELAY_TRUNCATED,
    [_on_stream_end] for RELAY_END, [_on_stream] for RELAY_DATA,
    RELAY_SENDME and RELAY_CONNECTED, and nothing else: the waiter for
    CREATED2 is gone.  If it raises, the circuit is still Unknown, without
    guard and with its nodes as before. *)
Theorem create_outcome (c : Circuit) (guard : nat) (inbound : list Inbound) :
  _state c = Unknown ->
  (forall t, handlers_of t c = []) ->
  let res := create guard inbound c in
  match res.2 with
  | Ret _ =>
      _state res.1 = Connected
      /\ _guard res.1 = Some guard
      /\ (exists n, _circuit_nodes res.1 = Some [n]
            /\ router n = _router c /\ handshake_type n = NTOR /\ keyed n)
      /\ forall t, handlers_of t res.1
           = match t with
             | CellRelayTruncated => [OnTruncated]
             | CellRelayEnd => [OnStreamEnd]
             | CellRelayData | CellRelaySendMe | CellRelayConnected => [OnStream]
             | _ => []
             end
  | Raise _ =>
      _state res.1 = Unknown /\ _guard res.1 = _guard c /\ routers res.1 = routers c
  end.
Proof.
  intros Hst Hc. cbn zeta. unfold create. run. rewrite Hst.
  rewrite bool_decide_eq_true_2 by done. run.
  pose proof (_initialize_node (_router c) inbound c) as Hn.
  pose proof (_initialize_clean (_router c) inbound c Hc) as Hh.
  pose proof (_initialize_steady (_router c) inbound c) as (_ & Hf & Hg & _ & Hr).
  apply forward_unknown in Hf; [|done].
  destruct (_initialize _ _ c) as [c1 [ns|e]]; cbn [fst snd] in *; [|done].
  destruct (Hn ns eq_refl) as (n & -> & Hn1 & Hn2 & Hn3).
  unfold subscribe_for, _subscribe_for_cell. run.
  split; [done|]. split; [done|]. split; [by exists n|].
  intros t. unfold handlers_of in *. cbn. rewrite !lookup_insert.
  destruct t; repeat (case_decide; try done); cbn; by rewrite ?Hh.
Qed.

(** ** Circuit ids and the manager's map *)

Lemma lor_msb (x : Z) : 0 <= x < 2 ^ 31 -> Z.lor x 0x80000000 = x + 2 ^ 31.
Proof.
  intros Hx. change 0x80000000 with (2 ^ 31).
  assert (Z.land x (2 ^ 31) = 0) as Hland.
  { apply Z.bits_inj'. intros n Hn. rewrite Z.land_spec, Z.bits_0, Z.pow2_bits_eqb by lia.
    destruct (Z.eqb_spec 31 n) as [<-|Hne]; [|apply andb_false_r].
    rewrite andb_true_r. destruct (decide (x = 0)) as [->|Hx0]; [apply Z.bits_0|].
    apply Z.bits_above_log2; [lia|]. apply Z.log2_lt_pow2; lia. }
  by rewrite <- Z.lxor_lor, <- Z.add_nocarry_lxor.
Qed.

(** X14: while the shared counter is below 2^31 - 1, the id
    [_get_next_circuit_id] hands out is the incremented counter with bit
    31 set, that is the counter plus 2^31, a 32-bit number; different
    counters give different ids.  2^31 ids later the same id is handed
    out again. *)
Theorem circuit_ids (g g' : Z) :
  0 <= g < 2 ^ 31 - 1 -> 0 <= g' < 2 ^ 31 - 1 ->
  let id := (CircuitsManager._get_next_circuit_id true g).2 in
  (CircuitsManager._get_next_circuit_id true g).1 = g + 1
  /\ id = g + 1 + 2 ^ 31
  /\ Z.testbit id 31 = true
  /\ 2 ^ 31 < id < 2 ^ 32
  /\ ((CircuitsManager._get_next_circuit_id true g').2 = id -> g' = g)
  /\ (CircuitsManager._get_next_circuit_id true (g + 2 ^ 31)).2 = id.
Proof.
  intros Hg Hg'. cbn zeta. unfold CircuitsManager._get_next_circuit_id. cbn [fst snd].
  rewrite !lor_msb by lia. split; [done|]. split; [done|]. split; [|split; [|split]].
  - rewrite <- (lor_msb (g + 1)) by lia. rewrite Z.lor_spec.
    change 0x80000000 with (2 ^ 31). rewrite Z.pow2_bits_eqb by lia. apply orb_true_r.
  - change (2 ^ 32) with (2 ^ 31 + 2 ^ 31). lia.
  - lia.
  - replace (g + 2 ^ 31 + 1) with (Z.lor (g + 1) 0x80000000) by (rewrite lor_msb; lia).
    rewrite <- Z.lor_assoc, Z.lor_diag. apply lor_msb. lia.
Qed.

Lemma create_new_run (g : Z) (m : CircuitsManager.Manager) :
  0 <= g < 2 ^ 31 - 1 ->
  CircuitsManager.create_new g m
  = (g + 1,
     {| CircuitsManager._router := CircuitsManager._router m;
        CircuitsManager._circuits_map :=
          <[g + 1 + 2 ^ 31 := new_circuit (g + 1 + 2 ^ 31) (CircuitsManager._router m)]>
            (CircuitsManager._circuits_map m) |},
     new_circuit (g + 1 + 2 ^ 31) (CircuitsManager._router m)).
Proof.
  intros Hg. unfold CircuitsManager.create_new, CircuitsManager._get_next_circuit_id. cbn.
  by rewrite !lor_msb by lia.
Qed.

Lemma issued_next (g : Z) (m : CircuitsManager.Manager) :
  CircuitsManager.issued g m -> CircuitsManager._circuits_map m !! (g + 1 + 2 ^ 31) = None.
Proof.
  intros Hm. destruct (CircuitsManager._circuits_map m !! _) eqn:Hl; [|done].
  destruct (Hm (g + 1 + 2 ^ 31)) as [_ Hle]; [by eexists|]. lia.
Qed.

Lemma issued_insert (g : Z) (m : CircuitsManager.Manager) circuit :
  0 <= g -> CircuitsManager.issued g m ->
  CircuitsManager.issued (g + 1)
    {| CircuitsManager._router := CircuitsManager._router m;
       CircuitsManager._circuits_map :=
         <[g + 1 + 2 ^ 31 := circuit]> (CircuitsManager._circuits_map m) |}.
Proof.
  intros Hg Hm id Hid. cbn in Hid.
  apply lookup_insert_is_Some in Hid as [<-|[_ Hid]]; [lia|]. apply Hm in Hid. lia.
Qed.

(** X15: while the shared counter is below 2^31 - 1, [create_new]
    registers a new, unconnected circuit under an id that no circuit of
    the map had: the new circuit is found by [get_by_id], every other
    lookup answers as before, and [remove] of the new id gives the
    circuit back and the map as it was. *)
Theorem create_new_fresh (g : Z) (m : CircuitsManager.Manager) :
  0 <= g < 2 ^ 31 - 1 -> CircuitsManager.issued g m ->
  let res := CircuitsManager.create_new g m in
  let circuit := res.2 in
  res.1.1 = g + 1
  /\ circuit = new_circuit (g + 1 + 2 ^ 31) (CircuitsManager._router m)
  /\ CircuitsManager.get_by_id (_id circuit) m = None
  /\ CircuitsManager.get_by_id (_id circuit) res.1.2 = Some circuit
  /\ (forall id, id <> _id circuit ->
        CircuitsManager.get_by_id id res.1.2 = CircuitsManager.get_by_id id m)
  /\ CircuitsManager.issued (g + 1) res.1.2
  /\ CircuitsManager.remove (_id circuit) res.1.2 = (m, Some circuit).
Proof.
  intros Hg Hm. cbn zeta. rewrite (create_new_run g m Hg).
  pose proof (issued_next g m Hm) as Hnew.
  unfold CircuitsManager.get_by_id, CircuitsManager.remove. cbn.
  split; [done|]. split; [done|]. split; [done|].
  split; [apply lookup_insert_eq|]. split; [by intros id Hid; apply lookup_insert_ne|].
  split; [apply issued_insert; [lia|done]|].
  rewrite lookup_insert_eq, delete_insert_eq, delete_id by done. by destruct m.
Qed.

Lemma create_many_issued (n : nat) : forall g (m : CircuitsManager.Manager),
  0 <= g -> g + Z.of_nat n < 2 ^ 31 -> CircuitsManager.issued g m ->
  let res := CircuitsManager.create_many n g m in
  res.1 = g + Z.of_nat n
  /\ size (CircuitsManager._circuits_map res.2)
     = (size (CircuitsManager._circuits_map m) + n)%nat
  /\ CircuitsManager.issued res.1 res.2
  /\ forall id circuit, CircuitsManager.get_by_id id m = Some circuit ->
       CircuitsManager.get_by_id id res.2 = Some circuit.
Proof.
  induction n as [|n IH]; intros g m Hg Hn Hm; cbn zeta.
  { cbn. split; [lia|]. split; [lia|]. done. }
  cbn [CircuitsManager.create_many]. rewrite (create_new_run g m) by lia.
  pose proof (issued_next g m Hm) as Hnone.
  set (circuit := new_circuit _ _). set (m1 := CircuitsManager.Build_Manager _ _).
  destruct (IH (g + 1) m1 ltac:(lia) ltac:(lia) (issued_insert g m circuit Hg Hm))
    as (Hc & Hsize & Hiss' & Hkeep).
  cbn zeta in *. split; [lia|]. split; [|split; [done|]].
  - rewrite Hsize. subst m1. cbn. rewrite map_size_insert_None by done. lia.
  - intros id circ Hid. apply Hkeep. subst m1. unfold CircuitsManager.get_by_id in *. cbn.
    rewrite lookup_insert_ne; [done|]. intros <-. by rewrite Hnone in Hid.
Qed.

(** X16: [n] calls of [create_new] in a row, the counter staying below
    2^31, leave [n] more circuits in the map than there were, and every
    circuit that was in the map is still found under its id. *)
Theorem create_many_distinct (n : nat) (g : Z) (m : CircuitsManager.Manager) :
  0 <= g -> g + Z.of_nat n < 2 ^ 31 -> CircuitsManager.issued g m ->
  let res := CircuitsManager.create_many n g m in
  res.1 = g + Z.of_nat n
  /\ size (CircuitsManager._circuits_map res.2)
     = (size (CircuitsManager._circuits_map m) + n)%nat
  /\ forall id circuit, CircuitsManager.get_by_id id m = Some circuit ->
       CircuitsManager.get_by_id id res.2 = Some circuit.
Proof.
  intros Hg Hn Hm. destruct (create_many_issued n g m Hg Hn Hm) as (H1 & H2 & _ & H3).
  done.
Qed.

(** ** Registering with the receiver *)

Lemma land_write (events : Z) :
  Z.land events TorReceiver.EVENT_WRITE = if Z.testbit events 1 then 2 else 0.
Proof.
  unfold TorReceiver.EVENT_WRITE. change 2 with (2 ^ 1) at 1.
  apply Z.bits_inj'. intros n Hn. rewrite Z.land_spec, Z.pow2_bits_eqb by lia.
  destruct (Z.eqb_spec 1 n) as [<-|Hne].
  - rewrite andb_true_r. by destruct (Z.testbit events 1).
  - rewrite andb_false_r. destruct (Z.testbit events 1); [|by rewrite Z.bits_0].
    change 2 with (2 ^ 1). rewrite Z.pow2_bits_eqb by lia. symmetry. by apply Z.eqb_neq.
Qed.

Lemma register_stream_run stream events callback (r : TorReceiver.Receiver) :
  Z.testbit events 1 = false ->
  TorReceiver.register (TorReceiver.Stream stream) events callback r
  = ({| TorReceiver._stream_to_callback :=
          <[stream := TorReceiver.callbacks_of stream r ++ [callback]]>
            (TorReceiver._stream_to_callback r);
        TorReceiver.calls :=
          TorReceiver.calls r ++ [TorReceiver.StreamRegister stream callback] |}, None).
Proof.
  intros Hbit. cbn [TorReceiver.register]. unfold TorReceiver.register_stream.
  rewrite land_write, Hbit. by rewrite bool_decide_eq_false_2 by (by intros []).
Qed.

Lemma register_all_run stream events : forall callbacks (r : TorReceiver.Receiver),
  Z.testbit events 1 = false -> callbacks <> [] ->
  TorReceiver.register_all stream events callbacks r
  = {| TorReceiver._stream_to_callback :=
         <[stream := TorReceiver.callbacks_of stream r ++ callbacks]>
           (TorReceiver._stream_to_callback r);
       TorReceiver.calls :=
         TorReceiver.calls r ++ map (TorReceiver.StreamRegister stream) callbacks |}.
Proof.
  induction callbacks as [|cb rest IH]; intros r Hbit Hne; [done|].
  unfold TorReceiver.register_all. cbn [foldl].
  rewrite (register_stream_run stream events cb r Hbit). cbn [fst].
  destruct rest as [|cb' rest]; [done|].
  match goal with |- foldl _ ?r0 _ = ?rhs =>
    change (TorReceiver.register_all stream events (cb' :: rest) r0 = rhs)
  end.
  rewrite IH by done. unfold TorReceiver.callbacks_of. cbn.
  rewrite lookup_insert_eq, insert_insert_eq. cbn. by rewrite <- !app_assoc.
Qed.

(** X17: callbacks registered for a stream that had none, with event
    masks that do not ask for writing, are kept in registration order;
    [unregister] of the stream then calls [stream.unregister] once for
    each, in that order, and forgets the stream, so that unregistering it
    again is a KeyError. *)
Theorem register_unregister_stream (r : TorReceiver.Receiver) (stream events : Z)
    (callbacks : list nat) :
  Z.testbit events 1 = false ->
  TorReceiver._stream_to_callback r !! stream = None ->
  callbacks <> [] ->
  let r1 := TorReceiver.register_all stream events callbacks r in
  let res := TorReceiver.unregister (TorReceiver.Stream stream) r1 in
  TorReceiver.callbacks_of stream r1 = callbacks
  /\ res
     = ({| TorReceiver._stream_to_callback := TorReceiver._stream_to_callback r;
           TorReceiver.calls :=
             TorReceiver.calls r
               ++ map (TorReceiver.StreamRegister stream) callbacks
               ++ map (TorReceiver.StreamUnregister stream) callbacks |}, None)
  /\ TorReceiver.unregister (TorReceiver.Stream stream) res.1
     = (res.1, Some TorReceiver.KeyError).
Proof.
  intros Hbit Hnone Hne. cbn zeta. rewrite (register_all_run _ _ _ _ Hbit Hne).
  unfold TorReceiver.callbacks_of, TorReceiver.unregister, TorReceiver.unregister_stream.
  cbn. rewrite Hnone, !lookup_insert_eq. cbn.
  rewrite delete_insert_eq, delete_id by done.
  split; [done|]. split; [by rewrite <- app_assoc|]. by rewrite Hnone.
Qed.

(** X18: [register] refuses a stream exactly when the event mask has the
    write bit, whatever other bits it has, and then nothing has been
    registered and [stream.register] has not been called; with any other
    mask [stream.register] is called and the callback is appended to
    those of the stream. *)
Theorem register_write_event (r : TorReceiver.Receiver) (stream events : Z)
    (callback : nat) :
  TorReceiver.register (TorReceiver.Stream stream) events callback r
  = (if Z.testbit events 1
     then (r, Some TorReceiver.WriteEventNotSupported)
     else ({| TorReceiver._stream_to_callback :=
                <[stream := TorReceiver.callbacks_of stream r ++ [callback]]>
                  (TorReceiver._stream_to_callback r);
              TorReceiver.calls :=
                TorReceiver.calls r ++ [TorReceiver.StreamRegister stream callback] |}, None)).
Proof.
  destruct (Z.testbit events 1) eqn:Hbit.
  - cbn [TorReceiver.register]. unfold TorReceiver.register_stream.
    by rewrite land_write, Hbit.
  - by apply register_stream_run.
Qed.

(** ** What inbound cells cannot do *)

(** X19: whatever cells the receive loop is given and whatever state the
    circuit is in, no exception escapes the loop, and the cells change
    neither the circuit's id, nor its guard, nor the hidden service it is
    associated with, nor the routers of its hops; the state moves forward
    at most. *)
Theorem receive_loop_footprint (c : Circuit) (inbound : list Inbound) :
  (for_each inbound recv_dispatch c).2 = Ret tt
  /\ steady c (for_each inbound recv_dispatch c).1.
Proof.
  split; [apply receive_all_returns|].
  revert c. change (respects steady (for_each inbound recv_dispatch)).
  respects_auto frame.
Qed.

(** ** The handler of RELAY_TRUNCATED *)

#[local] Instance settled_preorder : PreOrder settled.
Proof.
  split; [by split; [left|]|].
  intros a b c [H1 H1'] [H2 H2']. split; [by etrans|congruence].
Qed.

Lemma steady_settled c c' : steady c c' -> settled c c'.
Proof. by intros (_ & Hf & Hg & _). Qed.

Create HintDb settle.

#[local] Hint Extern 8 (respects settled _) =>
  apply (respects_weaken steady settled _ steady_settled); solve [eauto with frame] : settle.

#[local] Hint Extern 1 (settled _ _) => (split; [by left|done]) : settle.

Lemma try_introductions_settled hs l : respects settled (try_introductions hs l).
Proof. induction l as [|x l IH]; cbn [try_introductions]; respects_deep settle. Qed.

#[local] Hint Resolve try_introductions_settled : settle.

Lemma try_responsible_dirs_settled hs dirs : respects settled (try_responsible_dirs hs dirs).
Proof. induction dirs as [|d dirs IH]; cbn [try_responsible_dirs]; respects_deep settle. Qed.

Lemma extend_settled r ht inbound : respects settled (extend r ht inbound).
Proof. respects_deep settle. Qed.

#[local] Hint Resolve try_responsible_dirs_settled extend_settled : settle.

Lemma build_hops_loop_settled hops choices : respects settled (build_hops_loop hops choices).
Proof. induction choices as [|ch choices IH]; cbn [build_hops_loop]; respects_deep settle. Qed.

#[local] Hint Resolve build_hops_loop_settled : settle.

Create HintDb bare.

#[local] Hint Extern 1 (keeps _ _ _) => untouched : bare.

Lemma handlers_remove_bare t h : respects (keeps no_truncated_handler) (handlers_remove t h).
Proof.
  intros c Hc. rewrite handlers_remove_run.
  destruct (list_remove h _) as [l'|] eqn:Hl; [|done].
  unfold no_truncated_handler in *. cbn. rewrite handlers_of_insert.
  case_decide; subst; [|done]. by rewrite Hc in Hl.
Qed.

Lemma _unsubscribe_for_cell_bare t h :
  respects (keeps no_truncated_handler) (_unsubscribe_for_cell t h).
Proof.
  intros c Hc. unfold _unsubscribe_for_cell. run.
  destruct (list_remove h _) as [l'|] eqn:Hl; [|done].
  unfold no_truncated_handler in *. rewrite handlers_of_insert.
  case_decide; subst; [|done]. by rewrite Hc in Hl.
Qed.

Lemma subscribe_for_bare ts h :
  CellRelayTruncated ∉ types_of ts ->
  respects (keeps no_truncated_handler) (subscribe_for ts h).
Proof.
  intros Hts c Hc. unfold no_truncated_handler in *.
  rewrite subscribe_for_loop, subscribe_loop_handlers, Hc.
  by rewrite (proj2 (count_zero _ _) Hts).
Qed.

#[local] Hint Resolve handlers_remove_bare _unsubscribe_for_cell_bare : bare.

#[local] Hint Extern 2 (respects (keeps no_truncated_handler) (subscribe_for _ _)) =>
  apply subscribe_for_bare; cbn;
  repeat (apply not_elem_of_cons; split; [done|]); apply not_elem_of_nil : bare.

Lemma try_introductions_bare hs l :
  respects (keeps no_truncated_handler) (try_introductions hs l).
Proof. induction l as [|x l IH]; cbn [try_introductions]; respects_deep bare. Qed.

#[local] Hint Resolve try_introductions_bare : bare.

Lemma try_responsible_dirs_bare hs dirs :
  respects (keeps no_truncated_handler) (try_responsible_dirs hs dirs).
Proof. induction dirs as [|d dirs IH]; cbn [try_responsible_dirs]; respects_deep bare. Qed.

#[local] Hint Resolve try_responsible_dirs_bare : bare.

Create HintDb truncs.

#[local] Hint Extern 1 (keeps _ _ _) => untouched : truncs.

Lemma list_remove_waiter_head w (l l' : list Handler) :
  head l = Some OnTruncated -> list_remove (WaiterRef w) l = Some l' ->
  head l' = Some OnTruncated.
Proof.
  destruct l as [|h l]; [done|]. intros [= ->]. cbn [list_remove].
  rewrite decide_False by done. destruct (list_remove _ l); [|done]. by intros [= <-].
Qed.

Lemma handlers_remove_first t w :
  respects (keeps on_truncated_first) (handlers_remove t (WaiterRef w)).
Proof.
  intros c Hc. rewrite handlers_remove_run.
  destruct (list_remove _ _) as [l'|] eqn:Hl; [|done].
  unfold on_truncated_first in *. cbn. rewrite handlers_of_insert.
  case_decide; subst; [|done]. by eapply list_remove_waiter_head.
Qed.

Lemma _unsubscribe_for_cell_first t w :
  respects (keeps on_truncated_first) (_unsubscribe_for_cell t (WaiterRef w)).
Proof.
  intros c Hc. unfold _unsubscribe_for_cell. run.
  destruct (list_remove _ _) as [l'|] eqn:Hl; [|done].
  unfold on_truncated_first in *. rewrite handlers_of_insert.
  case_decide; subst; [|done]. by eapply list_remove_waiter_head.
Qed.

Lemma _subscribe_for_cell_first t h :
  respects (keeps on_truncated_first) (_subscribe_for_cell t h).
Proof.
  intros c Hc. unfold _subscribe_for_cell. run.
  unfold on_truncated_first in *. rewrite handlers_of_insert.
  case_decide; subst; [|done]. by destruct (handlers_of CellRelayTruncated c).
Qed.

#[local] Hint Resolve handlers_remove_first _unsubscribe_for_cell_first
  _subscribe_for_cell_first : truncs.

Lemma try_introductions_first hs l :
  respects (keeps on_truncated_first) (try_introductions hs l).
Proof. induction l as [|x l IH]; cbn [try_introductions]; respects_deep truncs. Qed.

#[local] Hint Resolve try_introductions_first : truncs.

Lemma try_responsible_dirs_first hs dirs :
  respects (keeps on_truncated_first) (try_responsible_dirs hs dirs).
Proof. induction dirs as [|d dirs IH]; cbn [try_responsible_dirs]; respects_deep truncs. Qed.

Lemma build_hops_loop_first hops choices :
  respects (keeps on_truncated_first) (build_hops_loop hops choices).
Proof. induction choices as [|ch choices IH]; cbn [build_hops_loop]; respects_deep truncs. Qed.

#[local] Hint Resolve try_responsible_dirs_first build_hops_loop_first : truncs.

Lemma settled_ready (c c' : Circuit) :
  settled c c' ->
  (_state c = Unknown -> no_truncated_handler c -> no_truncated_handler c') ->
  (on_truncated_first c -> on_truncated_first c') ->
  ready c -> ready c'.
Proof.
  intros [Hf Hg] H0 H1. unfold ready. destruct (_state c) eqn:Hst.
  - rewrite (forward_unknown _ _ Hf Hst). by apply H0.
  - intros [Hh Hgd]. rewrite <- Hg in Hgd.
    destruct Hf as [->|[_ ->]]; [rewrite Hst|]; by split; [apply H1|].
  - intros [Hh Hgd]. rewrite <- Hg in Hgd.
    destruct Hf as [->|[_ ->]]; [rewrite Hst|]; by split; [apply H1|].
Qed.

Lemma _initialize_bare r inbound :
  respects (keeps no_truncated_handler) (_initialize r inbound).
Proof. respects_deep bare. Qed.

Lemma create_ready guard inbound (c : Circuit) : ready c -> ready (create guard inbound c).1.
Proof.
  intros Hr. pose proof (create_state guard inbound c) as Hc.
  destruct (_state c) eqn:Hst; [|by rewrite Hc..].
  unfold ready in Hr. rewrite Hst in Hr.
  unfold ready. destruct (create guard inbound c) as [c' [[]|e]] eqn:Hcr;
    cbn [fst snd] in *; rewrite Hc; revert Hcr; unfold create; run; rewrite Hst;
    rewrite bool_decide_eq_true_2 by done; run;
    pose proof (_initialize_bare (_router c) inbound c Hr) as Hb;
    destruct (_initialize _ _ c) as [c1 [ns|e0]]; cbn [fst snd] in *;
    unfold subscribe_for, _subscribe_for_cell; run; intros [= <-]; try done.
  split; [|by eexists]. unfold on_truncated_first, no_truncated_handler, handlers_of in *.
  cbn. rewrite !lookup_insert. repeat (case_decide; try done). cbn. by rewrite Hb.
Qed.

Ltac respects_goal db :=
  lazymatch goal with
  | |- ?P ?c -> ?P (?m ?c).1 => revert c; change (respects (keeps P) m); respects_deep db
  | |- settled ?c (?m ?c).1 => revert c; change (respects settled m); respects_deep db
  end.

Lemma act_ready (a : Action) (c : Circuit) : ready c -> ready (act a c).
Proof.
  destruct a as [[]| |]; cbn [act run]; try apply create_ready; apply settled_ready.
  all: try solve [respects_goal settle].
  all: try solve [respects_goal truncs].
  all: try (intros Hst; unfold extend, build_hops;
            rewrite check_connected_refuses by congruence; done).
  all: intros _; solve [respects_goal bare].
Qed.

(** X20: on a circuit reached from its construction by whatever sequence
    of operations, once [create] has gone through the guard is known and
    [_on_truncated] is the first handler called for a RELAY_TRUNCATED
    cell, before any waiter. *)
Theorem truncation_handler_first (id : Z) (r : Router) (l : list Action) :
  _state (act_all l (new_circuit id r)) <> Unknown ->
  on_truncated_first (act_all l (new_circuit id r))
  /\ is_Some (_guard (act_all l (new_circuit id r))).
Proof.
  assert (forall l (c : Circuit), ready c -> ready (act_all l c)) as Hall.
  { clear l. induction l as [|a l IH]; intros c Hc; [done|].
    cbn. by apply IH, act_ready. }
  specialize (Hall l (new_circuit id r) eq_refl). unfold ready in Hall.
  by destruct (_state _).
Qed.

(** ** What goes to the sender first *)

#[local] Instance sent_more_preorder : PreOrder sent_more.
Proof.
  split; [intros c; exists []; by rewrite app_nil_r|].
  intros a b c [m1 H1] [m2 H2]. exists (m1 ++ m2). by rewrite H2, H1, app_assoc.
Qed.

Create HintDb wire.

#[local] Hint Extern 1 (sent_more _ _) =>
  (repeat case_match; first [by exists []; cbn; rewrite app_nil_r | by eexists]) : wire.

Lemma _encrypt_sent_more rc : respects sent_more (_encrypt rc).
Proof.
  intros c. unfold _encrypt, circuit_nodes. run.
  destruct (is_encrypted rc); cbn; [reflexivity|].
  destruct (_circuit_nodes c); cbn; [|reflexivity].
  destruct (crypt_loop _ _ _) as [[ns' rc'] e]. destruct e; cbn; exists []; by rewrite app_nil_r.
Qed.

Lemma _decrypt_sent_more rc : respects sent_more (_decrypt rc).
Proof.
  intros c. unfold _decrypt, circuit_nodes. run.
  destruct (is_encrypted rc); cbn; [|reflexivity].
  destruct (_circuit_nodes c); cbn; [|reflexivity].
  destruct (decrypt_loop _ _ _ _) as [[[[ns' rc'] fn] logs] e].
  destruct e; cbn; [|destruct (get_decrypted rc')]; exists []; by rewrite app_nil_r.
Qed.

#[local] Hint Resolve _encrypt_sent_more _decrypt_sent_more : wire.

Lemma recv_dispatch_sent_more i : respects sent_more (recv_dispatch i).
Proof. respects_deep wire. Qed.

#[local] Hint Resolve recv_dispatch_sent_more : wire.

Lemma waiter_get_sent_more w inbound : respects sent_more (waiter_get w inbound).
Proof. respects_deep wire. Qed.

Lemma unsubscribe_for_sent_more ts h : respects sent_more (unsubscribe_for ts h).
Proof. respects_deep wire. Qed.

#[local] Hint Resolve waiter_get_sent_more unsubscribe_for_sent_more : wire.

Lemma subscribe_for_frame ts h hs (c : Circuit) :
  set_handlers hs (subscribe_for ts h c).1 = set_handlers hs c.
Proof. by rewrite subscribe_for_loop, subscribe_loop_frame. Qed.

Lemma _send_wait_wire cell ts inbound (c : Circuit) :
  exists more, _sender (_send_wait cell ts inbound c).1 = _sender c ++ cell :: more.
Proof.
  unfold _send_wait. rewrite create_waiter_run. cbn zeta.
  set (h := WaiterRef _). set (c00 := set_waiters _ _).
  pose proof (f_equal _sender (subscribe_for_frame ts h ∅ c00)) as Hs. cbn in Hs.
  unfold bind at 1. unfold _send at 1, modify at 1. cbn beta iota.
  set (c1 := set_sender _ _).
  destruct (waiter_get_sent_more (length (waiters c)) inbound c1) as [m1 H1].
  destruct (waiter_get _ inbound c1) as [c2 [a|e]]; cbn [fst snd] in *.
  - destruct (unsubscribe_for_sent_more ts h c2) as [m2 H2].
    exists (m1 ++ m2). rewrite H2, H1. subst c1. cbn. rewrite Hs. by rewrite <- !app_assoc.
  - exists m1. rewrite H1. subst c1. cbn. rewrite Hs. by rewrite <- !app_assoc.
Qed.

Lemma _send_relay_wait_wire inner ts rt sid inbound (c : Circuit) ns :
  _circuit_nodes c = Some ns -> Forall keyed ns ->
  exists more,
    _sender (_send_relay_wait inner ts rt sid inbound c).1
    = _sender c ++ Relayed (nest ns (new_relay (default OuterRelay rt) inner sid (_id c))) :: more.
Proof.
  intros Hns Hk. unfold _send_relay_wait. rewrite create_waiter_run. cbn zeta.
  set (h := WaiterRef _). set (c00 := set_waiters _ _).
  pose proof (f_equal _sender (subscribe_for_frame ts h ∅ c00)) as Hs.
  pose proof (f_equal _circuit_nodes (subscribe_for_frame ts h ∅ c00)) as Hn.
  pose proof (f_equal _id (subscribe_for_frame ts h ∅ c00)) as Hi.
  cbn in Hs, Hn, Hi. rewrite Hns in Hn.
  unfold bind at 1. rewrite (_send_relay_keyed _ ns inner rt sid Hn Hk). cbn beta iota.
  rewrite Hs, Hi. set (c1 := set_sender _ _).
  assert (respects sent_more (logger DEBUG "Getting response..." >>
                              waiter_get (length (waiters c)) inbound)) as Hrest
    by respects_deep wire.
  destruct (Hrest c1) as [m1 H1].
  destruct ((logger DEBUG "Getting response..." >> waiter_get _ inbound) c1) as [c2 [a|e]];
    cbn [fst snd] in *.
  - destruct (unsubscribe_for_sent_more ts h c2) as [m2 H2].
    exists (m1 ++ m2). rewrite H2, H1. subst c1. cbn. by rewrite <- !app_assoc.
  - exists m1. rewrite H1. subst c1. cbn. by rewrite <- !app_assoc.
Qed.

(** X21: [extend] on a Connected circuit whose nodes have their keys
    hands the sender, before anything else, one RELAY_EARLY cell that
    carries an EXTEND2 for the address and fingerprint of the requested
    router with the new node's onion skin, encrypted for the hops the
    circuit has; what was sent before stays as it was. *)
Theorem extend_wire (c : Circuit) (ns : list (CircuitNode Collab)) (r : Router)
    (ht : TorHandshakeType) (inbound : list Inbound) (n : CircuitNode Collab) (skin : bytes) :
  _state c = Connected -> _circuit_nodes c = Some ns -> Forall keyed ns ->
  create_onion_skin (new_node r ht) = Ret (n, skin) ->
  exists more,
    _sender (extend r ht inbound c).1
    = _sender c
        ++ Relayed (nest ns (new_relay OuterRelayEarly
                               (RelayExtend2 (ip r) (tor_port r) (fingerprint r) skin)
                               0 (_id c)))
        :: more.
Proof.
  intros Hst Hns Hk Hskin. unfold extend, check_connected. run. rewrite Hst.
  rewrite bool_decide_eq_true_2 by done. run. rewrite Hskin. run.
  set (inner := RelayExtend2 _ _ _ skin).
  match goal with
  | |- context [_send_relay_wait _ _ _ _ _ ?s] => set (ca := s)
  end.
  destruct (_send_relay_wait_wire inner (Many [CellRelayExtended2; CellRelayTruncated])
              (Some OuterRelayEarly) 0 inbound ca ns Hns Hk) as [m1 H1].
  change (_sender ca) with (_sender c) in H1. change (_id ca) with (_id c) in H1.
  destruct (_send_relay_wait inner _ _ _ inbound ca) as [c1 [recv|e]]; cbn [fst snd] in *;
    [|by exists m1].
  destruct recv as [[]|]; run; try by exists m1.
  destruct (complete_handshake n handshake_data); cbn; [|by exists m1].
  destruct (_circuit_nodes c1); by exists m1.
Qed.

(** X22: [create] on a circuit in state Unknown hands the sender, before
    anything else, the CREATE2 cell with the ntor onion skin for the
    circuit's router and the circuit's id; what was sent before stays as
    it was. *)
Theorem create_wire (c : Circuit) (guard : nat) (inbound : list Inbound) (n : CircuitNode Collab)
    (skin : bytes) :
  _state c = Unknown ->
  create_onion_skin (new_node (_router c) NTOR) = Ret (n, skin) ->
  exists more,
    _sender (create guard inbound c).1
    = _sender c ++ Plain (Create2 NTOR skin (_id c)) :: more.
Proof.
  intros Hst Hskin. cbn in Hskin. injection Hskin as <- <-.
  unfold create. run. rewrite Hst.
  rewrite bool_decide_eq_true_2 by done. run.
  unfold _initialize. run.
  set (c0 := set_log _ c).
  match goal with |- context [_send_wait ?cell ?ts inbound c0] =>
    destruct (_send_wait_wire cell ts inbound c0) as [m1 H1]
  end.
  change (_sender c0) with (_sender c) in H1.
  destruct (_send_wait _ _ inbound c0) as [c1 [[cell|]|e]]; cbn [fst snd] in *; run;
    try by exists m1.
  destruct cell; run; try by exists m1.
  destruct (ka_complete_handshake _ _); run; [|by exists m1].
  unfold subscribe_for, _subscribe_for_cell. run. by exists m1.
Qed.

(** ** Arguments refused before anything is sent *)

(** X23: [extend] with a handshake type other than ntor and tap, on a
    Connected circuit, raises NotImplementedError from
    [_get_key_agreement] before it has sent a cell or made a waiter: the
    circuit has only its two log lines more. *)
Theorem extend_unknown_handshake (c : Circuit) (r : Router) (inbound : list Inbound) :
  _state c = Connected ->
  extend r FAST inbound c
  = (set_log (log c ++ [(INFO, "Extending the circuit #%x with %s...");
                        (DEBUG, "Sending Extend2...")]) c,
     Raise (NotImplementedError "Unknown key agreement")).
Proof.
  intros Hst. unfold extend, check_connected. run. rewrite Hst.
  rewrite bool_decide_eq_true_2 by done. run. by rewrite <- app_assoc.
Qed.

(** X24: [extend_to_hidden] for a hidden service whose rendezvous cookie
    is not 20 bytes long, on a circuit not yet associated, raises the
    AssertionError of [_rendezvous_establish] before it has sent a cell or
    made a waiter: the circuit has only one log line more and stays
    unassociated. *)
Theorem extend_to_hidden_bad_cookie (c : Circuit) (hidden_service : HiddenService)
    (inbound : list Inbound) (dirs : list ResponsibleDir) :
  _associated_hs c = None ->
  length (rendezvous_cookie hidden_service) <> 20%nat ->
  extend_to_hidden hidden_service inbound dirs c
  = (set_log (log c ++ [(INFO, "Extending #%x circuit for hidden service %s...")]) c,
     Raise (AssertionError "")).
Proof.
  intros Hhs Hlen. rewrite (extend_to_hidden_unassociated _ _ _ _ Hhs). cbn zeta.
  unfold _rendezvous_establish. run. by rewrite bool_decide_eq_false_2.
Qed.

End Proofs.

(** * The theorems at work on the sample circuits *)

Section Instances.
Import Byte Sample.

Lemma three_hops_nodes strict :
  _circuit_nodes (three_hops strict) = Some (sample_nodes strict).
Proof. destruct strict; vm_compute; reflexivity. Qed.

Lemma with_stream_nodes strict :
  _circuit_nodes (with_stream strict) = Some (sample_nodes strict).
Proof. destruct strict; vm_compute; reflexivity. Qed.

Lemma sample_keyed strict : Forall keyed (sample_nodes strict).
Proof.
  destruct strict; vm_compute;
    repeat (constructor; [hnf; eexists; reflexivity|]); constructor.
Qed.

Lemma sample_nodes_nonempty strict : sample_nodes strict <> [].
Proof.
  intros H. apply (f_equal length) in H. destruct strict; vm_compute in H; discriminate.
Qed.

Lemma stream_level_sendme_witness :
  let orig := from_link (RelaySendMe cid) 5 cid [] in
  let c := with_stream true in
  stream_id orig <> 0
  /\ _circuit_nodes (_on_stream (RelaySendMe cid) 2 orig c).1 = _circuit_nodes c.
Proof.
  cbn zeta.
  assert (stream_id (from_link (RelaySendMe cid) 5 cid []) <> 0) as Hsid
    by (vm_compute; discriminate).
  split; [exact Hsid|].
  exact (proj1 (proj2
    (stream_level_sendme (with_stream true) 2 cid (from_link (RelaySendMe cid) 5 cid []) Hsid))).
Defined.

Lemma extend_to_hidden_associated_witness :
  let hs := {| onion := "abcdefghijklmnop"; hostname := "abcdefghijklmnop.onion";
               rendezvous_cookie := [] |} in
  let c := set_associated_hs (Some hs) (three_hops true) in
  _associated_hs c = Some hs
  /\ extend_to_hidden hs [] [] c =
       if bool_decide (onion hs = onion hs)
       then (set_log (log c ++ [(INFO, "Extending #%x circuit for hidden service %s...");
                                (DEBUG, "Circuit #%x already associated with %s")]) c,
             Ret tt)
       else (set_log (log c ++ [(INFO, "Extending #%x circuit for hidden service %s...")]) c,
             Raise (Exception MoreThanOneHiddenService)).
Proof.
  cbn zeta. split; [reflexivity|].
  apply extend_to_hidden_associated. reflexivity.
Defined.

Lemma onion_order_witness :
  let c := three_hops true in
  let ns := sample_nodes true in
  let rc := from_link (RelayData [x2a] cid) 5 cid [x11; x22] in
  (_circuit_nodes c = Some ns /\ Forall keyed ns)
  /\ _sender (_send_relay (RelayData [x2a] cid) None 5 c).1
     = _sender c ++ [Relayed (nest ns (new_relay (default OuterRelay None)
                                         (RelayData [x2a] cid) 5 (_id c)))]
  /\ (_decrypt rc c).2 = Ret (Some 1%nat, RelayData [x2a] cid, peel (take 2 ns) rc).
Proof.
  cbn zeta.
  pose proof (onion_order (three_hops true) (sample_nodes true)
                (three_hops_nodes true) (sample_keyed true)) as (_ & Henc & Hdec).
  split; [split; [apply three_hops_nodes|apply sample_keyed]|]. split.
  - exact (proj2 (Henc (RelayData [x2a] cid) None 5)).
  - destruct (Hdec (from_link (RelayData [x2a] cid) 5 cid [x11; x22]) 1%nat
                (RelayData [x2a] cid)) as (c1 & Hd & _).
    + vm_compute; reflexivity.
    + vm_compute. lia.
    + intros j Hj. assert (j = 0%nat) as -> by lia. vm_compute; reflexivity.
    + vm_compute; reflexivity.
    + vm_compute; reflexivity.
    + rewrite Hd. reflexivity.
Defined.

Lemma strict_refuses_encrypted : refuses_encrypted (Collab := layered true).
Proof. intros rc Hrc. cbn. by rewrite Hrc. Qed.

Lemma unrecognised_cell_witness :
  let c := with_stream true in
  let ns := sample_nodes true in
  let rc := from_link (RelayData [x2a] cid) 5 cid [x11; x22; x33; x44] in
  (refuses_encrypted (Collab := layered true)
   /\ _circuit_nodes c = Some ns /\ ns <> [] /\ Forall keyed ns /\ is_encrypted rc = true
   /\ forall j, (j < length ns)%nat -> is_encrypted (peel (take (S j) ns) rc) = true)
  /\ handle_relay rc c
     = (set_log (log c ++ replicate (length ns) decrypting)
          (set_nodes (Some (peel_nodes ns rc)) c), Raise GetDecryptedError)
  /\ recv_dispatch (InRelay rc) c
     = (set_log (log c ++ [cell_received] ++ replicate (length ns) decrypting
                   ++ [handle_errors])
          (set_nodes (Some (peel_nodes ns rc)) c), Ret tt).
Proof.
  cbn zeta.
  assert (forall j, (j < length (sample_nodes true))%nat ->
            is_encrypted (peel (take (S j) (sample_nodes true))
                            (from_link (RelayData [x2a] cid) 5 cid [x11; x22; x33; x44]))
            = true) as Hall.
  { intros j Hj. assert (j < 3)%nat as Hj' by exact Hj.
    destruct j as [|[|[|j]]]; [vm_compute; reflexivity..|lia]. }
  split.
  { split; [apply strict_refuses_encrypted|].
    split; [apply with_stream_nodes|]. split; [apply sample_nodes_nonempty|].
    split; [apply sample_keyed|]. split; [reflexivity|exact Hall]. }
  exact (proj2 (proj2
    (unrecognised_cell (with_stream true) (sample_nodes true)
       (from_link (RelayData [x2a] cid) 5 cid [x11; x22; x33; x44])
       strict_refuses_encrypted
       (with_stream_nodes true) (sample_nodes_nonempty true) (sample_keyed true)
       eq_refl Hall))).
Defined.

Lemma on_stream_flow_control_witness :
  let c := with_stream true in
  let orig := from_link (RelayData [x2a] cid) 5 cid [] in
  (_circuit_nodes c = Some (sample_nodes true)
   /\ sample_nodes true !! 2%nat = Some (sample_exit true)
   /\ Forall keyed (sample_nodes true)
   /\ deliver_in_range (window (sample_exit true)))
  /\ (_on_stream (RelayData [x2a] cid) 2 orig c).2 = Ret tt.
Proof.
  cbn zeta.
  assert (sample_nodes true !! 2%nat = Some (sample_exit true)) as Hexit
    by (vm_compute; reflexivity).
  assert (deliver_in_range (window (sample_exit true))) as Hrange
    by (unfold deliver_in_range; vm_compute; split; [reflexivity|discriminate]).
  split.
  { split; [apply with_stream_nodes|]. split; [exact Hexit|].
    split; [apply sample_keyed|exact Hrange]. }
  exact (proj1 (proj2
    (on_stream_flow_control (with_stream true) (sample_nodes true) 2 (sample_exit true)
       (from_link (RelayData [x2a] cid) 5 cid [])
       (with_stream_nodes true) Hexit (sample_keyed true) Hrange) [x2a] cid)).
Defined.

(** The SENDME cycle: of 101 data cells from the exit, the 100th, and only
    it, makes the circuit send a SENDME, and the deliver window of the
    exit reads 999 after the 101st. *)
Lemma sendme_cycle :
  let after k := run_all (replicate k (OpHandleRelay data_from_exit)) (with_stream true) in
  let sent k := drop (length (_sender (with_stream true))) (_sender (after k)) in
  sent 99%nat = []
  /\ (exists rc, sent 100%nat = [Relayed rc]
        /\ inner_cell rc = Some (RelaySendMe cid) /\ stream_id rc = 0)
  /\ sent 101%nat = sent 100%nat
  /\ window_at (after 101%nat) 2 = Some {| deliver := 999; package := 1000 |}.
Proof.
  cbn zeta. split; [vm_compute; reflexivity|]. split.
  - eexists. split; [vm_compute; reflexivity|]. split; reflexivity.
  - split; vm_compute; reflexivity.
Qed.

Lemma handle_removes_waiters_witness :
  let c := inside_waiter_scope true in
  let r := handle (RelayExtended2 [x44]) (Some 2%nat) (Some truncated_from_middle) c in
  r.2 = Ret tt
  /\ handlers_of CellRelayExtended2 r.1 = persistent (handlers_of CellRelayExtended2 c).
Proof.
  cbn zeta.
  assert ((handle (RelayExtended2 [x44]) (Some 2%nat) (Some truncated_from_middle)
             (inside_waiter_scope true)).2 = Ret tt) as Hret
    by (vm_compute; reflexivity).
  split; [exact Hret|].
  exact (proj1 (handle_removes_waiters (inside_waiter_scope true) (RelayExtended2 [x44])
                  (Some 2%nat) (Some truncated_from_middle) Hret)).
Defined.

(** C8 as the spec words it fails.  Waiter 3 is subscribed for EXTENDED2
    and TRUNCATED.  The dispatch of an EXTENDED2 cell hands it the cell and
    takes it off the EXTENDED2 list, but it is still on the TRUNCATED list;
    a TRUNCATED cell dispatched next is handed to it as well. *)
Lemma waiter_called_twice :
  let c := inside_waiter_scope true in
  let c1 := (handle (RelayExtended2 [x44]) (Some 2%nat) (Some truncated_from_middle) c).1 in
  let c2 := (handle (RelayTruncated RESOURCELIMIT) (Some 2%nat)
               (Some truncated_from_middle) c1).1 in
  handlers_of CellRelayExtended2 c = [WaiterRef 3]
  /\ handlers_of CellRelayExtended2 c1 = []
  /\ handlers_of CellRelayTruncated c1 = [OnTruncated; WaiterRef 3]
  /\ _read_cell <$> (waiters c1 !! 3%nat) = Some (Some (RelayExtended2 [x44]))
  /\ _read_cell <$> (waiters c2 !! 3%nat) = Some (Some (RelayTruncated RESOURCELIMIT)).
Proof. vm_compute. done. Qed.

Lemma extend_reply_witness :
  let c := two_hops true in
  let r := extend exit_router NTOR [InRelay truncated_from_middle] c in
  let wt := {| _cell_types := Many [CellRelayExtended2; CellRelayTruncated]; _ev := true;
               _read_cell := Some (RelayTruncated RESOURCELIMIT); _err_msg := None |} in
  let c' := one_hop true in
  let r' := extend middle_router NTOR
              [InRelay (from_link (RelayExtended2 [x22]) 0 cid [x11])] c' in
  let wt' := {| _cell_types := Many [CellRelayExtended2; CellRelayTruncated]; _ev := true;
                _read_cell := Some (RelayExtended2 [x22]); _err_msg := None |} in
  ((head (handlers_of CellRelayTruncated c) = Some OnTruncated
    /\ waiters r.1 !! length (waiters c) = Some wt /\ _ev wt = true)
   /\ r.2 = Raise (CircuitExtendError RESOURCELIMIT)
   /\ routers r.1 = routers c
   /\ _state r.1 = Destroyed)
  /\ ((head (handlers_of CellRelayTruncated c') = Some OnTruncated
       /\ waiters r'.1 !! length (waiters c') = Some wt' /\ _ev wt' = true)
      /\ r'.2 = Ret tt
      /\ exists ns,
           _circuit_nodes r'.1
           = Some (ns ++ [extended_node (Collab := layered true) middle_router NTOR
                            middle_router [x22]])
           /\ routers c' = Some (map router ns)).
Proof.
  cbn zeta.
  assert (head (handlers_of CellRelayTruncated (two_hops true)) = Some OnTruncated) as Hhead
    by (vm_compute; reflexivity).
  assert (waiters (extend exit_router NTOR [InRelay truncated_from_middle] (two_hops true)).1
            !! length (waiters (two_hops true))
          = Some {| _cell_types := Many [CellRelayExtended2; CellRelayTruncated];
                    _ev := true; _read_cell := Some (RelayTruncated RESOURCELIMIT);
                    _err_msg := None |}) as Hwt
    by (vm_compute; reflexivity).
  assert (head (handlers_of CellRelayTruncated (one_hop true)) = Some OnTruncated) as Hhead'
    by (vm_compute; reflexivity).
  assert (waiters (extend middle_router NTOR
                     [InRelay (from_link (RelayExtended2 [x22]) 0 cid [x11])] (one_hop true)).1
            !! length (waiters (one_hop true))
          = Some {| _cell_types := Many [CellRelayExtended2; CellRelayTruncated];
                    _ev := true; _read_cell := Some (RelayExtended2 [x22]);
                    _err_msg := None |}) as Hwt'
    by (vm_compute; reflexivity).
  split.
  - split; [by repeat split|].
    exact (extend_reply (two_hops true) exit_router NTOR [InRelay truncated_from_middle]
             _ Hhead Hwt eq_refl).
  - split; [by repeat split|].
    exact (extend_reply (one_hop true) middle_router NTOR
             [InRelay (from_link (RelayExtended2 [x22]) 0 cid [x11])] _ Hhead' Hwt' eq_refl).
Defined.

(** C4 as the spec words it fails.  The second hop answers the EXTEND2
    with RELAY_TRUNCATED: [extend] raises CircuitExtendError and no node
    is appended, but the circuit, Connected before, is Destroyed after.
    And when the answer is a RELAY_EXTENDED2 whose data the key agreement
    rejects, the handshake is not completed and no node is appended. *)
Lemma extend_refused_destroys :
  let c := two_hops true in
  let r := extend exit_router NTOR [InRelay truncated_from_middle] c in
  let r' := extend exit_router NTOR
              [InRelay (from_link (RelayExtended2 []) 0 cid [x11; x22])] c in
  _state c = Connected
  /\ (r.2 = Raise (CircuitExtendError RESOURCELIMIT)
      /\ routers r.1 = routers c
      /\ _state r.1 = Destroyed
      /\ _state r.1 <> Connected)
  /\ (r'.2 = Raise HandshakeError
      /\ routers r'.1 = routers c
      /\ _state r'.1 = Connected).
Proof. vm_compute. repeat split; done. Qed.

(** C2 at work: the CREATE2 of a fresh circuit is never answered; the
    waiter is still subscribed for CREATED2 after the timeout.  When the
    answer comes, the scope ends normally and the waiter is gone. *)
Lemma create_timeout_leaves_waiter :
  let c := new_circuit (Collab := layered true) cid guard_router in
  let late := create 7 [] c in
  let answered := create 7 [InCell (Created2 [x11])] c in
  late.2 = Raise (CellTimeoutError (One CellCreated2))
  /\ handlers_of CellCreated2 late.1 = [WaiterRef 0]
  /\ answered.2 = Ret tt
  /\ handlers_of CellCreated2 answered.1 = [].
Proof. vm_compute. done. Qed.

(** C9 as the spec words it fails.  The cell below carries a fourth layer
    that none of the three nodes holds, and [get_decrypted] refuses it.
    The cell reaches no handler and no stream, and the receive loop goes
    on; but no warning is logged: what is logged is the error record of
    the receive loop. *)
Lemma unrecognised_cell_no_warning :
  let rc := from_link (RelayData [x2a] cid) 5 cid [x11; x22; x33; x44] in
  let c := with_stream true in
  let r := recv_dispatch (InRelay rc) c in
  r.2 = Ret tt
  /\ received <$> (_stream_manager r.1 !! 5) = Some []
  /\ _handlers r.1 = _handlers c /\ waiters r.1 = waiters c /\ _sender r.1 = _sender c
  /\ warnings (log r.1) = warnings (log c)
  /\ filter (fun x => x.1 = ERROR) (drop (length (log c)) (log r.1)) = [handle_errors].
Proof. vm_compute. done. Qed.

(** ** Beyond the claims *)

Lemma three_hops_handlers strict t :
  handlers_of t (three_hops strict)
  = match t with
    | CellRelayTruncated => [OnTruncated]
    | CellRelayEnd => [OnStreamEnd]
    | CellRelayData | CellRelaySendMe | CellRelayConnected => [OnStream]
    | _ => []
    end.
Proof. destruct strict, t; vm_compute; reflexivity. Qed.

Lemma three_hops_allocated strict : allocated (three_hops strict).
Proof.
  intros t w. rewrite three_hops_handlers. intros Hin. exfalso.
  destruct t; repeat (apply elem_of_cons in Hin as [Hin|Hin]; [discriminate|]);
    by apply elem_of_nil in Hin.
Qed.

Lemma three_hops_connected strict : _state (three_hops strict) = Connected.
Proof. destruct strict; vm_compute; reflexivity. Qed.

Lemma with_stream_connected strict : _state (with_stream strict) = Connected.
Proof. destruct strict; vm_compute; reflexivity. Qed.

Lemma one_hop_connected strict : _state (one_hop strict) = Connected.
Proof. destruct strict; vm_compute; reflexivity. Qed.

Lemma one_hop_nodes_eq strict : _circuit_nodes (one_hop strict) = Some (one_hop_nodes strict).
Proof. destruct strict; vm_compute; reflexivity. Qed.

Lemma one_hop_keyed strict : Forall keyed (one_hop_nodes strict).
Proof.
  destruct strict; vm_compute;
    repeat (constructor; [hnf; eexists; reflexivity|]); constructor.
Qed.

Lemma sample_exit_keyed strict : keyed (sample_exit strict).
Proof. destruct strict; vm_compute; eexists; reflexivity. Qed.

Lemma nodes_stay_keyed_witness :
  let l := [Basic (OpCreate 7 [InCell (Created2 [x11])]);
            Basic (OpExtendToHidden sample_service [InRelay rendezvous_established]
                     (sample_dirs true))] in
  Forall keyed_action l
  /\ well_keyed (act_all l (fresh true)).
Proof.
  cbn zeta.
  assert (Forall (keyed_action (Collab := layered true))
            [Basic (OpCreate 7 [InCell (Created2 [x11])]);
             Basic (OpExtendToHidden sample_service [InRelay rendezvous_established]
                      (sample_dirs true))]) as Hl.
  { constructor; [exact I|]. constructor; [|constructor].
    constructor; [by constructor|]. constructor; [|constructor].
    constructor; [exact I|]. constructor; [apply sample_exit_keyed|constructor]. }
  split; [exact Hl|].
  exact (nodes_stay_keyed cid guard_router _ Hl).
Defined.

Lemma build_hops_outcome_witness :
  let c := one_hop true in
  let ns := one_hop_nodes true in
  (_state c = Connected /\ _circuit_nodes c = Some ns
   /\ Z.of_nat (length ns) < 3 /\ 3 - Z.of_nat (length ns) <= Z.of_nat (length sample_choices))
  /\ (build_hops 3 sample_choices c).2 = Ret (Some tt)
  /\ match (build_hops 3 sample_choices c).2 with
     | Ret (Some _) =>
         exists mids last,
           take (Z.to_nat 3 - length ns) sample_choices = mids ++ [last]
           /\ routers (build_hops 3 sample_choices c).1
              = Some (map router ns ++ map middle_node mids ++ [exit_node last])
     | Ret None => False
     | Raise _ =>
         exists k, (k < Z.to_nat 3 - length ns)%nat
           /\ routers (build_hops 3 sample_choices c).1
              = Some (map router ns ++ map middle_node (take k sample_choices))
     end.
Proof.
  cbn zeta.
  assert (Z.of_nat (length (one_hop_nodes true)) < 3) as Hlt by (vm_compute; reflexivity).
  assert (3 - Z.of_nat (length (one_hop_nodes true)) <= Z.of_nat (length sample_choices))
    as Hle by (vm_compute; discriminate).
  split; [by split; [apply one_hop_connected|split; [apply one_hop_nodes_eq|]]|].
  split; [vm_compute; reflexivity|].
  exact (build_hops_outcome (one_hop true) 3 sample_choices (one_hop_nodes true)
           (one_hop_connected true) (one_hop_nodes_eq true) Hlt Hle).
Defined.

Lemma build_hops_enough_witness :
  let c := three_hops true in
  (_state c = Connected /\ _circuit_nodes c = Some (sample_nodes true)
   /\ 3 <= Z.of_nat (length (sample_nodes true)))
  /\ build_hops 3 [] c
     = (set_log (log c ++ [(INFO, "Building %i hops circuit...");
                           (DEBUG, "Circuit has been built")]) c, Ret (Some tt)).
Proof.
  cbn zeta.
  assert (3 <= Z.of_nat (length (sample_nodes true))) as Hle by (vm_compute; discriminate).
  split; [by split; [apply three_hops_connected|split; [apply three_hops_nodes|]]|].
  exact (build_hops_enough (three_hops true) 3 [] (sample_nodes true)
           (three_hops_connected true) (three_hops_nodes true) Hle).
Defined.

Lemma three_hops_unassociated strict : _associated_hs (three_hops strict) = None.
Proof. destruct strict; vm_compute; reflexivity. Qed.

Lemma extend_to_hidden_outcome_witness :
  let c := three_hops true in
  let res := extend_to_hidden sample_service [InRelay rendezvous_established]
               (sample_dirs true) c in
  _associated_hs c = None
  /\ res.2 = Ret tt
  /\ search_introduction (sample_dirs true) = Ret (Some (sample_exit true))
  /\ match res.2 with
     | Ret _ =>
         exists ns node,
           search_introduction (sample_dirs true) = Ret (Some node)
           /\ _circuit_nodes res.1 = Some (ns ++ [node])
           /\ routers c = Some (map router ns)
           /\ _associated_hs res.1 = Some sample_service
     | Raise e =>
         routers res.1 = routers c
         /\ _associated_hs res.1 = None
         /\ forall node, search_introduction (sample_dirs true) = Ret (Some node) ->
              (_rendezvous_establish (rendezvous_cookie sample_service)
                 [InRelay rendezvous_established]
                 (set_log (log c ++ [(INFO, "Extending #%x circuit for hidden service %s...")])
                    c)).2 = Raise e
     end.
Proof.
  cbn zeta. split; [apply three_hops_unassociated|].
  split; [vm_compute; reflexivity|]. split; [vm_compute; reflexivity|].
  exact (extend_to_hidden_outcome (three_hops true) sample_service
           [InRelay rendezvous_established] (sample_dirs true) (three_hops_unassociated true)).
Defined.

Lemma waiter_unregistered_on_return_witness :
  let c := three_hops true in
  let inner := RelayEstablishRendezvous (rendezvous_cookie sample_service) cid in
  let ts := One CellRelayRendezvousEstablished in
  allocated c
  /\ (_send_relay_wait inner ts None 0 [InRelay rendezvous_established] c).2
     = Ret (Some RelayRendezvousEstablished)
  /\ match (_send_relay_wait inner ts None 0 [InRelay rendezvous_established] c).2 with
     | Ret _ => unregistered (WaiterRef (length (waiters c)))
                  (_send_relay_wait inner ts None 0 [InRelay rendezvous_established] c).1
     | Raise _ => True
     end.
Proof.
  cbn zeta. split; [apply three_hops_allocated|]. split; [vm_compute; reflexivity|].
  exact (proj2 (waiter_unregistered_on_return (three_hops true)
                  (Plain (Created2 []))
                  (RelayEstablishRendezvous (rendezvous_cookie sample_service) cid)
                  (One CellRelayRendezvousEstablished) None 0
                  [InRelay rendezvous_established] (three_hops_allocated true))).
Defined.

Lemma subscribe_unsubscribe_witness :
  let c := three_hops true in
  let ts := Many [CellRelayExtended2; CellRelayTruncated] in
  let c' := (unsubscribe_for ts (WaiterRef 3) (subscribe_for ts (WaiterRef 3) c).1).1 in
  (forall t, t ∈ types_of ts -> WaiterRef 3 ∉ handlers_of t c)
  /\ (forall t, handlers_of t c' = handlers_of t c)
  /\ set_handlers (_handlers c) c' = c.
Proof.
  cbn zeta.
  assert (forall t, t ∈ types_of (Many [CellRelayExtended2; CellRelayTruncated]) ->
            WaiterRef 3 ∉ handlers_of t (three_hops true)) as Hfresh.
  { intros t _. rewrite three_hops_handlers. intros Hin.
    destruct t; repeat (apply elem_of_cons in Hin as [Hin|Hin]; [discriminate|]);
      by apply elem_of_nil in Hin. }
  split; [exact Hfresh|].
  exact (subscribe_unsubscribe (three_hops true) (Many [CellRelayExtended2; CellRelayTruncated])
           (WaiterRef 3) Hfresh).
Defined.

Lemma set_error_decides_get_witness :
  let c := inside_waiter_scope true in
  let inbound := [InRelay (from_link (RelayExtended2 [x44]) 0 cid [x11; x22; x33])] in
  (3 < length (waiters c))%nat
  /\ (waiter_get 3 inbound (waiter_set_error 3 "stopped" c).1).2
     = Raise (Exception (WaiterError "stopped")).
Proof.
  cbn zeta.
  assert (3 < length (waiters (inside_waiter_scope true)))%nat as Hw by (vm_compute; lia).
  split; [exact Hw|].
  exact (set_error_decides_get (inside_waiter_scope true) 3 "stopped"
           [InRelay (from_link (RelayExtended2 [x44]) 0 cid [x11; x22; x33])] Hw).
Defined.

Lemma decrypted_earlier_warning_witness :
  let c := three_hops true in
  let ns := sample_nodes true in
  let rc := from_link (RelayData [x2a] cid) 5 cid [x11; x22] in
  (_circuit_nodes c = Some ns /\ Forall keyed ns /\ is_encrypted rc = true
   /\ (1 < length ns)%nat
   /\ (forall j, (j < 1)%nat -> is_encrypted (peel (take (S j) ns) rc) = true)
   /\ is_encrypted (peel (take 2 ns) rc) = false
   /\ @get_decrypted (layered true) (peel (take 2 ns) rc) = Some (RelayData [x2a] cid))
  /\ warnings (log (_decrypt rc c).1)
     = warnings (log c)
         ++ (if bool_decide (2 < length ns)%nat then [decrypted_earlier] else []).
Proof.
  cbn zeta.
  set (rc := from_link (RelayData [x2a] cid) 5 cid [x11; x22]).
  assert (1 < length (sample_nodes true))%nat as Hi by (vm_compute; lia).
  assert (forall j, (j < 1)%nat ->
            is_encrypted (peel (take (S j) (sample_nodes true)) rc) = true) as Hbefore.
  { intros j Hj. assert (j = 0%nat) as -> by lia. vm_compute; reflexivity. }
  assert (is_encrypted (peel (take 2 (sample_nodes true)) rc) = false) as Hat
    by (vm_compute; reflexivity).
  assert (@get_decrypted (layered true) (peel (take 2 (sample_nodes true)) rc)
            = Some (RelayData [x2a] cid))
    as Hinner by (vm_compute; reflexivity).
  split.
  { split; [apply three_hops_nodes|]. split; [apply sample_keyed|].
    split; [reflexivity|]. by repeat split. }
  exact (decrypted_earlier_warning (three_hops true) (sample_nodes true) rc 1
           (RelayData [x2a] cid) (three_hops_nodes true) (sample_keyed true) eq_refl
           Hi Hbefore Hat Hinner).
Defined.

Lemma fresh_unanswered :
  _state (fresh true) = Unknown
  /\ handlers_of CellCreated2 (fresh true) = []
  /\ @ka_complete_handshake (layered true)
       (@NtorKeyAgreement (layered true) (_router (fresh true))) [x11] = Some [x11].
Proof. vm_compute. done. Qed.

(** C5 on the sample circuits: [create] answered by CREATED2 takes the
    fresh circuit from Unknown to Connected, [destroy] takes the
    three-hop circuit with its stream from Connected to Destroyed, and no
    operation brings it back. *)
Lemma state_moves_forward_witness :
  let made := create 7 [InCell (Created2 [x11])] (fresh true) in
  let ended := destroy true (with_stream true) in
  (_state (fresh true) = Unknown /\ made.2 = Ret tt /\ _state made.1 = Connected)
  /\ (_state (with_stream true) = Connected /\ ended.2 = Ret tt
      /\ _state ended.1 = Destroyed)
  /\ forall ops, (state_rank Connected
                  <= state_rank (_state (run_all ops (with_stream true))))%nat.
Proof.
  cbn zeta. destruct fresh_unanswered as (Hst & Hh & Hs).
  split; [|split].
  - split; [exact Hst|].
    exact (proj1 (proj2 (proj2 (proj2 (state_moves_forward (fresh true))))) 7%nat [x11] [x11]
             Hst Hh Hs).
  - split; [apply with_stream_connected|].
    pose proof (proj2 (proj2 (proj2 (proj2 (proj2 (state_moves_forward (with_stream true))))))
                  true) as Hd.
    rewrite (with_stream_connected true) in Hd.
    exact (Hd (sample_nodes true) (with_stream_nodes true) (sample_keyed true)).
  - intros ops.
    pose proof (proj1 (state_moves_forward (with_stream true)) ops) as Hr.
    by rewrite (with_stream_connected true) in Hr.
Defined.

Lemma destroy_connected_witness :
  let c := with_stream true in
  let res := destroy true c in
  let rc := new_relay OuterRelay (RelayEnd cid) 5 cid in
  (_state c = Connected /\ _circuit_nodes c = Some (sample_nodes true)
   /\ Forall keyed (sample_nodes true))
  /\ res.2 = Ret tt
  /\ _state res.1 = Destroyed
  /\ _stream_manager res.1 = ∅
  /\ _sender res.1
     = _sender c ++ relay_ends (_id c) (sample_nodes true) (map_to_list (_stream_manager c)).*1
         ++ [Plain (Destroy FINISHED (_id c))]
  /\ relay_ends (_id c) (sample_nodes true) (map_to_list (_stream_manager c)).*1
     = [Relayed {| relay_type := OuterRelay; inner_cell := Some (RelayEnd cid);
                   stream_id := 5; rcircuit_id := cid; payload := [x11; x22; x33];
                   is_encrypted := true |}].
Proof.
  cbn zeta.
  split; [by split; [apply with_stream_connected|
            split; [apply with_stream_nodes|apply sample_keyed]]|].
  pose proof (destroy_connected (with_stream true) (sample_nodes true) true
                (with_stream_connected true) (with_stream_nodes true) (sample_keyed true))
    as (H1 & H2 & H3 & H4 & _).
  split; [exact H1|]. split; [exact H2|]. split; [exact H3|]. split; [exact H4|].
  vm_compute; reflexivity.
Defined.

Lemma fresh_handlers strict t : handlers_of t (fresh strict) = [].
Proof. reflexivity. Qed.

Lemma create_outcome_witness :
  let c := fresh true in
  let res := create 7 [InCell (Created2 [x11])] c in
  (_state c = Unknown /\ forall t, handlers_of t c = [])
  /\ res.2 = Ret tt
  /\ match res.2 with
     | Ret _ =>
         _state res.1 = Connected
         /\ _guard res.1 = Some 7%nat
         /\ (exists n, _circuit_nodes res.1 = Some [n]
               /\ router n = _router c /\ handshake_type n = NTOR /\ keyed n)
         /\ forall t, handlers_of t res.1
              = match t with
                | CellRelayTruncated => [OnTruncated]
                | CellRelayEnd => [OnStreamEnd]
                | CellRelayData | CellRelaySendMe | CellRelayConnected => [OnStream]
                | _ => []
                end
     | Raise _ =>
         _state res.1 = Unknown /\ _guard res.1 = _guard c /\ routers res.1 = routers c
     end.
Proof.
  cbn zeta. split; [split; [reflexivity|apply fresh_handlers]|].
  split; [vm_compute; reflexivity|].
  exact (create_outcome (fresh true) 7 [InCell (Created2 [x11])] eq_refl (fresh_handlers true)).
Defined.

Lemma circuit_ids_witness :
  (0 <= 0 < 2 ^ 31 - 1 /\ 0 <= 1 < 2 ^ 31 - 1)
  /\ (CircuitsManager._get_next_circuit_id true 0).2 = 0x80000001
  /\ (CircuitsManager._get_next_circuit_id true (0 + 2 ^ 31)).2
     = (CircuitsManager._get_next_circuit_id true 0).2.
Proof.
  assert (0 <= 0 < 2 ^ 31 - 1) as H0 by (split; [discriminate|reflexivity]).
  assert (0 <= 1 < 2 ^ 31 - 1) as H1 by (split; [discriminate|reflexivity]).
  split; [by split|]. split; [reflexivity|].
  exact (proj2 (proj2 (proj2 (proj2 (proj2 (circuit_ids 0 1 H0 H1)))))).
Defined.

Lemma sample_manager_issued strict : CircuitsManager.issued 0 (sample_manager strict).
Proof.
  intros id [x Hx]. unfold sample_manager, CircuitsManager.new_manager in Hx. cbn in Hx.
  by rewrite lookup_empty in Hx.
Qed.

Lemma create_new_fresh_witness :
  let m := sample_manager true in
  let res := CircuitsManager.create_new 0 m in
  (0 <= 0 < 2 ^ 31 - 1 /\ CircuitsManager.issued 0 m)
  /\ CircuitsManager.get_by_id (_id res.2) res.1.2 = Some res.2
  /\ CircuitsManager.remove (_id res.2) res.1.2 = (m, Some res.2).
Proof.
  cbn zeta.
  assert (0 <= 0 < 2 ^ 31 - 1) as H0 by (split; [discriminate|reflexivity]).
  split; [split; [exact H0|apply sample_manager_issued]|].
  pose proof (create_new_fresh 0 (sample_manager true) H0 (sample_manager_issued true))
    as (_ & _ & _ & Hget & _ & _ & Hrem).
  exact (conj Hget Hrem).
Defined.

Lemma create_many_distinct_witness :
  let m := sample_manager true in
  let res := CircuitsManager.create_many 3 0 m in
  (0 <= 0 /\ 0 + Z.of_nat 3 < 2 ^ 31 /\ CircuitsManager.issued 0 m)
  /\ res.1 = 0 + Z.of_nat 3
  /\ size (CircuitsManager._circuits_map res.2)
     = (size (CircuitsManager._circuits_map m) + 3)%nat.
Proof.
  cbn zeta.
  assert (0 + Z.of_nat 3 < 2 ^ 31) as Hn by reflexivity.
  split; [split; [discriminate|split; [exact Hn|apply sample_manager_issued]]|].
  pose proof (create_many_distinct 3 0 (sample_manager true) ltac:(discriminate) Hn
                (sample_manager_issued true)) as (H1 & H2 & _).
  exact (conj H1 H2).
Defined.

(** A socket goes to the selector, and what the selector raises is what
    [register] raises: ValueError for the empty event mask, KeyError for a
    socket that is registered already; unregistering it twice is a
    KeyError too. *)
Lemma register_socket_refused :
  let r0 := TorReceiver.new_receiver in
  let r1 := TorReceiver.register (TorReceiver.Socket 4) TorReceiver.EVENT_READ 0 r0 in
  let r2 := TorReceiver.unregister (TorReceiver.Socket 4) r1.1 in
  (TorReceiver.register (TorReceiver.Socket 4) 0 0 r0).2 = Some TorReceiver.ValueError
  /\ r1.2 = None
  /\ (TorReceiver.register (TorReceiver.Socket 4) TorReceiver.EVENT_READ 1 r1.1).2
     = Some TorReceiver.KeyError
  /\ r2.2 = None
  /\ (TorReceiver.unregister (TorReceiver.Socket 4) r2.1).2 = Some TorReceiver.KeyError.
Proof. vm_compute. done. Qed.

Lemma register_unregister_stream_witness :
  let r1 := TorReceiver.register_all 5 TorReceiver.EVENT_READ [0%nat; 1%nat]
              TorReceiver.new_receiver in
  let res := TorReceiver.unregister (TorReceiver.Stream 5) r1 in
  (Z.testbit TorReceiver.EVENT_READ 1 = false
   /\ TorReceiver._stream_to_callback TorReceiver.new_receiver !! 5 = None
   /\ [0%nat; 1%nat] <> [])
  /\ TorReceiver.callbacks_of 5 r1 = [0%nat; 1%nat]
  /\ TorReceiver.calls res.1
     = [TorReceiver.StreamRegister 5 0; TorReceiver.StreamRegister 5 1;
        TorReceiver.StreamUnregister 5 0; TorReceiver.StreamUnregister 5 1]
  /\ TorReceiver.unregister (TorReceiver.Stream 5) res.1 = (res.1, Some TorReceiver.KeyError).
Proof.
  cbn zeta.
  assert ([0%nat; 1%nat] <> []) as Hne by discriminate.
  split; [by split; [reflexivity|split; [reflexivity|]]|].
  pose proof (register_unregister_stream TorReceiver.new_receiver 5 TorReceiver.EVENT_READ
                [0%nat; 1%nat] eq_refl eq_refl Hne) as (H1 & H2 & H3). cbn zeta in *.
  split; [exact H1|]. split; [by rewrite H2|exact H3].
Defined.

Lemma truncation_handler_first_witness :
  let l := [Basic (OpCreate 7 [InCell (Created2 [x11])])] in
  _state (act_all l (fresh true)) <> Unknown
  /\ on_truncated_first (act_all l (fresh true))
  /\ is_Some (_guard (act_all l (fresh true))).
Proof.
  cbn zeta.
  assert (_state (act_all [Basic (OpCreate 7 [InCell (Created2 [x11])])] (fresh true))
          <> Unknown) as Hst by (vm_compute; discriminate).
  split; [exact Hst|].
  exact (truncation_handler_first cid guard_router
           [Basic (OpCreate 7 [InCell (Created2 [x11])])] Hst).
Defined.

Lemma skinned_eq strict r :
  create_onion_skin (new_node r NTOR) = Ret (skinned strict r).
Proof. reflexivity. Qed.

Lemma extend_wire_witness :
  let c := one_hop true in
  let ns := one_hop_nodes true in
  let r := middle_router in
  (_state c = Connected /\ _circuit_nodes c = Some ns /\ Forall keyed ns
   /\ create_onion_skin (new_node r NTOR) = Ret ((skinned true r).1, (skinned true r).2))
  /\ exists more,
       _sender (extend r NTOR [] c).1
       = _sender c
           ++ Relayed (nest ns (new_relay OuterRelayEarly
                                  (RelayExtend2 (ip r) (tor_port r) (fingerprint r)
                                     (skinned true r).2)
                                  0 (_id c)))
           :: more.
Proof.
  cbn zeta.
  split; [by split; [apply one_hop_connected|split; [apply one_hop_nodes_eq|
            split; [apply one_hop_keyed|reflexivity]]]|].
  exact (extend_wire (one_hop true) (one_hop_nodes true) middle_router NTOR []
           (skinned true middle_router).1 (skinned true middle_router).2
           (one_hop_connected true) (one_hop_nodes_eq true) (one_hop_keyed true) eq_refl).
Defined.

Lemma create_wire_witness :
  let c := fresh true in
  (_state c = Unknown
   /\ create_onion_skin (new_node (_router c) NTOR)
      = Ret ((skinned true guard_router).1, (skinned true guard_router).2))
  /\ exists more,
       _sender (create 7 [] c).1
       = _sender c ++ Plain (Create2 NTOR (skinned true guard_router).2 (_id c)) :: more.
Proof.
  cbn zeta. split; [split; reflexivity|].
  exact (create_wire (fresh true) 7 [] (skinned true guard_router).1
           (skinned true guard_router).2 eq_refl eq_refl).
Defined.

Lemma extend_unknown_handshake_witness :
  let c := three_hops true in
  _state c = Connected
  /\ extend exit_router FAST [] c
     = (set_log (log c ++ [(INFO, "Extending the circuit #%x with %s...");
                           (DEBUG, "Sending Extend2...")]) c,
        Raise (NotImplementedError "Unknown key agreement")).
Proof.
  cbn zeta. split; [apply three_hops_connected|].
  exact (extend_unknown_handshake (three_hops true) exit_router [] (three_hops_connected true)).
Defined.

Lemma extend_to_hidden_bad_cookie_witness :
  let c := three_hops true in
  let hs := {| onion := "abcdefghijklmnop"; hostname := "abcdefghijklmnop.onion";
               rendezvous_cookie := [x07] |} in
  (_associated_hs c = None /\ length (rendezvous_cookie hs) <> 20%nat)
  /\ extend_to_hidden hs [] (sample_dirs true) c
     = (set_log (log c ++ [(INFO, "Extending #%x circuit for hidden service %s...")]) c,
        Raise (AssertionError "")).
Proof.
  cbn zeta.
  assert (length [x07] <> 20%nat) as Hlen by discriminate.
  split; [split; [apply three_hops_unassociated|exact Hlen]|].
  exact (extend_to_hidden_bad_cookie (three_hops true)
           {| onion := "abcdefghijklmnop"; hostname := "abcdefghijklmnop.onion";
              rendezvous_cookie := [x07] |} [] (sample_dirs true)
           (three_hops_unassociated true) Hlen).
Defined.

End Instances.
